(** * Windowed multi-head attention (nunif/modules/attention.py)

    A shallow embedding of the attention engine: the construction of the
    relative position tables of [WindowScoreBias], the head-splitting
    scaled-dot-product core [sliced_sdp] with its backend policy, the
    [MHA]/[CrossMHA] blocks and the windowed wrappers.

    Python exceptions are values of [exn]; a computation that may raise has
    type [result A].  The window extents given to [WindowScoreBias] are
    Python integers, [Z]; every size that ends up as an extent of a tensor
    (channels, heads, the windows of the attention modules) is a [nat].

    The later parts embed the squeeze-and-excitation blocks of the same
    file, the residual blocks of nunif/modules/res_block.py and the
    transform cache of stlizer/cache.py. *)

From Stdlib Require Import ZArith QArith Qabs Qcanon Lia Ascii DecimalString DecimalZ.
From stdpp Require Import base tactics option list numbers sorting gmap strings.

Local Open Scope Z_scope.

(** ** Exceptions *)

Inductive exn : Set :=
| AssertionError
| ZeroDivisionError
| ValueError
| AttributeError
| RuntimeError.

Inductive result (A : Type) : Type :=
| Ok (a : A)
| Raise (e : exn).
Arguments Ok {A} a.
Arguments Raise {A} e.

#[global] Instance result_ret : MRet result := λ A a, Ok a.
#[global] Instance result_bind : MBind result := λ A B f m,
  match m with
  | Ok a => f a
  | Raise e => Raise e
  end.

Definition is_Ok {A} (r : result A) : Prop :=
  match r with Ok _ => True | Raise _ => False end.

(** Code outside the attention classes also indexes past the end of a
    tensor or names an axis a tensor does not have, which raises
    [IndexError]: an outcome is a result, or that exception. *)
Inductive outcome (A : Type) : Type :=
| Returns (a : A)
| IndexError
| Raises (e : exn).
Arguments Returns {A} a.
Arguments IndexError {A}.
Arguments Raises {A} e.

#[global] Instance outcome_ret : MRet outcome := λ A a, Returns a.
#[global] Instance outcome_bind : MBind outcome := λ A B f m,
  match m with
  | Returns a => f a
  | IndexError => IndexError
  | Raises e => Raises e
  end.

(** A step that cannot raise [IndexError], inside code that can. *)
Definition lift {A} (r : result A) : outcome A :=
  match r with
  | Ok a => Returns a
  | Raise e => Raises e
  end.

(** ** Relative position tables of WindowScoreBias *)

Module ScoreBias.

(** A coordinate or a coordinate difference, [(y, x)]. *)
Definition pos : Type := Z * Z.

(** [torch.arange(start, stop)] on integers: empty when [stop = start],
    refused when [stop < start]. *)
Definition arange (start stop : Z) : result (list Z) :=
  if decide (stop < start) then Raise RuntimeError
  else Ok (seqZ start (stop - start)).

(** [torch.stack(torch.meshgrid(ys, xs, indexing="ij"), dim=2)], read in
    row-major order: entry [(i, j)] is [(ys[i], xs[j])]. *)
Definition meshgrid_stack (ys xs : list Z) : list pos :=
  y ← ys; (λ x, (y, x)) <$> xs.

(** [t.reshape(N, 2)] of a tensor holding [rows] pairs: the extent [-1] is
    inferred, any other extent has to match the number of elements. *)
Definition reshape_N_2 (N : Z) (rows : list pos) : result (list pos) :=
  if decide (N = -1) then Ok rows
  else if decide (N = Z.of_nat (length rows)) then Ok rows
  else Raise RuntimeError.

(** [positions[i].view(1, 2) - positions]: one row broadcast against all. *)
Definition sub_broadcast (p : pos) (positions : list pos) : list pos :=
  (λ q, (p.1 - q.1, p.2 - q.2)) <$> positions.

(** [torch.cat(blocks, dim=0)]: refuses an empty list of tensors. *)
Definition torch_cat (blocks : list (list pos)) : result (list pos) :=
  match blocks with
  | [] => Raise RuntimeError
  | _ => Ok (concat blocks)
  end.

(** Python compares tuples lexicographically. *)
Definition tuple_le (a b : pos) : Prop :=
  a.1 < b.1 ∨ (a.1 = b.1 ∧ a.2 ≤ b.2).

#[global] Instance tuple_le_dec a b : Decision (tuple_le a b).
Proof. unfold tuple_le. apply _. Defined.

(** [sorted(l)] *)
Definition sorted (l : list pos) : list pos := merge_sort tuple_le l.

(** [l.index(d)]: position of the first occurrence, [ValueError] if none. *)
Definition list_index (l : list pos) (d : pos) : result nat :=
  match list_find (λ e, e = d) l with
  | Some (i, _) => Ok i
  | None => Raise ValueError
  end.

(** A float32 value, up to rounding: a rational, an infinity or NaN.  The
    tables hold small integers, which float32 represents exactly. *)
Inductive fnum : Type :=
| Fin (q : Q)
| Inf (negative : bool)
| NaN.

(** IEEE division of two finite values. *)
Definition fdiv (a b : Z) : fnum :=
  if decide (b = 0) then
    if decide (a = 0) then NaN else Inf (bool_decide (a < 0))
  else Fin (inject_Z a / inject_Z b)%Q.

(** [t.abs().max()] over every component; [max] refuses an empty tensor. *)
Definition abs_max (t : list pos) : result Z :=
  match t with
  | [] => Raise RuntimeError
  | _ => Ok (foldr (λ p m, Z.max (Z.max (Z.abs p.1) (Z.abs p.2)) m) 0 t)
  end.

(** One row of [unique_delta / m]. *)
Definition normalise (m : Z) (d : pos) : fnum * fnum :=
  (fdiv d.1 m, fdiv d.2 m).

Section gen_input.
(** [list(s)] enumerates a set in an order the language does not fix. *)
Variable set_to_list : gset pos → list pos.

Definition _gen_input (window_size : Z * Z)
  : result (list nat * list (fnum * fnum)) :=
  let N := window_size.1 * window_size.2 in
  ys ← arange 0 window_size.1;
  xs ← arange 0 window_size.2;
  positions ← reshape_N_2 N (meshgrid_stack ys xs);
  delta ← torch_cat ((λ p, sub_broadcast p positions) <$> positions);
  let unique_delta := sorted (set_to_list (list_to_set delta)) in
  index ← mapM (list_index unique_delta) delta;
  m ← abs_max unique_delta;
  Ok (index, normalise m <$> unique_delta).

(** The argument of the constructor: one integer or a pair. *)
Inductive window_arg : Type :=
| WinInt (n : Z)
| WinPair (h w : Z).

(** The state the constructor leaves behind: the geometry and the two
    registered buffers.  The bias network [to_bias] is initialised by the
    external module initialiser and holds no table. *)
Record WindowScoreBias : Type := {
  window_size : Z * Z;
  index : list nat;
  delta : list (fnum * fnum);
  hidden_dim : Z
}.

(** An integer stands for a square window. *)
Definition geometry (window_size : window_arg) : Z * Z :=
  match window_size with
  | WinInt n => (n, n)
  | WinPair h w => (h, w)
  end.

(** [WindowScoreBias.__init__].  [int(n ** 0.5)] is the integer square
    root of [n] as long as [n] stays below 2^52. *)
Definition __init__ (window_size : window_arg) (hidden_dim : option Z)
  : result WindowScoreBias :=
  let window_size := geometry window_size in
  '(index, unique_delta) ← _gen_input window_size;
  let hidden_dim :=
    match hidden_dim with
    | None => Z.sqrt (window_size.1 * window_size.2) * 2
    | Some d => d
    end in
  Ok {| window_size := window_size; index := index;
        delta := unique_delta; hidden_dim := hidden_dim |}.
End gen_input.

(** An enumeration of sets lists every member once, in any order. *)
Definition enumerates (set_to_list : gset pos → list pos) : Prop :=
  ∀ X, set_to_list X ≡ₚ elements X.

(** The intermediate values of [_gen_input], named for the statements. *)
Definition positions_of (h w : Z) : list pos :=
  meshgrid_stack (seqZ 0 h) (seqZ 0 w).
Definition delta_of (h w : Z) : list pos :=
  concat ((λ p, sub_broadcast p (positions_of h w)) <$> positions_of h w).

Definition unique_delta_of (set_to_list : gset pos → list pos) (h w : Z)
  : list pos :=
  sorted (set_to_list (list_to_set (delta_of h w))).

(** What the normalisation is meant to achieve for one component. *)
Definition in_unit_interval (f : fnum) : Prop :=
  match f with
  | Fin q => (-1 <= q <= 1)%Q
  | _ => False
  end.

(** A stored value that is the quotient [a / m] to float32 precision: it
    is finite and its relative error is at most 2^-24, the bound of
    rounding to nearest. *)
Definition float32_quotient (f : fnum) (a m : Z) : Prop :=
  match f with
  | Fin q =>
      (Qabs (q * inject_Z m - inject_Z a)
       <= Qabs (inject_Z a) * (1 # 16777216))%Q
  | _ => False
  end.

(** The offsets between the cells of an h x w window, listed row by row:
    dy from 1-h to h-1 and, for each dy, dx from 1-w to w-1. *)
Definition offset_rectangle (h w : Z) : list pos :=
  meshgrid_stack (seqZ (1 - h) (2 * h - 1)) (seqZ (1 - w) (2 * w - 1)).

Section forward.
Context {score : Type}.
(** [self.to_bias], the network Linear(2, hidden_dim), GELU,
    Linear(hidden_dim, 1): it turns every row (dy, dx) of its input into one
    score.  Its parameters come from the external module initialiser. *)
Variable to_bias : fnum * fnum → score.

(** [t.reshape(N, N)] of a tensor with one column, as the list of the N
    rows of the result.  Two negative extents cannot both be inferred. *)
Definition reshape_N_N (N : Z) (t : list score) : result (list (list score)) :=
  if decide (0 ≤ N ∧ N * N = Z.of_nat (length t)) then
    Ok ((λ i, take (Z.to_nat N) (drop (i * Z.to_nat N) t))
          <$> seq 0 (Z.to_nat N))
  else Raise RuntimeError.

(** [WindowScoreBias.forward]: the scores of the table rows, gathered along
    [index] and laid out as an N x N matrix. *)
Definition forward (self : WindowScoreBias) : outcome (list (list score)) :=
  let N := (window_size self).1 * (window_size self).2 in
  let bias := to_bias <$> delta self in
  match mapM (λ i, bias !! i) (index self) with
  | None => IndexError
  | Some bias => lift (reshape_N_N N bias)
  end.
End forward.

End ScoreBias.

(** ** Tensors *)

(** The element type of tensors.  Floating-point arithmetic is the business
    of the tensor library: apart from addition and the padding value the
    code never looks inside an element. *)
Class Scalar : Type := {
  scalar : Type;
  zero : scalar;
  add : scalar → scalar → scalar
}.

(** A tensor is its shape and its elements, addressed by multi-index.
    Elements at an index outside the shape carry no meaning. *)
Record tensor `{Scalar} : Type := Tensor {
  shape : list nat;
  data : list nat → scalar
}.

(** A two-dimensional slice, one row per token. *)
Definition matrix `{Scalar} : Type := list (list scalar).

Inductive SDPBackend : Set :=
| FLASH_ATTENTION
| EFFICIENT_ATTENTION
| MATH.

#[global] Instance SDPBackend_eq_dec : EqDecision SDPBackend.
Proof. solve_decision. Defined.

(** What a [with use_flash_attention(flag):] block puts in force: the
    backend list given to [sdpa_kernel], or the three switches of the older
    [torch.backends.cuda.sdp_kernel]. *)
Inductive sdp_context : Set :=
| sdpa_kernel (backends : list SDPBackend)
| sdp_kernel (enable_flash enable_math enable_mem_efficient : bool).

(** The tensor library as the code sees it: which of its interfaces exist,
    and the attention kernel.  The kernel works on one (batch, head) slice
    at a time: from the query, key and value rows of that slice (and the
    mask, dropout rate and causal flag of the call) it produces the output
    rows of the same slice. *)
Class Torch `{Scalar} : Type := {
  has_scaled_dot_product_attention : bool;
  has_nn_attention : bool;
  attention_slice :
    sdp_context → option tensor → Q → bool → nat → nat →
    matrix → matrix → matrix → matrix
}.

Section tensors.
Context `{Scalar}.

Definition numel (s : list nat) : nat := foldr Nat.mul 1%nat s.

(** Row-major offset of a multi-index, and back. *)
Fixpoint ravel (s idx : list nat) : nat :=
  match s, idx with
  | _ :: s', i :: idx' => (i * numel s' + ravel s' idx')%nat
  | _, _ => 0%nat
  end.

Fixpoint unravel (s : list nat) (off : nat) : list nat :=
  match s with
  | [] => []
  | _ :: s' => (off / numel s')%nat :: unravel s' (off mod numel s')%nat
  end.

(** [x.view] and [x.reshape] with explicit extents [s]: the elements
    keep their row-major order.  Whether the result shares storage with
    [x] is not represented. *)
Definition reshape (x : tensor) (s : list nat) : result tensor :=
  if decide (numel s = numel (shape x)) then
    Ok {| shape := s; data := λ idx, data x (unravel (shape x) (ravel s idx)) |}
  else Raise RuntimeError.

Definition view := reshape.

(** Position of [d] in [dims]. *)
Definition axis_of (d : nat) (dims : list nat) : nat :=
  from_option fst 0%nat (list_find (λ e, e = d) dims).

(** [x.permute] along [dims]: axis [k] of the result is axis [dims[k]] of [x]. *)
Definition permute (x : tensor) (dims : list nat) : result tensor :=
  if bool_decide (NoDup dims ∧ Forall (λ d, d < length (shape x))%nat dims
                  ∧ length dims = length (shape x)) then
    Ok {| shape := (λ d, default 0%nat (shape x !! d)) <$> dims;
          data := λ idx,
            data x ((λ d, default 0%nat (idx !! axis_of d dims))
                      <$> seq 0 (length dims)) |}
  else Raise RuntimeError.

(** Replace, respectively shift, the last component of a list. *)
Definition set_last (l : list nat) (n : nat) : list nat :=
  take (length l - 1) l ++ [n].
Definition shift_last (l : list nat) (n : nat) : list nat :=
  take (length l - 1) l ++ [(default 0 (last l) + n)%nat].

(** [x.split(split_size, dim=-1)]: consecutive chunks of the last axis, the
    last one possibly shorter. *)
Definition split (x : tensor) (split_size : nat) : result (list tensor) :=
  match last (shape x) with
  | None => Raise RuntimeError
  | Some total =>
      if decide (split_size = 0%nat) then
        if decide (total = 0%nat) then Ok [x] else Raise RuntimeError
      else
        Ok ((λ i,
               {| shape := set_last (shape x)
                             (Nat.min split_size (total - i * split_size));
                  data := λ idx, data x (shift_last idx (i * split_size)) |})
              <$> seq 0 (Nat.max 1 ((total + split_size - 1) / split_size)))
  end.

(** [a + b] for tensors of one shape; the code adds no others. *)
Definition tensor_add (a b : tensor) : result tensor :=
  if decide (shape a = shape b) then
    Ok {| shape := shape a;
          data := λ idx, add (data a idx) (data b idx) |}
  else Raise RuntimeError.

(** [F.pad(x, [left, right, top, bottom], mode="constant", value=0)] on a
    four-dimensional tensor; negative amounts crop. *)
Definition pad (x : tensor) (left right top bottom : Z) : result tensor :=
  match shape x with
  | [B; C; H; W] =>
      let H' := (Z.of_nat H + top + bottom)%Z in
      let W' := (Z.of_nat W + left + right)%Z in
      if decide (0 ≤ H' ∧ 0 ≤ W')%Z then
        Ok {| shape := [B; C; Z.to_nat H'; Z.to_nat W'];
              data := λ idx,
                match idx with
                | [b; c; i; j] =>
                    let i0 := (Z.of_nat i - top)%Z in
                    let j0 := (Z.of_nat j - left)%Z in
                    if decide (0 ≤ i0 < Z.of_nat H ∧ 0 ≤ j0 < Z.of_nat W)%Z
                    then data x [b; c; Z.to_nat i0; Z.to_nat j0]
                    else zero
                | _ => zero
                end |}
      else Raise RuntimeError
  | _ => Raise RuntimeError
  end.

(** A learned affine map between feature vectors: [nn.Linear], and
    [nn.Conv2d] with a 1x1 kernel, which applies such a map at every
    position.  The parameter values come from the module initialiser; the
    map they define is all the code uses. *)
Record Linear : Type := {
  in_features : nat;
  out_features : nat;
  affine : list scalar → list scalar
}.

(** [nn.Linear.forward]: the map acts on the last axis. *)
Definition Linear_forward (l : Linear) (x : tensor) : result tensor :=
  match last (shape x) with
  | Some C =>
      if decide (C = in_features l) then
        Ok {| shape := set_last (shape x) (out_features l);
              data := λ idx,
                let row := take (length idx - 1) idx in
                let features :=
                  (λ c, data x (row ++ [c])) <$> seq 0 (in_features l) in
                default zero (affine l features !! default 0%nat (last idx)) |}
      else Raise RuntimeError
  | None => Raise RuntimeError
  end.

(** [nn.Conv2d(..., kernel_size=1, stride=1, padding=0).forward] on a
    batched input: the map acts on the channel axis. *)
Definition Conv2d_forward (l : Linear) (x : tensor) : result tensor :=
  match shape x with
  | [B; C; H; W] =>
      if decide (C = in_features l) then
        Ok {| shape := [B; out_features l; H; W];
              data := λ idx,
                match idx with
                | [b; o; i; j] =>
                    let features :=
                      (λ c, data x [b; c; i; j]) <$> seq 0 (in_features l) in
                    default zero (affine l features !! o)
                | _ => zero
                end |}
      else Raise RuntimeError
  | _ => Raise RuntimeError
  end.

(** Python's [a % b] and [a // b] on non-negative integers. *)
Definition py_mod (a b : nat) : result nat :=
  if decide (b = 0%nat) then Raise ZeroDivisionError else Ok (a mod b)%nat.
Definition py_floordiv (a b : nat) : result nat :=
  if decide (b = 0%nat) then Raise ZeroDivisionError else Ok (a / b)%nat.

(** [assert c] *)
Definition py_assert (c : bool) : result unit :=
  if c then Ok () else Raise AssertionError.

End tensors.

(** ** The layout adapter (nunif/modules/permute.py) *)

Section layout.
Context `{Scalar}.

(** Modelled from the spec: [bchw_to_bnc] of permute.py, which is outside
    the sources at hand.  It partitions a (batch, channels, height, width)
    feature map into non-overlapping windows and flattens each window into
    a token sequence, giving (batch * windows, tokens per window,
    channels); windows and tokens are numbered row by row.  It enforces
    that height and width are multiples of the window extents. *)
Definition bchw_to_bnc (x : tensor) (window_size : nat * nat)
  : result tensor :=
  match shape x with
  | [B; C; H; W] =>
      rh ← py_mod H window_size.1;
      rw ← py_mod W window_size.2;
      _ ← py_assert (bool_decide (rh = 0 ∧ rw = 0)%nat);
      let SH := (H / window_size.1)%nat in
      let SW := (W / window_size.2)%nat in
      Ok {| shape := [(B * SH * SW)%nat;
                      (window_size.1 * window_size.2)%nat; C];
            data := λ idx,
              match idx with
              | [n; t; c] =>
                  data x [(n / (SH * SW))%nat; c;
                          ((n / SW) mod SH * window_size.1
                           + t / window_size.2)%nat;
                          (n mod SW * window_size.2
                           + t mod window_size.2)%nat]
              | _ => zero
              end |}
  | _ => Raise ValueError
  end.

(** Modelled from the spec: [bnc_to_bchw] of permute.py, the exact inverse
    of [bchw_to_bnc] for a feature map of shape [out_shape]. *)
Definition bnc_to_bchw (x : tensor) (out_shape : list nat)
    (window_size : nat * nat) : result tensor :=
  match out_shape with
  | [B; C; H; W] =>
      rh ← py_mod H window_size.1;
      rw ← py_mod W window_size.2;
      _ ← py_assert (bool_decide (rh = 0 ∧ rw = 0)%nat);
      let SH := (H / window_size.1)%nat in
      let SW := (W / window_size.2)%nat in
      if decide (shape x = [(B * SH * SW)%nat;
                            (window_size.1 * window_size.2)%nat; C]) then
        Ok {| shape := [B; C; H; W];
              data := λ idx,
                match idx with
                | [b; c; i; j] =>
                    data x [((b * SH + i / window_size.1) * SW
                             + j / window_size.2)%nat;
                            (i mod window_size.1 * window_size.2
                             + j mod window_size.2)%nat;
                            c]
                | _ => zero
                end |}
      else Raise RuntimeError
  | _ => Raise ValueError
  end.

(** Modelled from the spec: the channel-first to channel-last conversion
    of permute.py and its inverse. *)
Definition bchw_to_bhwc (x : tensor) : result tensor := permute x [0; 2; 3; 1]%nat.
Definition bhwc_to_bchw (x : tensor) : result tensor := permute x [0; 3; 1; 2]%nat.

End layout.

(** ** The scaled-dot-product core *)

(** The argument [window_size] of the windowed modules: an integer or a
    pair. *)
Inductive window_arg : Set :=
| WinInt (n : nat)
| WinPair (h w : nat).

Definition window_pair (window_size : window_arg) : nat * nat :=
  match window_size with
  | WinInt n => (n, n)
  | WinPair h w => (h, w)
  end.

Section attention.
Context `{Torch}.

(** [use_flash_attention(flag)], in the variant the import at the top of
    the file selects. *)
Definition use_flash_attention (flag : bool) : sdp_context :=
  if has_nn_attention then
    if flag then sdpa_kernel [FLASH_ATTENTION; EFFICIENT_ATTENTION; MATH]
    else sdpa_kernel [MATH]
  else sdp_kernel flag true flag.


(** The same library with its kernel pinned to one context. *)
Definition pin_context (ctx : sdp_context) : Torch := {|
  has_scaled_dot_product_attention := has_scaled_dot_product_attention;
  has_nn_attention := has_nn_attention;
  attention_slice := λ _, attention_slice ctx
|}.

(** Agreement of tensors and of results up to a tolerance on elements. *)
Definition tensor_approx (approx : relation scalar) (x y : tensor) : Prop :=
  shape x = shape y ∧ ∀ idx, approx (data x idx) (data y idx).
Definition result_approx (approx : relation scalar)
    (r1 r2 : result tensor) : Prop :=
  match r1, r2 with
  | Ok x, Ok y => tensor_approx approx x y
  | Raise e1, Raise e2 => e1 = e2
  | _, _ => False
  end.

(** What the library promises about its backends: on the same slice, the
    kernels it may run in different contexts agree up to the tolerance. *)
Definition kernel_tolerance (approx : relation scalar) : Prop :=
  ∀ ctx ctx' attn_mask dropout_p is_causal b h Qm Km Vm,
    Forall2 (Forall2 approx)
      (attention_slice ctx attn_mask dropout_p is_causal b h Qm Km Vm)
      (attention_slice ctx' attn_mask dropout_p is_causal b h Qm Km Vm).

(** Right-aligned broadcasting of a shape to a target shape. *)
Fixpoint broadcastable_rev (s target : list nat) : bool :=
  match s, target with
  | [], _ => true
  | _ :: _, [] => false
  | a :: s', b :: target' =>
      (bool_decide (a = 1%nat) || bool_decide (a = b))
      && broadcastable_rev s' target'
  end.
Definition broadcastable (s target : list nat) : bool :=
  broadcastable_rev (reverse s) (reverse target).

(** The rows of the (batch, head) slice [(b, h)] of a 4-D tensor. *)
Definition slice (x : tensor) (b h rows cols : nat) : matrix :=
  (λ i, (λ j, data x [b; h; i; j]) <$> seq 0 cols) <$> seq 0 rows.

(** [F.scaled_dot_product_attention] on (batch, heads, tokens, features)
    tensors, inside the context [ctx]: the library checks the shapes and
    runs its kernel on every (batch, head) slice. *)
Definition scaled_dot_product_attention (ctx : sdp_context)
    (q k v : tensor) (attn_mask : option tensor) (dropout_p : Q)
    (is_causal : bool) : result tensor :=
  if negb has_scaled_dot_product_attention then Raise AttributeError else
  match shape q, shape k, shape v with
  | [B; Hq; L; E], [Bk; Hk; Sk; Ek], [Bv; Hv; Sv; Ev] =>
      if bool_decide (Bk = B ∧ Bv = B ∧ Hk = Hq ∧ Hv = Hq ∧ Ek = E ∧ Sv = Sk)
         && match attn_mask with
            | Some m => negb is_causal && broadcastable (shape m) [B; Hq; L; Sk]
            | None => true
            end
      then
        Ok {| shape := [B; Hq; L; Ev];
              data := λ idx,
                match idx with
                | [b; h; i; j] =>
                    let out :=
                      attention_slice ctx attn_mask dropout_p is_causal b h
                        (slice q b h L E) (slice k b h Sk E) (slice v b h Sk Ev) in
                    default zero (out !! i ≫= (.!! j))
                | _ => zero
                end |}
      else Raise RuntimeError
  | _, _, _ => Raise RuntimeError
  end.

Definition sliced_sdp (q k v : tensor) (num_heads : nat)
    (attn_mask : option tensor) (dropout_p : Q) (is_causal : bool)
  : result tensor :=
  match shape q with
  | [B; N; C] =>
      r ← py_mod C num_heads;
      _ ← py_assert (bool_decide (r = 0%nat));
      qkv_dim ← py_floordiv C num_heads;
      q ← view q [B; N; num_heads; qkv_dim] ≫= λ t, permute t [0; 2; 1; 3]%nat;
      k ← view k [B; N; num_heads; qkv_dim] ≫= λ t, permute t [0; 2; 1; 3]%nat;
      v ← view v [B; N; num_heads; qkv_dim] ≫= λ t, permute t [0; 2; 1; 3]%nat;
      let use_flash := bool_decide (Z.of_nat B ≤ 65535) in
      x ← scaled_dot_product_attention (use_flash_attention use_flash)
            q k v attn_mask dropout_p is_causal;
      x ← permute x [0; 2; 1; 3]%nat;
      reshape x [B; N; (qkv_dim * num_heads)%nat]
  | _ => Raise ValueError
  end.

(** The rows of head [h] in batch element [b] of a (B, N, C) tensor whose
    heads are [d] features wide. *)
Definition head_rows (x : tensor) (b h rows d : nat) : matrix :=
  (λ i, (λ j, data x [b; i; (h * d + j)%nat]) <$> seq 0 d) <$> seq 0 rows.


(** A normalisation callable as the wrappers expect it: it returns a
    tensor of the shape it was given. *)
Definition shape_preserving (f : tensor → result tensor) : Prop :=
  ∀ t, ∃ y, f t = Ok y ∧ shape y = shape t.
Definition norm_ok (layer_norm : option (tensor → result tensor)) : Prop :=
  match layer_norm with
  | Some norm => shape_preserving norm
  | None => True
  end.

(** A normalisation that works position by position on channel-last
    feature maps: it keeps the shape, and what it returns at a position is
    determined by what it was given there. *)
Definition pointwise_norm (layer_norm : option (tensor → result tensor))
  : Prop :=
  match layer_norm with
  | None => True
  | Some norm =>
      ∀ t t' B H' W C b i j,
        shape t = [B; H'; W; C] → shape t' = [B; H'; W; C] →
        (b < B)%nat → (i < H')%nat → (j < W)%nat →
        (∀ c, (c < C)%nat → data t [b; i; j; c] = data t' [b; i; j; c]) →
        ∃ u u', norm t = Ok u ∧ norm t' = Ok u'
                ∧ shape u = shape t ∧ shape u' = shape t'
                ∧ ∀ c, (c < C)%nat → data u [b; i; j; c] = data u' [b; i; j; c]
  end.

(** A normalisation that works window by window on (windows, tokens,
    channels) sequences, as a layer normalisation over the channels does:
    it keeps the shape, and what it returns for a window is determined by
    what it was given for that window. *)
Definition window_local_norm (layer_norm : option (tensor → result tensor))
  : Prop :=
  match layer_norm with
  | None => True
  | Some norm =>
      ∀ t t' B N C n,
        shape t = [B; N; C] → shape t' = [B; N; C] → (n < B)%nat →
        (∀ k c, (k < N)%nat → (c < C)%nat →
                data t [n; k; c] = data t' [n; k; c]) →
        ∃ u u', norm t = Ok u ∧ norm t' = Ok u'
                ∧ shape u = shape t ∧ shape u' = shape t'
                ∧ ∀ k c, (k < N)%nat → (c < C)%nat →
                         data u [n; k; c] = data u' [n; k; c]
  end.

(** An attention mask the library accepts for scores of shape [scores]. *)
Definition mask_ok (attn_mask : option tensor) (is_causal : bool)
    (scores : list nat) : Prop :=
  match attn_mask with
  | Some m => is_causal = false ∧ broadcastable (shape m) scores = true
  | None => True
  end.

End attention.

(** ** MHA *)

Module MHA.
Section defs.
Context `{Torch}.

Record t : Type := {
  qkv_dim : nat;
  num_heads : nat;
  qkv_proj : Linear;
  head_proj : Linear
}.

(** The constructor.  [qkv_weights] and [head_weights] are the maps the
    initialised parameters of the two projections define. *)
Definition __init__ (embed_dim num_heads : nat) (qkv_dim : option nat)
    (qkv_weights head_weights : list scalar → list scalar) : result t :=
  _ ← py_assert has_scaled_dot_product_attention;
  qkv_dim ←
    match qkv_dim with
    | None =>
        r ← py_mod embed_dim num_heads;
        _ ← py_assert (bool_decide (r = 0%nat));
        py_floordiv embed_dim num_heads
    | Some d => Ok d
    end;
  Ok {| qkv_dim := qkv_dim;
        num_heads := num_heads;
        qkv_proj := {| in_features := embed_dim;
                       out_features := (qkv_dim * num_heads * 3)%nat;
                       affine := qkv_weights |};
        head_proj := {| in_features := (qkv_dim * num_heads)%nat;
                        out_features := embed_dim;
                        affine := head_weights |} |}.

Definition forward (self : t) (x : tensor) (attn_mask : option tensor)
    (dropout_p : Q) (is_causal : bool) : result tensor :=
  qkv ← Linear_forward (qkv_proj self) x;
  chunks ← split qkv (qkv_dim self * num_heads self)%nat;
  match chunks with
  | [q; k; v] =>
      x ← sliced_sdp q k v (num_heads self) attn_mask dropout_p is_causal;
      Linear_forward (head_proj self) x
  | _ => Raise ValueError
  end.

End defs.
End MHA.

(** ** WindowMHA2d *)

Module WindowMHA2d.
Section defs.
Context `{Torch}.

Record t : Type := {
  window_size : nat * nat;
  num_heads : nat;
  mha : MHA.t
}.

Definition __init__ (in_channels num_heads : nat) (window_size : window_arg)
    (qkv_dim : option nat)
    (qkv_weights head_weights : list scalar → list scalar) : result t :=
  mha ← MHA.__init__ in_channels num_heads qkv_dim qkv_weights head_weights;
  Ok {| window_size := window_pair window_size;
        num_heads := num_heads;
        mha := mha |}.

Definition forward (self : t) (x : tensor) (attn_mask : option tensor)
    (layer_norm : option (tensor → result tensor)) : result tensor :=
  let out_shape := shape x in
  x ← bchw_to_bnc x (window_size self);
  x ← match layer_norm with
      | Some norm => norm x
      | None => Ok x
      end;
  x ← MHA.forward (mha self) x attn_mask 0%Q false;
  bnc_to_bchw x out_shape (window_size self).

End defs.
End WindowMHA2d.

(** ** OverlapWindowMHA2d *)

Module OverlapWindowMHA2d.
Section defs.
Context `{Torch}.

Record t : Type := {
  window_size : nat * nat;
  pad_h : nat;
  pad_w : nat;
  num_heads : nat;
  qkv_dim : nat;
  qkv_proj : Linear;
  head_proj : Linear
}.

Definition __init__ (in_channels num_heads : nat) (window_size : window_arg)
    (qkv_dim : option nat)
    (qkv_weights head_weights : list scalar → list scalar) : result t :=
  let window_size := window_pair window_size in
  qkv_dim ←
    match qkv_dim with
    | None =>
        r ← py_mod in_channels num_heads;
        _ ← py_assert (bool_decide (r = 0%nat));
        py_floordiv in_channels num_heads
    | Some d => Ok d
    end;
  Ok {| window_size := window_size;
        pad_h := (window_size.1 / 2)%nat;
        pad_w := (window_size.2 / 2)%nat;
        num_heads := num_heads;
        qkv_dim := qkv_dim;
        qkv_proj := {| in_features := in_channels;
                       out_features := (qkv_dim * num_heads * 3)%nat;
                       affine := qkv_weights |};
        head_proj := {| in_features := (qkv_dim * num_heads)%nat;
                        out_features := in_channels;
                        affine := head_weights |} |}.

Definition forward_mha (self : t) (x : tensor) (attn_mask : option tensor)
  : result tensor :=
  chunks ← split x (qkv_dim self * num_heads self)%nat;
  match chunks with
  | [q; k; v] => sliced_sdp q k v (num_heads self) attn_mask 0%Q false
  | _ => Raise ValueError
  end.

(** [shape[-1]] and [shape[2:]] of the pieces of an output shape. *)
Definition overlap_out_shape (out_shape : list nat) (x : tensor) : list nat :=
  take 1 out_shape ++ [default 0%nat (last (shape x))] ++ drop 2 out_shape.

Definition forward (self : t) (x : tensor) (attn_mask : option tensor)
    (layer_norm : option (tensor → result tensor)) : result tensor :=
  x ← match layer_norm with
      | Some norm => t ← bchw_to_bhwc x; t ← norm t; bhwc_to_bchw t
      | None => Ok x
      end;
  x ← Conv2d_forward (qkv_proj self) x;
  let x1 := x in
  x2 ← pad x (Z.of_nat (pad_w self)) (Z.of_nat (pad_w self))
             (Z.of_nat (pad_h self)) (Z.of_nat (pad_h self));
  let out_shape1 := shape x1 in
  let out_shape2 := shape x2 in
  x1 ← bchw_to_bnc x1 (window_size self);
  x2 ← bchw_to_bnc x2 (window_size self);
  x1 ← forward_mha self x1 attn_mask;
  x2 ← forward_mha self x2 attn_mask;
  x1 ← bnc_to_bchw x1 (overlap_out_shape out_shape1 x1) (window_size self);
  x2 ← bnc_to_bchw x2 (overlap_out_shape out_shape2 x2) (window_size self);
  x2 ← pad x2 (- Z.of_nat (pad_w self)) (- Z.of_nat (pad_w self))
              (- Z.of_nat (pad_h self)) (- Z.of_nat (pad_h self));
  s ← tensor_add x1 x2;
  Conv2d_forward (head_proj self) s.

End defs.
End OverlapWindowMHA2d.

(** ** CrossMHA *)

Module CrossMHA.
Section defs.
Context `{Torch}.

Record t : Type := {
  qkv_dim : nat;
  num_heads : nat;
  q_proj : Linear;
  kv_proj : Linear;
  head_proj : Linear
}.

Definition __init__ (embed_dim num_heads : nat) (qkv_dim : option nat)
    (q_weights kv_weights head_weights : list scalar → list scalar)
  : result t :=
  _ ← py_assert has_scaled_dot_product_attention;
  qkv_dim ←
    match qkv_dim with
    | None =>
        r ← py_mod embed_dim num_heads;
        _ ← py_assert (bool_decide (r = 0%nat));
        py_floordiv embed_dim num_heads
    | Some d => Ok d
    end;
  Ok {| qkv_dim := qkv_dim;
        num_heads := num_heads;
        q_proj := {| in_features := embed_dim;
                     out_features := (qkv_dim * num_heads)%nat;
                     affine := q_weights |};
        kv_proj := {| in_features := embed_dim;
                      out_features := (qkv_dim * num_heads * 2)%nat;
                      affine := kv_weights |};
        head_proj := {| in_features := (qkv_dim * num_heads)%nat;
                        out_features := embed_dim;
                        affine := head_weights |} |}.

Definition forward (self : t) (q kv : tensor) (attn_mask : option tensor)
    (dropout_p : Q) (is_causal : bool) : result tensor :=
  _ ← py_assert (bool_decide (shape q = shape kv));
  q ← Linear_forward (q_proj self) q;
  kvp ← Linear_forward (kv_proj self) kv;
  chunks ← split kvp (qkv_dim self * num_heads self)%nat;
  match chunks with
  | [k; v] =>
      x ← sliced_sdp q k v (num_heads self) attn_mask dropout_p is_causal;
      Linear_forward (head_proj self) x
  | _ => Raise ValueError
  end.

End defs.
End CrossMHA.

(** ** WindowCrossMHA2d *)

Module WindowCrossMHA2d.
Section defs.
Context `{Torch}.

Record t : Type := {
  window_size : nat * nat;
  num_heads : nat;
  mha : CrossMHA.t
}.

Definition __init__ (in_channels num_heads : nat) (window_size : window_arg)
    (qkv_dim : option nat)
    (q_weights kv_weights head_weights : list scalar → list scalar)
  : result t :=
  mha ← CrossMHA.__init__ in_channels num_heads qkv_dim
          q_weights kv_weights head_weights;
  Ok {| window_size := window_pair window_size;
        num_heads := num_heads;
        mha := mha |}.

Definition forward (self : t) (x1 x2 : tensor) (attn_mask : option tensor)
    (layer_norm1 layer_norm2 : option (tensor → result tensor))
  : result tensor :=
  let out_shape := shape x1 in
  x1 ← bchw_to_bnc x1 (window_size self);
  x2 ← bchw_to_bnc x2 (window_size self);
  x1 ← match layer_norm1 with
       | Some norm => norm x1
       | None => Ok x1
       end;
  x2 ← match layer_norm2 with
       | Some norm => norm x2
       | None => Ok x2
       end;
  x ← CrossMHA.forward (mha self) x1 x2 attn_mask 0%Q false;
  bnc_to_bchw x out_shape (window_size self).

End defs.
End WindowCrossMHA2d.

(** ** Squeeze-and-excitation blocks *)

(** The arithmetic of the squeeze-and-excitation and residual blocks: the
    product, the activation functions (the leaky one with its negative
    slope) and the mean of a list of elements, all left to the tensor
    library. *)
Class Pointwise `{Scalar} : Type := {
  mul : scalar → scalar → scalar;
  relu : scalar → scalar;
  leaky_relu : Q → scalar → scalar;
  sigmoid : scalar → scalar;
  mean : list scalar → scalar
}.

Section pointwise.
Context `{Pointwise}.

(** A function applied to every element: [F.relu], [torch.sigmoid]. *)
Definition tensor_map (f : scalar → scalar) (x : tensor) : tensor :=
  {| shape := shape x; data := λ idx, f (data x idx) |}.

(** The cells (i, j) of an n1 x n2 grid, row by row. *)
Definition grid (n1 n2 : nat) : list (nat * nat) :=
  i ← seq 0 n1; (λ j, (i, j)) <$> seq 0 n2.

(** [x.mean(dim=[d1, d2], keepdim=True)] for two different axes: both
    extents become 1.  An axis the tensor does not have is refused. *)
Definition mean_keepdim (x : tensor) (d1 d2 : nat) : outcome tensor :=
  match shape x !! d1, shape x !! d2 with
  | Some n1, Some n2 =>
      Returns {| shape := <[d2 := 1%nat]> (<[d1 := 1%nat]> (shape x));
                 data := λ idx,
                   mean ((λ ij, data x (<[d2 := ij.2]> (<[d1 := ij.1]> idx)))
                           <$> grid n1 n2) |}
  | _, _ => IndexError
  end.

(** [F.adaptive_avg_pool2d(x, 1)]: for the output size 1 the library takes
    the mean over the last two axes. *)
Definition adaptive_avg_pool2d (x : tensor) : outcome tensor :=
  let r := length (shape x) in
  if decide (r < 2)%nat then IndexError
  else mean_keepdim x (r - 2) (r - 1).

(** [nn.Conv2d(..., kernel_size=1, stride=1, padding=0).forward] on a
    batched or an unbatched input.  A convolution constructed without
    output channels is refused when it is applied. *)
Definition Conv2d_1x1 (l : Linear) (x : tensor) : result tensor :=
  if decide (out_features l = 0%nat) then Raise RuntimeError else
  match shape x with
  | [B; C; H; W] => Conv2d_forward l x
  | [C; H; W] =>
      if decide (C = in_features l) then
        Ok {| shape := [out_features l; H; W];
              data := λ idx,
                match idx with
                | [o; i; j] =>
                    let features :=
                      (λ c, data x [c; i; j]) <$> seq 0 (in_features l) in
                    default zero (affine l features !! o)
                | _ => zero
                end |}
      else Raise RuntimeError
  | _ => Raise RuntimeError
  end.

(** Where an index of a broadcast result points in an operand of shape
    [s]: axes are aligned at the right, an axis of extent 1 is repeated. *)
Definition broadcast_index (s idx : list nat) : list nat :=
  zip_with (λ n i, if decide (n = 1%nat) then 0%nat else i)
    s (drop (length idx - length s) idx).

(** [z.expand(s)] *)
Definition expand (z : tensor) (s : list nat) : result tensor :=
  if broadcastable (shape z) s then
    Ok {| shape := s; data := λ idx, data z (broadcast_index (shape z) idx) |}
  else Raise RuntimeError.

(** The shape two operands broadcast to, if they do. *)
Fixpoint broadcast_shapes_rev (s1 s2 : list nat) : option (list nat) :=
  match s1, s2 with
  | [], s => Some s
  | s, [] => Some s
  | a :: s1', b :: s2' =>
      r ← broadcast_shapes_rev s1' s2';
      if decide (a = b) then Some (a :: r)
      else if decide (a = 1%nat) then Some (b :: r)
      else if decide (b = 1%nat) then Some (a :: r)
      else None
  end.
Definition broadcast_shapes (s1 s2 : list nat) : option (list nat) :=
  reverse <$> broadcast_shapes_rev (reverse s1) (reverse s2).

(** [a * b] *)
Definition tensor_mul (a b : tensor) : result tensor :=
  match broadcast_shapes (shape a) (shape b) with
  | Some s =>
      Ok {| shape := s;
            data := λ idx, mul (data a (broadcast_index (shape a) idx))
                               (data b (broadcast_index (shape b) idx)) |}
  | None => Raise RuntimeError
  end.

(** The gate of the squeeze-and-excitation blocks for one batch element:
    from the channel means, the first map, ReLU, the second map and the
    sigmoid give one factor per channel. *)
Definition se_gate (weights1 weights2 : list scalar → list scalar)
    (mid : nat) (means : list scalar) (c : nat) : scalar :=
  let hidden :=
    (λ o, relu (default zero (weights1 means !! o))) <$> seq 0 mid in
  sigmoid (default zero (weights2 hidden !! c)).

End pointwise.

Module SEBlock.
Section defs.
Context `{Pointwise}.

Record t : Type := {
  conv1 : Linear;
  conv2 : Linear
}.

(** The constructor.  [weights1] and [weights2] are the maps the
    initialised parameters of the two convolutions define, bias included
    when [bias] is set. *)
Definition __init__ (in_channels reduction : nat)
    (weights1 weights2 : list scalar → list scalar) : result t :=
  mid ← py_floordiv in_channels reduction;
  Ok {| conv1 := {| in_features := in_channels; out_features := mid;
                    affine := weights1 |};
        conv2 := {| in_features := mid; out_features := in_channels;
                    affine := weights2 |} |}.

Definition forward (self : t) (x : tensor) : outcome tensor :=
  z ← adaptive_avg_pool2d x;
  z ← lift (Conv2d_1x1 (conv1 self) z);
  let z := tensor_map relu z in
  z ← lift (Conv2d_1x1 (conv2 self) z);
  let z := tensor_map sigmoid z in
  z ← lift (expand z (shape x));
  lift (tensor_mul x z).

End defs.
End SEBlock.

Module SEBlockNHWC.
Section defs.
Context `{Pointwise}.

Record t : Type := {
  lin1 : Linear;
  lin2 : Linear
}.

Definition __init__ (in_channels reduction : nat)
    (weights1 weights2 : list scalar → list scalar) : result t :=
  mid ← py_floordiv in_channels reduction;
  Ok {| lin1 := {| in_features := in_channels; out_features := mid;
                   affine := weights1 |};
        lin2 := {| in_features := mid; out_features := in_channels;
                   affine := weights2 |} |}.

Definition forward (self : t) (x : tensor) : outcome tensor :=
  z ← mean_keepdim x 1 2;
  z ← lift (Linear_forward (lin1 self) z);
  let z := tensor_map relu z in
  z ← lift (Linear_forward (lin2 self) z);
  let z := tensor_map sigmoid z in
  lift (tensor_mul x z).

End defs.
End SEBlockNHWC.

(** [SNSEBlock] wraps the two convolutions of [SEBlock] in a spectral
    normalisation, which rescales their weights: the block is an [SEBlock]
    whose maps are the ones the normalised weights define. *)
Module SNSEBlock.
Section defs.
Context `{Pointwise}.

Definition t : Type := SEBlock.t.

Definition __init__ (in_channels reduction : nat)
    (weights1 weights2 : list scalar → list scalar) : result t :=
  mid ← py_floordiv in_channels reduction;
  Ok {| SEBlock.conv1 := {| in_features := in_channels; out_features := mid;
                            affine := weights1 |};
        SEBlock.conv2 := {| in_features := mid; out_features := in_channels;
                            affine := weights2 |} |}.

Definition forward (self : t) (x : tensor) : outcome tensor :=
  z ← adaptive_avg_pool2d x;
  z ← lift (Conv2d_1x1 (SEBlock.conv1 self) z);
  let z := tensor_map relu z in
  z ← lift (Conv2d_1x1 (SEBlock.conv2 self) z);
  let z := tensor_map sigmoid z in
  z ← lift (expand z (shape x));
  lift (tensor_mul x z).

End defs.
End SNSEBlock.

(** ** Residual blocks (nunif/modules/res_block.py) *)

Module res_block.

(** The [padding_mode] strings a convolution accepts: "zeros", "reflect",
    "replicate" and "circular". *)
Inductive PaddingMode : Set :=
| Zeros
| Reflect
| Replicate
| Circular.

(** The [padding_mode] argument of [ResBlock]: one of the four above,
    ["none"], or any other string. *)
Inductive padding_arg : Set :=
| mode (m : PaddingMode)
| none
| other.

Section modules.
Context `{Pointwise}.

(** [nn.Conv2d] with a square kernel, one stride and one padding for both
    axes.  [kernel] is the map the initialised weights (and bias) define:
    from the values under the kernel, channel by channel and row by row,
    to one value per output channel.  [stride] is at least 1. *)
Record Conv2d : Type := {
  in_channels : nat;
  out_channels : nat;
  kernel_size : nat;
  stride : nat;
  padding : nat;
  padding_mode : PaddingMode;
  kernel : list scalar → list scalar
}.

(** Which element of an axis of [n] elements position [p] of the padded
    axis shows; [None] is the zero fill. *)
Definition pad_source (m : PaddingMode) (n pad p : nat) : option nat :=
  if decide (pad ≤ p < pad + n)%nat then Some (p - pad)%nat
  else
    match m with
    | Zeros => None
    | Reflect =>
        Some (if decide (p < pad)%nat then (pad - p)%nat
              else (2 * (n - 1) - (p - pad))%nat)
    | Replicate => Some (if decide (p < pad)%nat then 0%nat else (n - 1)%nat)
    | Circular => Some ((p + n - pad) mod n)%nat
    end.

(** The paddings the library refuses for an axis of [n] elements. *)
Definition pad_refused (m : PaddingMode) (n pad : nat) : bool :=
  match m with
  | Zeros => false
  | Reflect => bool_decide (n ≤ pad)%nat
  | Replicate => bool_decide (n = 0)%nat
  | Circular => bool_decide (n < pad)%nat
  end.

(** The extent of an axis after a convolution. *)
Definition conv_out_size (n k s p : nat) : nat := ((n + 2 * p - k) / s + 1)%nat.

(** The values under the kernel at output position (i, j). *)
Definition conv_patch (c : Conv2d) (get : nat → nat → nat → scalar)
    (H' W i j : nat) : list scalar :=
  ch ← seq 0 (in_channels c);
  di ← seq 0 (kernel_size c);
  dj ← seq 0 (kernel_size c);
  [match pad_source (padding_mode c) H' (padding c) (i * stride c + di),
         pad_source (padding_mode c) W (padding c) (j * stride c + dj) with
   | Some a, Some b => get ch a b
   | _, _ => zero
   end].

(** [nn.Conv2d.forward] on a batched or an unbatched input. *)
Definition Conv2d_forward (c : Conv2d) (x : tensor) : result tensor :=
  let check (C H' W : nat) (y : tensor) : result tensor :=
    if decide (C ≠ in_channels c) then Raise RuntimeError
    else if pad_refused (padding_mode c) H' (padding c)
            || pad_refused (padding_mode c) W (padding c)
    then Raise RuntimeError
    else if decide (H' + 2 * padding c < kernel_size c
                    ∨ W + 2 * padding c < kernel_size c)%nat
    then Raise RuntimeError
    else Ok y in
  let size n := conv_out_size n (kernel_size c) (stride c) (padding c) in
  match shape x with
  | [B; C; H'; W] =>
      check C H' W
        {| shape := [B; out_channels c; size H'; size W];
           data := λ idx,
             match idx with
             | [b; o; i; j] =>
                 default zero
                   (kernel c (conv_patch c (λ ch a b', data x [b; ch; a; b'])
                                H' W i j) !! o)
             | _ => zero
             end |}
  | [C; H'; W] =>
      check C H' W
        {| shape := [out_channels c; size H'; size W];
           data := λ idx,
             match idx with
             | [o; i; j] =>
                 default zero
                   (kernel c (conv_patch c (λ ch a b', data x [ch; a; b'])
                                H' W i j) !! o)
             | _ => zero
             end |}
  | _ => Raise RuntimeError
  end.

(** [a + b] *)
Definition broadcast_add (a b : tensor) : result tensor :=
  match broadcast_shapes (shape a) (shape b) with
  | Some s =>
      Ok {| shape := s;
            data := λ idx, add (data a (broadcast_index (shape a) idx))
                               (data b (broadcast_index (shape b) idx)) |}
  | None => Raise RuntimeError
  end.

(** The modules a residual network is made of: convolutions, layers the
    caller supplies (normalisations, activations, attention), the identity,
    sequences, and the residual block itself. *)
#[warnings="-register-all"]
Inductive module : Type :=
| Conv (c : Conv2d)
| Layer (f : tensor → outcome tensor)
| Identity
| Sequential (layers : list module)
| Residual (conv identity attn act : module).

(** Calling a module.  [Residual] is [ResBlock.forward]. *)
Fixpoint forward (m : module) (x : tensor) : outcome tensor :=
  match m with
  | Conv c => lift (Conv2d_forward c x)
  | Layer f => f x
  | Identity => Returns x
  | Sequential layers =>
      (fix go (ms : list module) (x : tensor) : outcome tensor :=
         match ms with
         | [] => Returns x
         | m :: ms' => y ← forward m x; go ms' y
         end) layers x
  | Residual conv identity attn act =>
      a ← forward conv x;
      b ← forward identity x;
      s ← lift (broadcast_add a b);
      t ← forward act s;
      forward attn t
  end.

(** A layer factory, [lambda dim: ...].  Every call creates a module with
    parameters of its own: the first argument numbers the calls. *)
Definition factory : Type := nat → nat → result module.

(** [nn.BatchNorm2d(dim)], a module of the library. *)
Variable BatchNorm2d : nat → nat → tensor → outcome tensor.

Definition ReLU : module := Layer (λ x, Returns (tensor_map relu x)).
Definition LeakyReLU (negative_slope : Q) : module :=
  Layer (λ x, Returns (tensor_map (leaky_relu negative_slope) x)).

(** [ResBlock(in_channels, out_channels, stride, bias, padding_mode,
    activation_layer, norm_layer, attention_layer, valid_stride)].
    [weights k] is the map the parameters of the k-th convolution define,
    with or without bias. *)
Definition ResBlock (in_channels out_channels stride : nat)
    (padding_mode : padding_arg)
    (activation_layer norm_layer attention_layer : option factory)
    (valid_stride : bool) (weights : nat → list scalar → list scalar)
  : result module :=
  _ ← py_assert (bool_decide (stride = 1 ∨ stride = 2)%nat);
  let activation_layer := default (λ _ dim, Ok ReLU) activation_layer in
  let norm_layer :=
    default (λ k dim, Ok (Layer (BatchNorm2d k dim))) norm_layer in
  let attention_layer := default (λ _ dim, Ok Identity) attention_layer in
  let '(first_kernel_size, shortcut_kernel_size) :=
    if valid_stride && bool_decide (stride = 2%nat)
    then (4, 2)%nat else (3, 1)%nat in
  let '(padding, padding_mode) :=
    match padding_mode with
    | none => (0%nat, mode Zeros)
    | m => (1%nat, m)
    end in
  match padding_mode with
  | mode m =>
      norm0 ← norm_layer 0%nat out_channels;
      act0 ← activation_layer 0%nat out_channels;
      norm1 ← norm_layer 1%nat out_channels;
      let conv :=
        Sequential
          [Conv {| in_channels := in_channels; out_channels := out_channels;
                   kernel_size := first_kernel_size; stride := stride;
                   padding := padding; padding_mode := m;
                   kernel := weights 0%nat |};
           norm0;
           act0;
           Conv {| in_channels := out_channels; out_channels := out_channels;
                   kernel_size := 3; stride := 1;
                   padding := padding; padding_mode := m;
                   kernel := weights 1%nat |};
           norm1] in
      identity ←
        (if bool_decide (stride = 2 ∨ in_channels ≠ out_channels)%nat then
           norm2 ← norm_layer 2%nat out_channels;
           Ok (Sequential
                 [Conv {| in_channels := in_channels;
                          out_channels := out_channels;
                          kernel_size := shortcut_kernel_size;
                          stride := stride;
                          padding := 0; padding_mode := Zeros;
                          kernel := weights 2%nat |};
                  norm2])
         else Ok Identity);
      attn ← attention_layer 0%nat out_channels;
      act ← activation_layer 1%nat out_channels;
      Ok (Residual conv identity attn act)
  | _ => Raise ValueError
  end.

Definition ResBlockBNReLU (in_channels out_channels stride : nat)
    (padding_mode : padding_arg) (valid_stride : bool)
    (weights : nat → list scalar → list scalar) : result module :=
  ResBlock in_channels out_channels stride padding_mode None None None
    valid_stride weights.

Definition ResBlockLReLU (in_channels out_channels stride : nat)
    (padding_mode : padding_arg) (valid_stride : bool)
    (weights : nat → list scalar → list scalar) : result module :=
  ResBlock in_channels out_channels stride padding_mode
    (Some (λ _ dim, Ok (LeakyReLU 0.2%Q)))
    (Some (λ _ dim, Ok Identity))
    None valid_stride weights.

(** [se_weights] are the two maps of the squeeze-and-excitation block. *)
Definition ResBlockSELReLU (in_channels out_channels stride : nat)
    (padding_mode : padding_arg) (se valid_stride : bool)
    (weights se_weights : nat → list scalar → list scalar)
  : result module :=
  let attention_layer : factory :=
    if se then
      λ _ dim,
        block ← SEBlock.__init__ dim 8 (se_weights 0%nat) (se_weights 1%nat);
        Ok (Layer (SEBlock.forward block))
    else λ _ dim, Ok Identity in
  ResBlock in_channels out_channels stride padding_mode
    (Some (λ _ dim, Ok (LeakyReLU 0.2%Q)))
    (Some (λ _ dim, Ok Identity))
    (Some attention_layer) valid_stride weights.

Definition ResBlockBNLReLU (in_channels out_channels stride : nat)
    (padding_mode : padding_arg) (valid_stride : bool)
    (weights : nat → list scalar → list scalar) : result module :=
  ResBlock in_channels out_channels stride padding_mode
    (Some (λ _ dim, Ok (LeakyReLU 0.2%Q)))
    (Some (λ k dim, Ok (Layer (BatchNorm2d k dim))))
    None valid_stride weights.

(** [ResGroup(in_channels, out_channels, num_layers, stride, layer,
    **layer_kwargs)].  [layer i] and [block i] stand for the i-th call of
    the given layer class, respectively of [ResBlock], with the keyword
    arguments of the group. *)
Definition ResGroup (in_channels out_channels num_layers stride : nat)
    (layer : option (nat → nat → nat → nat → result module))
    (block : nat → nat → nat → nat → result module) : result module :=
  _ ← py_assert (bool_decide (stride = 1 ∨ stride = 2)%nat);
  let layer := default block layer in
  layers ←
    mapM (λ i, if decide (i = 0%nat)
               then layer i in_channels out_channels stride
               else layer i out_channels out_channels 1%nat)
      (seq 0 num_layers);
  Ok (Sequential layers).

(** A layer that returns a feature map of the shape it was given, for every
    feature map with [dim] channels and more than one value per channel
    (which a batch normalisation insists on while training). *)
Definition keeps_feature_maps (m : module) (dim : nat) : Prop :=
  ∀ t B H' W,
    shape t = [B; dim; H'; W] → (1 < B * H' * W)%nat →
    ∃ y, forward m t = Returns y ∧ shape y = shape t.
Definition factory_ok (f : factory) (dim : nat) : Prop :=
  ∀ k m, f k dim = Ok m → keeps_feature_maps m dim.

(** The extent of an axis after a padded residual block: kept by stride 1,
    halved by stride 2, rounding down with [valid_stride] and up without. *)
Definition block_out_size (stride : nat) (valid_stride : bool) (n : nat)
  : nat :=
  if decide (stride = 2%nat) then
    if valid_stride then (n / 2)%nat else ((n + 1) / 2)%nat
  else n.

End modules.
End res_block.

(** ** The transform cache (stlizer/cache.py)

    The file system is modelled as far as the code observes it: which
    paths exist and what the cache files hold.  A cache file holds the
    dictionary [torch.save] was given, and [torch.load] returns it.
    Operations the operating system may refuse for reasons of its own
    (permissions, a full disk) are taken to succeed; a directory in the
    place of a cache file makes [torch.save] raise [RuntimeError] and
    [torch.load] and [os.unlink] raise [OSError]. *)

Module cache.

Inductive error : Set :=
| KeyError
| TypeError
| ValueError
| ZeroDivisionError
| OSError
| RuntimeError.

Inductive attempt (A : Type) : Type :=
| Fine (a : A)
| Raised (e : error).
Arguments Fine {A} a.
Arguments Raised {A} e.

#[global] Instance attempt_ret : MRet attempt := λ A a, Fine a.
#[global] Instance attempt_bind : MBind attempt := λ A B f m,
  match m with
  | Fine a => f a
  | Raised e => Raised e
  end.

Definition CACHE_VERSION : Q := 1%Q.
Definition MD5_SALT : string := "stlizer".

(** [str(n)] for an integer. *)
Definition str (n : Z) : string := NilZero.string_of_int (Z.to_int n).

(** [s.split(sep)] for a separator of one character. *)
Fixpoint split (sep : ascii) (s : string) : list string :=
  match s with
  | EmptyString => [EmptyString]
  | String c s' =>
      if Ascii.eqb c sep then EmptyString :: split sep s'
      else
        match split sep s' with
        | w :: ws => String c w :: ws
        | [] => [String c EmptyString]
        end
  end.

(** [sep not in s] *)
Fixpoint free_of (sep : ascii) (s : string) : Prop :=
  match s with
  | EmptyString => True
  | String c s' => Ascii.eqb c sep = false ∧ free_of sep s'
  end.

(** [Fraction(n, d)]: the fraction in lowest terms, with a positive
    denominator. *)
Definition Fraction (n d : Z) : attempt Qc :=
  if decide (d = 0) then Raised ZeroDivisionError
  else Fine (Q2Qc (Qmake (Z.sgn d * n) (Z.to_pos (Z.abs d)))).

(** What the module takes from Python and its libraries. *)
Class Env : Type := {
  (** The values of the options [max_fps] and [resolution] and of a frame
      rate given as a plain number: numbers or [None], with Python's [!=]
      and truth value, and the value of a number written in the code. *)
  arg : Type;
  ne : arg → arg → bool;
  truthy : arg → bool;
  literal : Q → arg;
  (** What is cached, [transforms] and [mean_match_scores], with its truth
      value and the truth value of [a != p] for an option [a], where they
      have one. *)
  payload : Type;
  payload_truthy : payload → attempt bool;
  ne_payload : arg → payload → attempt bool;
  (** [hashlib.md5(s.encode()).hexdigest()] *)
  hexdigest : string → string;
  (** [user_cache_dir(appname="stlizer", appauthor="nunif")],
      [path.abspath] and [path.join] *)
  cache_dir : string;
  abspath : string → string;
  join : string → string → string;
  (** [int(s)] for a string: [None] stands for [ValueError]. *)
  int : string → option Z;
  (** [float(x)] for a frame rate that is no [Fraction]. *)
  number : Type;
  float : number → arg
}.

Section defs.
Context `{Env}.

(** What a dictionary of a cache file may hold, and what the dictionary
    [try_load_cache] returns may hold: the same or a [Fraction]. *)
Inductive value : Type :=
| VStr (s : string)
| VArg (a : arg)
| VData (p : payload).

Inductive loaded : Type :=
| Stored (v : value)
| VFraction (q : Qc).

Abbreviation dict := (gmap string value).

Record fs : Type := {
  dirs : gset string;
  files : gmap string dict
}.

Record args : Type := {
  max_fps : arg;
  vf : option string;
  resolution : arg
}.

(** The frame rate given to [save_cache]: a [Fraction] or a number. *)
Inductive fps_arg : Type :=
| fraction (q : Qc)
| plain (x : number).

(** [path.exists(p)] *)
Definition exists_ (p : string) (st : fs) : bool :=
  bool_decide (p ∈ dirs st ∨ is_Some (files st !! p)).

(** [os.makedirs(p, exist_ok=True)] *)
Definition makedirs (p : string) (st : fs) : fs :=
  {| dirs := {[p]} ∪ dirs st; files := files st |}.

(** [torch.save(obj, p)], [torch.load(p)] and [os.unlink(p)] *)
Definition torch_save (obj : dict) (p : string) (st : fs)
  : attempt unit * fs :=
  if decide (p ∈ dirs st) then (Raised RuntimeError, st)
  else (Fine (), {| dirs := dirs st; files := <[p := obj]> (files st) |}).
Definition torch_load (p : string) (st : fs) : attempt dict :=
  match files st !! p with
  | Some obj => Fine obj
  | None => Raised OSError
  end.
Definition unlink (p : string) (st : fs) : attempt unit * fs :=
  match files st !! p with
  | Some _ => (Fine (), {| dirs := dirs st; files := delete p (files st) |})
  | None => (Raised OSError, st)
  end.

(** [md5(s)] for a string or [None]. *)
Definition md5 (s : option string) : string :=
  match s with
  | Some s => if decide (s = "") then "" else hexdigest (s +:+ MD5_SALT)
  | None => ""
  end.

(** [md5(v)] for what [data.get(key, None)] gives: a value that is true
    and no string cannot be joined with the salt. *)
Definition md5_value (v : option value) : attempt string :=
  match v with
  | None => Fine (md5 None)
  | Some (VStr s) => Fine (md5 (Some s))
  | Some (VArg a) => if truthy a then Raised TypeError else Fine ""
  | Some (VData p) =>
      b ← payload_truthy p; if b : bool then Raised TypeError else Fine ""
  end.

Definition get_cache_path (input_video_path : string) (st : fs)
  : string * fs :=
  let st := if exists_ cache_dir st then st else makedirs cache_dir st in
  let cache_filename := md5 (Some (abspath input_video_path)) +:+ ".stlizer" in
  (join cache_dir cache_filename, st).

Definition save_cache (input_video_path : string)
    (transforms mean_match_scores : payload) (fps : fps_arg) (a : args)
    (st : fs) : attempt unit * fs :=
  let '(cache_path, st) := get_cache_path input_video_path st in
  let fps :=
    match fps with
    | fraction q => VStr (str (Qnum q) +:+ "/" +:+ str (Zpos (Qden q)))
    | plain x => VArg (float x)
    end in
  torch_save
    (<["transforms" := VData transforms]>
       (<["mean_match_scores" := VData mean_match_scores]>
          (<["max_fps" := VArg (max_fps a)]>
             (<["fps" := fps]>
                (<["vf" := VStr (md5 (vf a))]>
                   (<["resolution" := VArg (resolution a)]>
                      (<["version" := VArg (literal CACHE_VERSION)]> ∅)))))))
    cache_path st.

(** [data[key]] *)
Definition getitem (data : dict) (key : string) : attempt value :=
  match data !! key with
  | Some v => Fine v
  | None => Raised KeyError
  end.

(** [a != v] as a condition, for an option and what a dictionary holds:
    an option is a number or [None], and differs from every string. *)
Definition ne_value (a : arg) (v : value) : attempt bool :=
  match v with
  | VStr _ => Fine true
  | VArg b => Fine (ne a b)
  | VData p => ne_payload a p
  end.

Definition try_load_cache (input_video_path : string) (a : args) (st : fs)
  : attempt (option (gmap string loaded)) * fs :=
  let '(cache_path, st) := get_cache_path input_video_path st in
  if exists_ cache_path st then
    (data ← torch_load cache_path st;
     if decide (data !! "version" = None) then Fine None else
     stored ← getitem data "max_fps";
     differs ← ne_value (max_fps a) stored;
     if differs : bool then Fine None else
     stored ← getitem data "resolution";
     differs ← ne_value (resolution a) stored;
     if differs : bool then Fine None else
     vf' ← md5_value (data !! "vf");
     if decide (md5 (vf a) ≠ vf') then Fine None else
     fps ← getitem data "fps";
     match fps with
     | VStr s =>
         match split "/"%char s with
         | [numerator; denominator] =>
             match int numerator, int denominator with
             | Some numerator, Some denominator =>
                 q ← Fraction numerator denominator;
                 Fine (Some (<["fps" := VFraction q]> (Stored <$> data)))
             | _, _ => Raised ValueError
             end
         | _ => Raised ValueError
         end
     | _ => Fine (Some (Stored <$> data))
     end,
     st)
  else (Fine None, st).

Definition purge_cache (input_video_path : string) (st : fs)
  : attempt unit * fs :=
  let '(cache_path, st) := get_cache_path input_video_path st in
  if exists_ cache_path st then unlink cache_path st
  else (Fine (), st).

(** What [try_load_cache] hands back for the frame rate [save_cache] was
    given, and that [int] reads the numbers [save_cache] wrote for it. *)
Definition restored (fps : fps_arg) : loaded :=
  match fps with
  | fraction q => VFraction q
  | plain x => Stored (VArg (float x))
  end.
Definition reads_back (fps : fps_arg) : Prop :=
  match fps with
  | fraction q =>
      int (str (Qnum q)) = Some (Qnum q)
      ∧ int (str (Zpos (Qden q))) = Some (Zpos (Qden q))
  | plain _ => True
  end.

(** The entries of a dictionary written for [transforms],
    [mean_match_scores] and the options [a], apart from the frame rate. *)
Definition holds {A} (data : gmap string A) (f : value → A)
    (transforms mean_match_scores : payload) (a : args) : Prop :=
  data !! "transforms" = Some (f (VData transforms))
  ∧ data !! "mean_match_scores" = Some (f (VData mean_match_scores))
  ∧ data !! "max_fps" = Some (f (VArg (max_fps a)))
  ∧ data !! "vf" = Some (f (VStr (md5 (vf a))))
  ∧ data !! "resolution" = Some (f (VArg (resolution a)))
  ∧ data !! "version" = Some (f (VArg (literal CACHE_VERSION))).

End defs.
End cache.

(** ** A small tensor library to run the definitions on *)

(** Integer elements. *)
Definition Z_scalar : Scalar := {| scalar := Z; zero := 0; add := Z.add |}.

(** Unnormalised uniform attention: every query receives the sum of all
    value rows of its slice. *)
Definition sum_rows (rows : list (list Z)) : list Z :=
  match rows with
  | [] => []
  | r :: rows' => foldr (zip_with Z.add) r rows'
  end.
Definition uniform_attention (Qm Km Vm : @matrix Z_scalar) : @matrix Z_scalar :=
  fmap (M:=list) (λ _, sum_rows Vm) Qm.
Definition uniform_torch : @Torch Z_scalar :=
  Build_Torch Z_scalar true true (λ _ _ _ _ _ _, uniform_attention).


(** A tensor filled with one value, and one that numbers its elements. *)
Definition filled (s : list nat) (c : Z) : @tensor Z_scalar :=
  @Tensor Z_scalar s (λ _, c).
Definition numbered (s : list nat) : @tensor Z_scalar :=
  @Tensor Z_scalar s (λ idx, Z.of_nat (ravel s idx)).

(** A projection to [n] features that repeats its input as often as
    needed. *)
Definition tile_features (n : nat) (features : list Z) : list Z :=
  take n (concat (replicate n features)).
Definition cross_mha_32_4 : @CrossMHA.t Z_scalar := {|
  CrossMHA.qkv_dim := 8;
  CrossMHA.num_heads := 4;
  CrossMHA.q_proj := @Build_Linear Z_scalar 32 32 (tile_features 32);
  CrossMHA.kv_proj := @Build_Linear Z_scalar 32 64 (tile_features 64);
  CrossMHA.head_proj := @Build_Linear Z_scalar 32 32 (tile_features 32)
|}.

(** The same tensor with everything outside one position blanked. *)
Definition blank_except (x : @tensor Z_scalar) (b i j : nat)
  : @tensor Z_scalar :=
  @Tensor Z_scalar (shape x)
    (λ idx,
       match idx with
       | [b'; c; i'; j'] =>
           if decide (b' = b ∧ i' = i ∧ j' = j) then data x idx else 0
       | _ => 0
       end).

(** What [OverlapWindowMHA2d(2, 1, window_size=1)] and
    [OverlapWindowMHA2d(4, 2, window_size=3)] construct. *)
Definition overlap_1x1 : @OverlapWindowMHA2d.t Z_scalar := {|
  OverlapWindowMHA2d.window_size := (1, 1)%nat;
  OverlapWindowMHA2d.pad_h := 0;
  OverlapWindowMHA2d.pad_w := 0;
  OverlapWindowMHA2d.num_heads := 1;
  OverlapWindowMHA2d.qkv_dim := 2;
  OverlapWindowMHA2d.qkv_proj := @Build_Linear Z_scalar 2 6 (tile_features 6);
  OverlapWindowMHA2d.head_proj := @Build_Linear Z_scalar 2 2 (tile_features 2)
|}.
Definition overlap_3x3 : @OverlapWindowMHA2d.t Z_scalar := {|
  OverlapWindowMHA2d.window_size := (3, 3)%nat;
  OverlapWindowMHA2d.pad_h := 1;
  OverlapWindowMHA2d.pad_w := 1;
  OverlapWindowMHA2d.num_heads := 2;
  OverlapWindowMHA2d.qkv_dim := 2;
  OverlapWindowMHA2d.qkv_proj := @Build_Linear Z_scalar 4 12 (tile_features 12);
  OverlapWindowMHA2d.head_proj := @Build_Linear Z_scalar 4 4 (tile_features 4)
|}.

(** What [MHA(4, 2)], [CrossMHA(4, 2)], [WindowMHA2d(4, 2, window_size=2)]
    and [WindowCrossMHA2d(4, 2, window_size=2)] construct. *)
Definition mha_4_2 : @MHA.t Z_scalar := {|
  MHA.qkv_dim := 2;
  MHA.num_heads := 2;
  MHA.qkv_proj := @Build_Linear Z_scalar 4 12 (tile_features 12);
  MHA.head_proj := @Build_Linear Z_scalar 4 4 (tile_features 4)
|}.
Definition cross_mha_4_2 : @CrossMHA.t Z_scalar := {|
  CrossMHA.qkv_dim := 2;
  CrossMHA.num_heads := 2;
  CrossMHA.q_proj := @Build_Linear Z_scalar 4 4 (tile_features 4);
  CrossMHA.kv_proj := @Build_Linear Z_scalar 4 8 (tile_features 8);
  CrossMHA.head_proj := @Build_Linear Z_scalar 4 4 (tile_features 4)
|}.
Definition window_mha_4_2 : @WindowMHA2d.t Z_scalar := {|
  WindowMHA2d.window_size := (2, 2)%nat;
  WindowMHA2d.num_heads := 2;
  WindowMHA2d.mha := mha_4_2
|}.
Definition window_cross_mha_4_2 : @WindowCrossMHA2d.t Z_scalar := {|
  WindowCrossMHA2d.window_size := (2, 2)%nat;
  WindowCrossMHA2d.num_heads := 2;
  WindowCrossMHA2d.mha := cross_mha_4_2
|}.

(** What [OverlapWindowMHA2d(4, 2, window_size=2)] constructs. *)
Definition overlap_2x2 : @OverlapWindowMHA2d.t Z_scalar := {|
  OverlapWindowMHA2d.window_size := (2, 2)%nat;
  OverlapWindowMHA2d.pad_h := 1;
  OverlapWindowMHA2d.pad_w := 1;
  OverlapWindowMHA2d.num_heads := 2;
  OverlapWindowMHA2d.qkv_dim := 2;
  OverlapWindowMHA2d.qkv_proj := @Build_Linear Z_scalar 4 12 (tile_features 12);
  OverlapWindowMHA2d.head_proj := @Build_Linear Z_scalar 4 4 (tile_features 4)
|}.

(** The same tensor with everything outside one batch element, or outside
    one window of one batch element, blanked. *)
Definition keep_batch (x : @tensor Z_scalar) (b : nat) : @tensor Z_scalar :=
  @Tensor Z_scalar (shape x)
    (λ idx,
       match idx with
       | b' :: _ => if decide (b' = b) then data x idx else 0
       | [] => 0
       end).
Definition keep_window (x : @tensor Z_scalar) (b I J wh ww : nat)
  : @tensor Z_scalar :=
  @Tensor Z_scalar (shape x)
    (λ idx,
       match idx with
       | [b'; c; i; j] =>
           if decide (b' = b ∧ (i / wh)%nat = I ∧ (j / ww)%nat = J)
           then data x idx else 0
       | _ => 0
       end).

(** Integer stand-ins for the arithmetic of the squeeze-and-excitation
    blocks: the product, the positive part for both activations, the
    identity as gate function and the rounded mean. *)
Definition Z_pointwise : @Pointwise Z_scalar :=
  Build_Pointwise Z_scalar Z.mul (Z.max 0) (λ _, Z.max 0) (λ z, z)
    (λ l, foldr Z.add 0 l `div` Z.of_nat (length l)).

(** What [SEBlock(4, reduction=2)] and [SEBlockNHWC(4, reduction=2)]
    construct. *)
Definition se_4_2 : @SEBlock.t Z_scalar := {|
  SEBlock.conv1 := @Build_Linear Z_scalar 4 2 (tile_features 2);
  SEBlock.conv2 := @Build_Linear Z_scalar 2 4 (tile_features 4)
|}.
Definition se_nhwc_4_2 : @SEBlockNHWC.t Z_scalar := {|
  SEBlockNHWC.lin1 := @Build_Linear Z_scalar 4 2 (tile_features 2);
  SEBlockNHWC.lin2 := @Build_Linear Z_scalar 2 4 (tile_features 4)
|}.

(** A library whose batch normalisation returns its input, a kernel that
    sums the values under it, and what
    [ResBlock(2, 4, stride=2, norm_layer=lambda dim: nn.Identity())] and
    [ResBlock(2, 2, padding_mode="none", norm_layer=lambda dim: nn.Identity())]
    construct with them. *)
Definition plain_norm : nat → nat → @tensor Z_scalar → outcome (@tensor Z_scalar) :=
  λ _ _ x, Returns x.
Definition sum_kernel (n : nat) (patch : list Z) : list Z :=
  replicate n (foldr Z.add 0 patch).
Definition res_block_2_4 : @res_block.module Z_scalar :=
  res_block.Residual
    (res_block.Sequential
       [res_block.Conv
          (@res_block.Build_Conv2d Z_scalar 2 4 3 2 1 res_block.Zeros
             (sum_kernel 4));
        res_block.Identity;
        @res_block.ReLU Z_scalar Z_pointwise;
        res_block.Conv
          (@res_block.Build_Conv2d Z_scalar 4 4 3 1 1 res_block.Zeros
             (sum_kernel 4));
        res_block.Identity])
    (res_block.Sequential
       [res_block.Conv
          (@res_block.Build_Conv2d Z_scalar 2 4 1 2 0 res_block.Zeros
             (sum_kernel 4));
        res_block.Identity])
    res_block.Identity
    (@res_block.ReLU Z_scalar Z_pointwise).
Definition res_block_unpadded : @res_block.module Z_scalar :=
  res_block.Residual
    (res_block.Sequential
       [res_block.Conv
          (@res_block.Build_Conv2d Z_scalar 2 2 3 1 0 res_block.Zeros
             (sum_kernel 2));
        res_block.Identity;
        @res_block.ReLU Z_scalar Z_pointwise;
        res_block.Conv
          (@res_block.Build_Conv2d Z_scalar 2 2 3 1 0 res_block.Zeros
             (sum_kernel 2));
        res_block.Identity])
    res_block.Identity
    res_block.Identity
    (@res_block.ReLU Z_scalar Z_pointwise).

(** A stand-in for Python and the libraries to run the cache on: options
    are rational numbers or [None], what is cached is a list of integers, the
    digest marks its input, an absolute path is its own [abspath], paths
    are joined with a slash, and [int] reads decimal numbers. *)
Definition toy_env : cache.Env := {|
  cache.arg := option Qc;
  cache.ne := λ a b, bool_decide (a ≠ b);
  cache.truthy := λ a, bool_decide (a ≠ None ∧ a ≠ Some (Q2Qc 0));
  cache.literal := λ q, Some (Q2Qc q);
  cache.payload := list Z;
  cache.payload_truthy := λ l, cache.Fine (bool_decide (l ≠ []));
  cache.ne_payload := λ _ _, cache.Fine true;
  cache.hexdigest := λ s, "d" +:+ s;
  cache.cache_dir := "/cache";
  cache.abspath := λ p, p;
  cache.join := λ d f, d +:+ "/" +:+ f;
  cache.int := λ s, Z.of_int <$> NilZero.int_of_string s;
  cache.number := Z;
  cache.float := λ z, Some (Q2Qc (inject_Z z))
|}.

(** A file system without files, options without and with a video
    filter, and the frame rate 30000/1001. *)
Definition no_files : @cache.fs toy_env :=
  @cache.Build_fs toy_env ∅ ∅.
Definition plain_options : @cache.args toy_env :=
  @cache.Build_args toy_env (Some (Q2Qc 30)) None None.
Definition filter_options : @cache.args toy_env :=
  @cache.Build_args toy_env (Some (Q2Qc 30)) (Some "yadif") None.
Definition other_options : @cache.args toy_env :=
  @cache.Build_args toy_env (Some (Q2Qc 60)) None None.
Definition ntsc : @cache.fps_arg toy_env :=
  @cache.fraction toy_env (Q2Qc (30000 # 1001)).

(** * Properties *)

(** Names the value a successful step hands to the rest of the function. *)
Ltac bind_result x :=
  match goal with
  | |- context [Ok ?t ≫= _] => set (x := t)
  end;
  cbn [mbind result_bind].

(** ** The tables of WindowScoreBias *)

Section score_bias_facts.
Import ScoreBias.

Lemma length_meshgrid_stack ys xs :
  length (meshgrid_stack ys xs) = (length ys * length xs)%nat.
Proof.
  unfold meshgrid_stack. induction ys as [|y ys IH]; [done|].
  csimpl. rewrite length_app, length_fmap. f_equal. exact IH.
Qed.

Lemma elem_of_meshgrid_stack ys xs (p : pos) :
  p ∈ meshgrid_stack ys xs ↔ p.1 ∈ ys ∧ p.2 ∈ xs.
Proof.
  unfold meshgrid_stack. rewrite list_elem_of_bind. split.
  - intros (y & Hp & Hy). apply list_elem_of_fmap in Hp as (x & -> & Hx). done.
  - intros [Hy Hx]. exists p.1. split; [|done].
    apply list_elem_of_fmap. exists p.2. by destruct p.
Qed.

Lemma NoDup_meshgrid_stack ys xs :
  NoDup ys → NoDup xs → NoDup (meshgrid_stack ys xs).
Proof.
  intros Hys Hxs. unfold meshgrid_stack. apply NoDup_bind; [| |done].
  - intros y1 y2 p _ _ Hp1 Hp2.
    apply list_elem_of_fmap in Hp1 as (? & -> & _).
    apply list_elem_of_fmap in Hp2 as (? & [= -> _] & _). done.
  - intros y _. apply NoDup_fmap_2; [|done]. by intros ?? [= ->].
Qed.

Lemma arange_Ok n : 0 ≤ n → arange 0 n = Ok (seqZ 0 n).
Proof.
  intros. unfold arange. rewrite decide_False by lia. by rewrite Z.sub_0_r.
Qed.

Lemma arange_Raise n : n < 0 → arange 0 n = Raise RuntimeError.
Proof. intros. unfold arange. by rewrite decide_True. Qed.

Lemma length_positions_of h w :
  0 ≤ h → 0 ≤ w → Z.of_nat (length (positions_of h w)) = h * w.
Proof.
  intros. unfold positions_of.
  rewrite length_meshgrid_stack, !length_seqZ. lia.
Qed.

Lemma positions_of_nil h w : h ≤ 0 ∨ w ≤ 0 → positions_of h w = [].
Proof.
  intros Hhw. apply elem_of_nil_inv. intros p.
  unfold positions_of. rewrite elem_of_meshgrid_stack, !elem_of_seqZ. lia.
Qed.

Lemma elem_of_positions_of h w (p : pos) :
  p ∈ positions_of h w ↔ (0 ≤ p.1 < h) ∧ (0 ≤ p.2 < w).
Proof.
  unfold positions_of.
  rewrite elem_of_meshgrid_stack, !elem_of_seqZ. lia.
Qed.

Lemma length_sub_blocks (ps qs : list pos) :
  length (concat ((λ p, sub_broadcast p qs) <$> ps))
  = (length ps * length qs)%nat.
Proof.
  induction ps as [|p ps IH]; [done|]. csimpl.
  rewrite length_app, IH. unfold sub_broadcast. rewrite length_fmap. done.
Qed.

Lemma elem_of_sub_blocks (ps qs : list pos) (d : pos) :
  d ∈ concat ((λ p, sub_broadcast p qs) <$> ps)
  ↔ ∃ p q, p ∈ ps ∧ q ∈ qs ∧ d = (p.1 - q.1, p.2 - q.2).
Proof.
  rewrite list_elem_of_In, in_concat. split.
  - intros (blk & Hblk%list_elem_of_In & Hd%list_elem_of_In).
    apply list_elem_of_fmap in Hblk as (p & -> & Hp).
    apply list_elem_of_fmap in Hd as (q & -> & Hq). eauto.
  - intros (p & q & Hp & Hq & ->). exists (sub_broadcast p qs).
    rewrite <-!list_elem_of_In. split.
    + apply list_elem_of_fmap. eauto.
    + apply list_elem_of_fmap. eauto.
Qed.

(** The deltas of a full grid are the whole rectangle of offsets. *)
Lemma elem_of_delta_of h w (d : pos) :
  d ∈ delta_of h w ↔ (1 - h ≤ d.1 ≤ h - 1) ∧ (1 - w ≤ d.2 ≤ w - 1).
Proof.
  unfold delta_of. rewrite elem_of_sub_blocks. split.
  - intros (p & q & Hp & Hq & ->).
    apply elem_of_positions_of in Hp, Hq. simpl. lia.
  - intros [Hy Hx].
    exists (Z.max d.1 0, Z.max d.2 0), (Z.max (- d.1) 0, Z.max (- d.2) 0).
    rewrite !elem_of_positions_of. simpl. split_and!; try lia.
    destruct d as [dy dx]. simpl in *. f_equal; lia.
Qed.

Lemma length_delta_of h w :
  0 ≤ h → 0 ≤ w → Z.of_nat (length (delta_of h w)) = (h * w) ^ 2.
Proof.
  intros. unfold delta_of. rewrite length_sub_blocks, Nat2Z.inj_mul.
  rewrite length_positions_of by done. lia.
Qed.

#[local] Instance tuple_le_trans : Transitive tuple_le.
Proof. intros [??] [??] [??]. unfold tuple_le. simpl. lia. Qed.

#[local] Instance tuple_le_total : Total tuple_le.
Proof. intros [??] [??]. unfold tuple_le. simpl. lia. Qed.

#[local] Instance tuple_le_antisymm : AntiSymm (=) tuple_le.
Proof.
  intros [a1 a2] [b1 b2]. unfold tuple_le. simpl. intros H1 H2.
  f_equal; lia.
Qed.

Lemma sorted_Sorted l : Sorted tuple_le (sorted l).
Proof. apply (Sorted_merge_sort tuple_le). Qed.

Lemma sorted_Permutation l : sorted l ≡ₚ l.
Proof. apply merge_sort_Permutation. Qed.

(** Sorting cancels the order in which the set was listed. *)
Lemma sorted_order_irrelevant l1 l2 : l1 ≡ₚ l2 → sorted l1 = sorted l2.
Proof.
  intros Hp. apply (Sorted_unique tuple_le); [apply sorted_Sorted..|].
  by rewrite !sorted_Permutation.
Qed.

Lemma list_index_elem_of (u : list pos) d :
  d ∈ u → ∃ i, list_index u d = Ok i ∧ (i < length u)%nat ∧ u !! i = Some d.
Proof.
  intros Hd. unfold list_index.
  destruct (list_find (λ e, e = d) u) as [[i x]|] eqn:E.
  - apply list_find_Some in E as (Hi & -> & _).
    exists i. split_and!; [done| |done]. by eapply lookup_lt_Some.
  - apply list_find_None in E. rewrite Forall_forall in E.
    by destruct (E d Hd).
Qed.

Lemma mapM_result_Forall {A B} (f : A → result B) (P : B → Prop) l :
  (∀ x, x ∈ l → ∃ y, f x = Ok y ∧ P y) →
  ∃ k, mapM f l = Ok k ∧ length k = length l ∧ Forall P k.
Proof.
  induction l as [|x l IH]; intros Hf.
  - exists []. by split_and!.
  - destruct (Hf x) as (y & Hy & HP); [by left|].
    destruct IH as (k & Hk & Hlen & HPk).
    { intros z Hz. apply Hf. by right. }
    exists (y :: k). simpl. rewrite Hy. simpl. rewrite Hk. simpl.
    split_and!; [done|by f_equal|by constructor].
Qed.

Lemma abs_max_eq (t : list pos) M :
  (∀ p, p ∈ t → Z.abs p.1 ≤ M ∧ Z.abs p.2 ≤ M) →
  (∃ p, p ∈ t ∧ Z.max (Z.abs p.1) (Z.abs p.2) = M) →
  abs_max t = Ok M.
Proof.
  intros Hub (p0 & Hp0 & Hmax).
  assert (0 ≤ M) by lia.
  unfold abs_max. destruct t as [|p t']; [by apply elem_of_nil in Hp0|].
  f_equal. revert Hub Hp0. generalize (p :: t'). clear p t'.
  intros t Hub Hp0. apply Z.le_antisymm.
  - clear Hp0. induction t as [|p t IH]; simpl; [done|].
    destruct (Hub p) as [??]; [by left|].
    assert (∀ q, q ∈ t → Z.abs q.1 ≤ M ∧ Z.abs q.2 ≤ M) as Ht
      by (intros q Hq; apply Hub; by right).
    specialize (IH Ht). lia.
  - clear Hub. induction Hp0 as [p t|p q t _ IH]; simpl; lia.
Qed.

Lemma fdiv_in_unit_interval a m :
  0 < m → Z.abs a ≤ m → in_unit_interval (fdiv a m).
Proof.
  intros Hm Ha. unfold fdiv. rewrite decide_False by lia. simpl.
  assert (0 < inject_Z m)%Q as Hm' by (unfold Qlt; simpl; lia).
  split.
  - apply Qle_shift_div_l; [done|]. unfold Qle. simpl. lia.
  - apply Qle_shift_div_r; [done|]. unfold Qle. simpl. lia.
Qed.

Section with_enumeration.
Variable enum : gset pos → list pos.
Hypothesis enum_ok : enumerates enum.

Lemma unique_delta_of_Permutation h w :
  unique_delta_of enum h w ≡ₚ elements (list_to_set (delta_of h w) : gset pos).
Proof. etrans; [apply sorted_Permutation | apply enum_ok]. Qed.

Lemma NoDup_unique_delta_of h w : NoDup (unique_delta_of enum h w).
Proof. rewrite unique_delta_of_Permutation. apply NoDup_elements. Qed.

Lemma elem_of_unique_delta_of h w d :
  d ∈ unique_delta_of enum h w ↔ d ∈ delta_of h w.
Proof.
  rewrite unique_delta_of_Permutation, elem_of_elements.
  apply elem_of_list_to_set.
Qed.

(** Every offset of the rectangle occurs once: the table has
    (2h-1)(2w-1) rows. *)
Lemma length_unique_delta_of h w :
  0 < h → 0 < w →
  Z.of_nat (length (unique_delta_of enum h w)) = (2 * h - 1) * (2 * w - 1).
Proof.
  intros Hh Hw.
  assert (unique_delta_of enum h w
          ≡ₚ meshgrid_stack (seqZ (1 - h) (2 * h - 1))
               (seqZ (1 - w) (2 * w - 1))) as ->.
  { apply NoDup_Permutation.
    - apply NoDup_unique_delta_of.
    - apply NoDup_meshgrid_stack; apply NoDup_seqZ.
    - intros d. rewrite elem_of_unique_delta_of, elem_of_delta_of.
      rewrite elem_of_meshgrid_stack, !elem_of_seqZ. lia. }
  rewrite length_meshgrid_stack, !length_seqZ. lia.
Qed.

Lemma gen_input_Raise h w :
  h ≤ 0 ∨ w ≤ 0 → _gen_input enum (h, w) = Raise RuntimeError.
Proof.
  intros Hhw. unfold _gen_input. cbn [fst snd].
  destruct (decide (h < 0)); [by rewrite (arange_Raise h)|].
  rewrite (arange_Ok h) by lia. cbn [mbind result_bind].
  destruct (decide (w < 0)); [by rewrite (arange_Raise w)|].
  rewrite (arange_Ok w) by lia. cbn [mbind result_bind].
  fold (positions_of h w). rewrite positions_of_nil by done.
  unfold reshape_N_2. repeat case_decide; done.
Qed.

Lemma gen_input_Ok h w :
  0 < h → 0 < w →
  ∃ index,
    _gen_input enum (h, w)
    = Ok (index, normalise (Z.max (h - 1) (w - 1)) <$> unique_delta_of enum h w)
    ∧ Z.of_nat (length index) = (h * w) ^ 2
    ∧ Forall (λ i, (i < length (unique_delta_of enum h w))%nat) index.
Proof.
  intros Hh Hw.
  destruct (mapM_result_Forall (list_index (unique_delta_of enum h w))
              (λ i, (i < length (unique_delta_of enum h w))%nat)
              (delta_of h w)) as (index & Hindex & Hlen & Hlt).
  { intros d Hd. apply elem_of_unique_delta_of in Hd.
    destruct (list_index_elem_of _ _ Hd) as (i & ? & ? & _). eauto. }
  exists index. split_and!; [|by rewrite Hlen, length_delta_of by lia|done].
  unfold _gen_input. cbn [fst snd].
  rewrite !arange_Ok by lia. cbn [mbind result_bind].
  fold (positions_of h w).
  assert (reshape_N_2 (h * w) (positions_of h w) = Ok (positions_of h w)) as ->.
  { unfold reshape_N_2. rewrite length_positions_of by lia.
    case_decide; [done|]. by rewrite decide_True. }
  cbn [mbind result_bind].
  assert (torch_cat ((λ p, sub_broadcast p (positions_of h w))
                       <$> positions_of h w) = Ok (delta_of h w)) as ->.
  { unfold delta_of. destruct (positions_of h w) as [|p ps] eqn:E; [|done].
    assert ((0, 0) ∈ positions_of h w) as Hin
      by (apply elem_of_positions_of; simpl; lia).
    rewrite E in Hin. by apply elem_of_nil in Hin. }
  cbn [mbind result_bind]. fold (unique_delta_of enum h w).
  rewrite Hindex.
  rewrite (abs_max_eq _ (Z.max (h - 1) (w - 1))); [done| |].
  - intros d Hd. apply elem_of_unique_delta_of, elem_of_delta_of in Hd. lia.
  - exists (h - 1, w - 1). split; [|simpl; lia].
    apply elem_of_unique_delta_of, elem_of_delta_of. simpl. lia.
Qed.

Lemma gen_input_total h w :
  match _gen_input enum (h, w) with
  | Ok (index, unique_delta) =>
      0 < h ∧ 0 < w
      ∧ unique_delta
        = normalise (Z.max (h - 1) (w - 1)) <$> unique_delta_of enum h w
      ∧ Z.of_nat (length index) = (h * w) ^ 2
      ∧ Forall (λ i, (i < length unique_delta)%nat) index
  | Raise _ => h ≤ 0 ∨ w ≤ 0
  end.
Proof.
  destruct (decide (0 < h ∧ 0 < w)) as [[Hh Hw]|Hn].
  - destruct (gen_input_Ok h w Hh Hw) as (index & -> & Hlen & Hlt).
    rewrite length_fmap. done.
  - rewrite gen_input_Raise by lia. lia.
Qed.

End with_enumeration.

Lemma gen_input_order_irrelevant enum1 enum2 window_size :
  enumerates enum1 → enumerates enum2 →
  _gen_input enum1 window_size = _gen_input enum2 window_size.
Proof.
  intros H1 H2. unfold _gen_input.
  destruct (arange 0 _) as [ys|]; [|done]. cbn [mbind result_bind].
  destruct (arange 0 _) as [xs|]; [|done]. cbn [mbind result_bind].
  destruct (reshape_N_2 _ _) as [positions|]; [|done]. cbn [mbind result_bind].
  destruct (torch_cat _) as [delta|]; [|done]. cbn [mbind result_bind].
  rewrite (sorted_order_irrelevant (enum1 (list_to_set delta))
             (enum2 (list_to_set delta))); [done|].
  by rewrite (H1 _), (H2 _).
Qed.

(** C1: for every window geometry (h, w) the constructor either builds its
    tables, and then the unique-delta table has at most (2h-1)(2w-1) rows,
    the index array has (h*w)^2 entries and each entry is a valid row
    number, or it raises, which happens for an empty window only.  For the
    window (2, 2) there are 9 unique deltas and 16 indices, all below 9. *)
Theorem bias_table_size_bound enum (enum_ok : enumerates enum) h w :
  match _gen_input enum (h, w) with
  | Ok (index, unique_delta) =>
      Z.of_nat (length unique_delta) ≤ (2 * h - 1) * (2 * w - 1)
      ∧ Z.of_nat (length index) = (h * w) ^ 2
      ∧ Forall (λ i, (i < length unique_delta)%nat) index
  | Raise _ => h ≤ 0 ∨ w ≤ 0
  end
  ∧ ∃ index unique_delta,
      _gen_input enum (2, 2) = Ok (index, unique_delta)
      ∧ length unique_delta = 9%nat ∧ length index = 16%nat
      ∧ Forall (λ i, (i < 9)%nat) index.
Proof.
  split.
  - pose proof (gen_input_total enum enum_ok h w) as Hgen.
    destruct (_gen_input enum (h, w)) as [[index ud]|]; [|done].
    destruct Hgen as (Hh & Hw & -> & Hlen & Hlt). split_and!; [|done..].
    rewrite length_fmap, length_unique_delta_of by done. lia.
  - destruct (gen_input_Ok enum enum_ok 2 2) as (index & Hgen & Hlen & Hlt);
      [lia..|].
    pose proof (length_unique_delta_of enum enum_ok 2 2) as Hu.
    eexists _, _. split; [exact Hgen|]. rewrite length_fmap.
    assert (length (unique_delta_of enum 2 2) = 9%nat) as Hu9 by lia.
    rewrite Hu9 in Hlt |- *. split_and!; [done|lia|done].
Qed.

Lemma bias_table_size_bound_witness :
  enumerates elements
  ∧ match _gen_input elements (3, 2) with
    | Ok (index, unique_delta) =>
        Z.of_nat (length unique_delta) ≤ (2 * 3 - 1) * (2 * 2 - 1)
        ∧ Z.of_nat (length index) = (3 * 2) ^ 2
        ∧ Forall (λ i, (i < length unique_delta)%nat) index
    | Raise _ => 3 ≤ 0 ∨ 2 ≤ 0
    end.
Proof.
  split; [intros X; reflexivity|].
  apply (bias_table_size_bound elements (λ X, reflexivity _) 3 2).
Defined.

(** C9: the tables do not depend on the order in which the set of deltas is
    listed: two instances built for the same window geometry hold the same
    index array and the same unique-delta table (or both constructions
    raise the same exception), whatever enumeration of the set each of
    them saw and whatever hidden width each was given. *)
Theorem bias_tables_deterministic enum1 enum2 window1 window2 hidden1 hidden2 :
  enumerates enum1 → enumerates enum2 →
  geometry window1 = geometry window2 →
  match __init__ enum1 window1 hidden1, __init__ enum2 window2 hidden2 with
  | Ok a, Ok b => index a = index b ∧ delta a = delta b
  | Raise e1, Raise e2 => e1 = e2
  | _, _ => False
  end.
Proof.
  intros H1 H2 Hgeo. unfold __init__. rewrite Hgeo.
  rewrite (gen_input_order_irrelevant enum1 enum2) by done.
  destruct (_gen_input enum2 _) as [[idx ud]|]; done.
Qed.

Lemma bias_tables_deterministic_witness :
  enumerates elements ∧ enumerates (λ X, reverse (elements X))
  ∧ geometry (WinInt 2) = geometry (WinPair 2 2)
  ∧ match __init__ elements (WinInt 2) None,
          __init__ (λ X, reverse (elements X)) (WinPair 2 2) (Some 8) with
    | Ok a, Ok b => index a = index b ∧ delta a = delta b
    | Raise e1, Raise e2 => e1 = e2
    | _, _ => False
    end.
Proof.
  assert (enumerates elements) as H1 by (intros X; reflexivity).
  assert (enumerates (λ X, reverse (elements X))) as H2
    by (intros X; apply reverse_Permutation).
  split_and!; [done..|].
  apply (bias_tables_deterministic elements (λ X, reverse (elements X))
           (WinInt 2) (WinPair 2 2) None (Some 8) H1 H2 eq_refl).
Defined.

(** C10: for every window with h >= 1 and w >= 1 the construction succeeds
    and its unique-delta table has exactly (2h-1)(2w-1) rows: before the
    normalisation, the rows are the offsets (dy, dx) with |dy| <= h-1 and
    |dx| <= w-1, each listed once. *)
Theorem unique_delta_count_exact enum (enum_ok : enumerates enum) h w :
  1 ≤ h → 1 ≤ w →
  ∃ index unique_delta m,
    _gen_input enum (h, w) = Ok (index, normalise m <$> unique_delta)
    ∧ Z.of_nat (length (normalise m <$> unique_delta))
      = (2 * h - 1) * (2 * w - 1)
    ∧ NoDup unique_delta
    ∧ ∀ dy dx, (dy, dx) ∈ unique_delta
               ↔ Z.abs dy ≤ h - 1 ∧ Z.abs dx ≤ w - 1.
Proof.
  intros Hh Hw.
  destruct (gen_input_Ok enum enum_ok h w) as (index & Hgen & _); [lia..|].
  eexists index, _, _. split_and!; [exact Hgen| | |].
  - rewrite length_fmap. apply length_unique_delta_of; [done|lia..].
  - by apply NoDup_unique_delta_of.
  - intros dy dx. rewrite elem_of_unique_delta_of, elem_of_delta_of by done.
    simpl. lia.
Qed.

Lemma unique_delta_count_exact_witness :
  enumerates elements ∧ 1 ≤ 3 ∧ 1 ≤ 4
  ∧ ∃ index unique_delta m,
      _gen_input elements (3, 4) = Ok (index, normalise m <$> unique_delta)
      ∧ Z.of_nat (length (normalise m <$> unique_delta))
        = (2 * 3 - 1) * (2 * 4 - 1)
      ∧ NoDup unique_delta
      ∧ ∀ dy dx, (dy, dx) ∈ unique_delta
                 ↔ Z.abs dy ≤ 3 - 1 ∧ Z.abs dx ≤ 4 - 1.
Proof.
  assert (enumerates elements) as H1 by (intros X; reflexivity).
  split_and!; [done|lia|lia|].
  apply (unique_delta_count_exact elements H1 3 4); lia.
Defined.

(** Away from the 1x1 window the normalisation does what it is meant to:
    each row is the delta divided by the largest absolute component of the
    table, max(h-1, w-1), and both components lie in [-1, 1]. *)
Lemma normalised_delta_in_unit_interval enum (enum_ok : enumerates enum) h w :
  1 ≤ h → 1 ≤ w → (h, w) ≠ (1, 1) →
  ∃ index unique_delta,
    _gen_input enum (h, w)
    = Ok (index, normalise (Z.max (h - 1) (w - 1)) <$> unique_delta)
    ∧ abs_max unique_delta = Ok (Z.max (h - 1) (w - 1))
    ∧ Forall (λ r, in_unit_interval r.1 ∧ in_unit_interval r.2)
        (normalise (Z.max (h - 1) (w - 1)) <$> unique_delta).
Proof.
  intros Hh Hw Hne.
  destruct (gen_input_Ok enum enum_ok h w) as (index & Hgen & _); [lia..|].
  eexists index, _. split_and!; [exact Hgen| |].
  - apply abs_max_eq.
    + intros d Hd. apply elem_of_unique_delta_of, elem_of_delta_of in Hd; [|done].
      lia.
    + exists (h - 1, w - 1). split; [|simpl; lia].
      apply elem_of_unique_delta_of, elem_of_delta_of; [done|]. simpl. lia.
  - assert (0 < Z.max (h - 1) (w - 1)).
    { destruct (decide (h = 1)) as [->|]; [|lia].
      destruct (decide (w = 1)) as [->|]; [done|lia]. }
    apply Forall_fmap, Forall_forall. intros d Hd.
    apply elem_of_unique_delta_of, elem_of_delta_of in Hd; [|done].
    simpl. split; apply fdiv_in_unit_interval; lia.
Qed.

(** C7: the table is divided by its largest absolute component, but for
    the 1x1 window that component is 0: the only delta is (0, 0), the
    division is 0/0, and the stored buffer holds NaN, which lies in no
    interval. *)
Theorem normalised_delta_nan_1x1 :
  _gen_input elements (1, 1) = Ok ([0%nat], [(NaN, NaN)])
  ∧ abs_max (unique_delta_of elements 1 1) = Ok 0
  ∧ ¬ in_unit_interval NaN.
Proof. split_and!; [by vm_compute|by vm_compute|by intros []]. Qed.

(** *** The tables in closed form and the bias they give *)

Lemma lookup_meshgrid_stack ys xs a b y x :
  ys !! a = Some y → xs !! b = Some x →
  meshgrid_stack ys xs !! (a * length xs + b)%nat = Some (y, x).
Proof.
  intros Hy Hx. pose proof (lookup_lt_Some _ _ _ Hx) as Hb.
  unfold meshgrid_stack. revert a Hy.
  induction ys as [|y0 ys IH]; intros [|a] Hy; try done; csimpl.
  - injection Hy as ->. rewrite lookup_app_l by (by rewrite length_fmap).
    by rewrite list_lookup_fmap, Hx.
  - rewrite lookup_app_r by (rewrite length_fmap; lia).
    rewrite length_fmap.
    replace (length xs + a * length xs + b - length xs)%nat
      with (a * length xs + b)%nat by lia.
    by apply IH.
Qed.

Lemma lookup_sub_blocks (ps qs : list pos) i j p q :
  ps !! i = Some p → qs !! j = Some q →
  concat ((λ p, sub_broadcast p qs) <$> ps) !! (i * length qs + j)%nat
  = Some (p.1 - q.1, p.2 - q.2).
Proof.
  intros Hp Hq. pose proof (lookup_lt_Some _ _ _ Hq) as Hj.
  unfold pos in *. revert i Hp.
  induction ps as [|p0 ps IH]; intros [|i] Hp; try done; csimpl.
  - injection Hp as ->.
    rewrite lookup_app_l by (unfold sub_broadcast; by rewrite length_fmap).
    unfold sub_broadcast, pos in *. by rewrite list_lookup_fmap, Hq.
  - rewrite lookup_app_r by (unfold sub_broadcast; rewrite length_fmap; lia).
    unfold sub_broadcast at 1. rewrite length_fmap.
    replace (length qs + i * length qs + j - length qs)%nat
      with (i * length qs + j)%nat by lia.
    by apply IH.
Qed.

Lemma lookup_positions_of h w n :
  0 < w → 0 ≤ n < h * w →
  positions_of h w !! Z.to_nat n = Some (n / w, n mod w).
Proof.
  intros Hw Hn. unfold positions_of.
  assert (0 ≤ n / w < h).
  { split; [apply Z.div_pos; lia|apply Z.div_lt_upper_bound; lia]. }
  pose proof (Z.mod_pos_bound n w Hw).
  replace (Z.to_nat n)
    with (Z.to_nat (n / w) * length (seqZ 0 w) + Z.to_nat (n mod w))%nat.
  2: { rewrite length_seqZ. pose proof (Z.div_mod n w). nia. }
  apply lookup_meshgrid_stack.
  - rewrite lookup_seqZ_lt by lia. f_equal. lia.
  - rewrite lookup_seqZ_lt by lia. f_equal. lia.
Qed.

Lemma lookup_delta_of h w i j :
  0 < w → 0 ≤ i < h * w → 0 ≤ j < h * w →
  delta_of h w !! Z.to_nat (i * (h * w) + j)
  = Some (i / w - j / w, i mod w - j mod w).
Proof.
  intros Hw Hi Hj. unfold delta_of.
  assert (0 ≤ h) by nia.
  replace (Z.to_nat (i * (h * w) + j))
    with (Z.to_nat i * length (positions_of h w) + Z.to_nat j)%nat.
  2: { pose proof (length_positions_of h w). nia. }
  by rewrite (lookup_sub_blocks _ _ _ _ (i / w, i mod w) (j / w, j mod w))
    by (by apply lookup_positions_of).
Qed.

Lemma StronglySorted_seqZ m n : StronglySorted Z.lt (seqZ m n).
Proof.
  unfold seqZ. apply (StronglySorted_fmap _ lt); [intros; lia|].
  generalize (Z.to_nat n) 0%nat. intros k.
  induction k as [|k IH]; intros a; simpl; constructor; [apply IH|].
  apply Forall_seq. intros; lia.
Qed.

Lemma StronglySorted_meshgrid_stack ys xs :
  StronglySorted Z.lt ys → StronglySorted Z.lt xs →
  StronglySorted tuple_le (meshgrid_stack ys xs).
Proof.
  intros Hys Hxs. unfold meshgrid_stack.
  induction Hys as [|y ys Hys IH Hy]; csimpl; [constructor|].
  apply StronglySorted_app_2.
  - intros p1 p2 Hp1 Hp2.
    apply list_elem_of_fmap in Hp1 as (x1 & -> & _).
    apply (elem_of_meshgrid_stack ys xs) in Hp2 as [Hp2 _].
    rewrite Forall_forall in Hy. left. simpl. by apply Hy.
  - apply (StronglySorted_fmap _ Z.lt); [|done].
    intros x1 x2 Hlt. right. simpl. lia.
  - exact IH.
Qed.

Lemma list_index_NoDup (u : list pos) k d :
  NoDup u → u !! k = Some d → list_index u d = Ok k.
Proof.
  intros Hnd Hk. destruct (list_index_elem_of u d) as (i & Hi & _ & Hui).
  { by eapply list_elem_of_lookup_2. }
  rewrite Hi. f_equal. by eapply NoDup_lookup.
Qed.

Lemma mapM_result_lookup {A B} (f : A → result B) l k i x :
  mapM f l = Ok k → l !! i = Some x → ∃ y, k !! i = Some y ∧ f x = Ok y.
Proof.
  revert k i. induction l as [|a l IH]; intros k i; [done|]. simpl.
  destruct (f a) as [b|] eqn:Hb; [|done]. cbn [mbind result_bind].
  destruct (mapM f l) as [k'|] eqn:Hk'; [|done]. cbn.
  intros [= <-]. destruct i as [|i]; simpl.
  - intros [= <-]. eauto.
  - intros Hx. by apply IH.
Qed.

Lemma lookup_offset_rectangle h w dy dx :
  1 - h ≤ dy ≤ h - 1 → 1 - w ≤ dx ≤ w - 1 →
  offset_rectangle h w
    !! Z.to_nat ((dy + h - 1) * (2 * w - 1) + (dx + w - 1))
  = Some (dy, dx).
Proof.
  intros Hdy Hdx. unfold offset_rectangle.
  replace (Z.to_nat ((dy + h - 1) * (2 * w - 1) + (dx + w - 1)))
    with (Z.to_nat (dy + h - 1) * length (seqZ (1 - w) (2 * w - 1))
          + Z.to_nat (dx + w - 1))%nat
    by (rewrite length_seqZ; nia).
  apply lookup_meshgrid_stack.
  - rewrite lookup_seqZ_lt by lia. f_equal. lia.
  - rewrite lookup_seqZ_lt by lia. f_equal. lia.
Qed.

Section closed_forms.
Variable enum : gset pos → list pos.
Hypothesis enum_ok : enumerates enum.

(** Sorting the set of deltas lists the offsets row by row. *)
Lemma unique_delta_of_rectangle h w :
  0 < h → 0 < w → unique_delta_of enum h w = offset_rectangle h w.
Proof.
  intros Hh Hw. apply (StronglySorted_unique tuple_le).
  - apply Sorted_StronglySorted; [apply _|apply sorted_Sorted].
  - apply StronglySorted_meshgrid_stack; apply StronglySorted_seqZ.
  - apply NoDup_Permutation.
    + by apply NoDup_unique_delta_of.
    + apply NoDup_meshgrid_stack; apply NoDup_seqZ.
    + intros d. rewrite elem_of_unique_delta_of, elem_of_delta_of by done.
      unfold offset_rectangle.
      rewrite elem_of_meshgrid_stack, !elem_of_seqZ. lia.
Qed.

Lemma gen_input_unfold h w :
  0 < h → 0 < w →
  _gen_input enum (h, w)
  = index ← mapM (list_index (offset_rectangle h w)) (delta_of h w);
    Ok (index, normalise (Z.max (h - 1) (w - 1)) <$> offset_rectangle h w).
Proof.
  intros Hh Hw.
  destruct (gen_input_Ok enum enum_ok h w Hh Hw) as (index & Hgen & _).
  revert Hgen. unfold _gen_input. cbn [fst snd].
  rewrite !arange_Ok by lia. cbn [mbind result_bind].
  fold (positions_of h w).
  unfold reshape_N_2. rewrite length_positions_of by lia.
  destruct (decide (h * w = -1)); [lia|]. rewrite decide_True by done.
  cbn [mbind result_bind].
  destruct (positions_of h w) as [|p ps] eqn:E.
  { pose proof (length_positions_of h w) as Hlen. rewrite E in Hlen.
    simpl in Hlen. nia. }
  rewrite <-E. clear E p ps.
  assert (torch_cat ((λ p, sub_broadcast p (positions_of h w))
                       <$> positions_of h w) = Ok (delta_of h w)) as ->.
  { unfold delta_of. destruct (positions_of h w) as [|p ps] eqn:E; [|done].
    pose proof (length_positions_of h w) as Hlen. rewrite E in Hlen.
    simpl in Hlen. nia. }
  cbn [mbind result_bind]. fold (unique_delta_of enum h w).
  rewrite unique_delta_of_rectangle by done.
  destruct (mapM _ _) as [idx|]; [|done]. cbn [mbind result_bind].
  destruct (abs_max _) as [m|]; [|done]. cbn [mbind result_bind].
  by intros [= _ ->].
Qed.

Lemma gen_input_index h w :
  0 < h → 0 < w →
  ∃ index,
    _gen_input enum (h, w)
    = Ok (index, normalise (Z.max (h - 1) (w - 1)) <$> offset_rectangle h w)
    ∧ Z.of_nat (length index) = (h * w) ^ 2
    ∧ ∀ i j, 0 ≤ i < h * w → 0 ≤ j < h * w →
        index !! Z.to_nat (i * (h * w) + j)
        = Some (Z.to_nat ((i / w - j / w + h - 1) * (2 * w - 1)
                          + (i mod w - j mod w + w - 1))).
Proof.
  intros Hh Hw. rewrite gen_input_unfold by done.
  destruct (gen_input_Ok enum enum_ok h w Hh Hw) as (index & Hgen & Hlen & _).
  rewrite gen_input_unfold in Hgen by done.
  destruct (mapM _ _) as [idx|] eqn:Hidx; [|done].
  cbn [mbind result_bind] in Hgen |- *. injection Hgen as ->.
  exists index. split_and!; [done..|].
  intros i j Hi Hj.
  destruct (mapM_result_lookup _ _ _ _ _ Hidx (lookup_delta_of h w i j Hw Hi Hj))
    as (k & -> & Hk).
  f_equal.
  assert (0 ≤ i / w < h ∧ 0 ≤ j / w < h) as [??].
  { split; (split; [apply Z.div_pos; lia|apply Z.div_lt_upper_bound; lia]). }
  pose proof (Z.mod_pos_bound i w Hw). pose proof (Z.mod_pos_bound j w Hw).
  rewrite (list_index_NoDup _
             (Z.to_nat ((i / w - j / w + h - 1) * (2 * w - 1)
                        + (i mod w - j mod w + w - 1)))) in Hk.
  - by injection Hk.
  - unfold offset_rectangle. apply NoDup_meshgrid_stack; apply NoDup_seqZ.
  - apply lookup_offset_rectangle; lia.
Qed.

End closed_forms.

Lemma mapM_lookup_gather {A} (rows : list A) (index : list nat) :
  Forall (λ i, (i < length rows)%nat) index →
  ∃ g, mapM (λ i, rows !! i) index = Some g
       ∧ length g = length index
       ∧ ∀ n i, index !! n = Some i → g !! n = rows !! i.
Proof.
  induction 1 as [|i index Hi _ (g & Hg & Hlen & Hlook)].
  - exists []. by split_and!.
  - apply lookup_lt_is_Some_2 in Hi as [r Hr].
    exists (r :: g). split_and!.
    + cbn. rewrite Hr. cbn. rewrite Hg. done.
    + simpl. by rewrite Hlen.
    + intros [|n] i'; simpl; [intros [= <-]; done|apply Hlook].
Qed.

Lemma lookup_reshape_N_N {A} (N : nat) (t : list A) i j :
  (i < N)%nat → (j < N)%nat →
  ((λ i, take N (drop (i * N) t)) <$> seq 0 N) !! i ≫= (.!! j)
  = t !! (i * N + j)%nat.
Proof.
  intros Hi Hj. rewrite list_lookup_fmap, lookup_seq_lt by done. cbn.
  by rewrite lookup_take_lt, lookup_drop by done.
Qed.

Lemma exact_quotient_close (a m : Z) :
  0 < m → float32_quotient (fdiv a m) a m.
Proof.
  intros Hm. unfold fdiv, float32_quotient. rewrite decide_False by lia.
  assert (inject_Z a / inject_Z m * inject_Z m - inject_Z a == 0)%Q as ->.
  { field. intros Hz. unfold Qeq, inject_Z in Hz. simpl in Hz. lia. }
  change (0 <= Qabs (inject_Z a) * (1 # 16777216))%Q.
  apply Qmult_le_0_compat; [apply Qabs_nonneg|discriminate].
Qed.

(** X1: the table of normalised deltas lists the offsets row by row, to
    float32 precision.  For every window with 1 <= h, w <= 2^24 other than
    the 1 x 1 window, and every offset with |dy| <= h - 1 and
    |dx| <= w - 1, row (dy + h - 1)(2w - 1) + (dx + w - 1) of the table
    holds two finite values that are dy / m and dx / m with
    m = max(h - 1, w - 1), each with a relative error of at most 2^-24,
    whatever order the set of deltas was listed in.  The offsets
    themselves are integers below 2^24, which float32 holds exactly. *)
Theorem bias_table_rows enum (enum_ok : enumerates enum) h w :
  1 ≤ h ≤ 2 ^ 24 → 1 ≤ w ≤ 2 ^ 24 → 1 < h ∨ 1 < w →
  ∃ index table,
    _gen_input enum (h, w) = Ok (index, table)
    ∧ ∀ dy dx, 1 - h ≤ dy ≤ h - 1 → 1 - w ≤ dx ≤ w - 1 →
        ∃ fy fx,
          table !! Z.to_nat ((dy + h - 1) * (2 * w - 1) + (dx + w - 1))
          = Some (fy, fx)
          ∧ float32_quotient fy dy (Z.max (h - 1) (w - 1))
          ∧ float32_quotient fx dx (Z.max (h - 1) (w - 1)).
Proof.
  intros Hh Hw Hhw.
  destruct (gen_input_index enum enum_ok h w) as (index & Hgen & _); [lia..|].
  eexists _, _. split; [exact Hgen|]. intros dy dx Hdy Hdx.
  eexists _, _. split.
  - by rewrite list_lookup_fmap, lookup_offset_rectangle.
  - split; apply exact_quotient_close; lia.
Qed.

(** X2: the index array in closed form.  Cells are numbered row by row,
    cell i at (i // w, i % w); entry i * N + j of the index is the table row
    of the offset from cell j to cell i. *)
Theorem bias_index_closed_form enum (enum_ok : enumerates enum) h w :
  1 ≤ h → 1 ≤ w →
  ∃ index table,
    _gen_input enum (h, w) = Ok (index, table)
    ∧ ∀ i j, 0 ≤ i < h * w → 0 ≤ j < h * w →
        index !! Z.to_nat (i * (h * w) + j)
        = Some (Z.to_nat ((i / w - j / w + h - 1) * (2 * w - 1)
                          + (i mod w - j mod w + w - 1))).
Proof.
  intros Hh Hw.
  destruct (gen_input_index enum enum_ok h w) as (index & Hgen & _ & Hidx);
    [lia..|].
  eexists _, _. split; [exact Hgen|done].
Qed.

(** X3: [forward] of a freshly constructed instance returns the dense
    N x N bias: entry (i, j) is the score the network gives to the
    normalised offset from cell j to cell i.  The gather never leaves the
    table, and two pairs of cells with the same offset get the same bias. *)
Theorem forward_dense_bias {score} (to_bias : fnum * fnum → score)
    enum (enum_ok : enumerates enum) window_size hidden_dim h w :
  geometry window_size = (h, w) → 1 ≤ h → 1 ≤ w →
  (∀ d, hidden_dim = Some d → 0 ≤ d) →
  ∃ self bias,
    __init__ enum window_size hidden_dim = Ok self
    ∧ forward to_bias self = Returns bias
    ∧ Z.of_nat (length bias) = h * w
    ∧ ∀ i j, 0 ≤ i < h * w → 0 ≤ j < h * w →
        bias !! Z.to_nat i ≫= (.!! Z.to_nat j)
        = Some (to_bias (normalise (Z.max (h - 1) (w - 1))
                           (i / w - j / w, i mod w - j mod w))).
Proof.
  intros Hgeo Hh Hw _.
  destruct (gen_input_index enum enum_ok h w) as (idx & Hgen & Hlen & Hidx);
    [lia..|].
  unfold __init__. rewrite Hgeo, Hgen. cbn [mbind result_bind fst snd].
  set (m := Z.max (h - 1) (w - 1)).
  set (rows := to_bias <$> (normalise m <$> offset_rectangle h w)).
  assert (0 < h * w) as HN by nia.
  assert (∃ g, mapM (λ i, rows !! i) idx = Some g
               ∧ length g = length idx
               ∧ ∀ n i, idx !! n = Some i → g !! n = rows !! i)
    as (g & Hgather & Hglen & Hg).
  2: { eexists _, ((λ i, take (Z.to_nat (h * w)) (drop (i * Z.to_nat (h * w)) g))
                     <$> seq 0 (Z.to_nat (h * w))).
       split; [reflexivity|]. unfold forward.
       cbn [ScoreBias.window_size ScoreBias.index ScoreBias.delta fst snd].
       fold rows. rewrite Hgather. unfold reshape_N_N.
       rewrite decide_True by (rewrite Hglen; lia).
       split_and!; [done|rewrite length_fmap, length_seq; lia|].
       intros i j Hi Hj.
       rewrite lookup_reshape_N_N by lia.
       replace (Z.to_nat i * Z.to_nat (h * w) + Z.to_nat j)%nat
         with (Z.to_nat (i * (h * w) + j)) by nia.
       rewrite (Hg _ _ (Hidx i j Hi Hj)). unfold rows.
       rewrite !list_lookup_fmap.
       assert (0 ≤ i / w < h ∧ 0 ≤ j / w < h) as [??].
       { split; (split; [apply Z.div_pos; lia|apply Z.div_lt_upper_bound; lia]). }
       pose proof (Z.mod_pos_bound i w ltac:(lia)).
       pose proof (Z.mod_pos_bound j w ltac:(lia)).
       rewrite lookup_offset_rectangle by lia. done. }
  apply mapM_lookup_gather.
  apply Forall_forall. intros k Hk.
    apply list_elem_of_lookup in Hk as [n Hn].
    assert (n < length idx)%nat as Hnlt by (by eapply lookup_lt_Some).
    set (i := Z.of_nat n / (h * w)). set (j := Z.of_nat n mod (h * w)).
    assert (0 ≤ i < h * w).
    { split; [apply Z.div_pos; lia|apply Z.div_lt_upper_bound; nia]. }
    pose proof (Z.mod_pos_bound (Z.of_nat n) (h * w) HN).
    specialize (Hidx i j).
    replace (Z.to_nat (i * (h * w) + j)) with n in Hidx.
    2: { pose proof (Z.div_mod (Z.of_nat n) (h * w)). subst i j. lia. }
    rewrite Hidx in Hn by done. injection Hn as <-.
    eapply lookup_lt_Some. unfold rows. rewrite !list_lookup_fmap.
    assert (0 ≤ i / w < h ∧ 0 ≤ j / w < h) as [??].
    { split; (split; [apply Z.div_pos; lia|apply Z.div_lt_upper_bound; lia]). }
    pose proof (Z.mod_pos_bound i w ltac:(lia)).
    pose proof (Z.mod_pos_bound j w ltac:(lia)).
    rewrite lookup_offset_rectangle by lia. done.
Qed.

(** X4: [_gen_input] raises exactly for windows with an extent below 1:
    a negative extent is refused when the coordinates are generated, and
    an extent of 0 leaves no block of deltas to concatenate.  For every
    other window it returns.  Which exception the tensor library raises
    is its own business and not part of the statement. *)
Theorem gen_input_raises_iff enum (enum_ok : enumerates enum) h w :
  ((∃ e, _gen_input enum (h, w) = Raise e) ↔ h ≤ 0 ∨ w ≤ 0)
  ∧ (is_Ok (_gen_input enum (h, w)) ↔ 1 ≤ h ∧ 1 ≤ w).
Proof.
  destruct (decide (0 < h ∧ 0 < w)) as [[Hh Hw]|Hn].
  - destruct (gen_input_Ok enum enum_ok h w Hh Hw) as (index & -> & _).
    split; split; try done; try lia. by intros [e ?].
  - rewrite gen_input_Raise by lia.
    split; split; try done; simpl; try lia. intros _. by eexists.
Qed.

Lemma bias_table_rows_witness :
  enumerates elements ∧ 1 ≤ 2 ≤ 2 ^ 24 ∧ 1 ≤ 4 ≤ 2 ^ 24 ∧ (1 < 2 ∨ 1 < 4)
  ∧ ∃ index table,
      _gen_input elements (2, 4) = Ok (index, table)
      ∧ ∀ dy dx, 1 - 2 ≤ dy ≤ 2 - 1 → 1 - 4 ≤ dx ≤ 4 - 1 →
          ∃ fy fx,
            table !! Z.to_nat ((dy + 2 - 1) * (2 * 4 - 1) + (dx + 4 - 1))
            = Some (fy, fx)
            ∧ float32_quotient fy dy (Z.max (2 - 1) (4 - 1))
            ∧ float32_quotient fx dx (Z.max (2 - 1) (4 - 1)).
Proof.
  assert (enumerates elements) as H1 by (intros X; reflexivity).
  assert (1 ≤ 2 ≤ 2 ^ 24) as H2 by lia.
  assert (1 ≤ 4 ≤ 2 ^ 24) as H3 by lia.
  assert (1 < 2 ∨ 1 < 4) as H4 by (left; lia).
  refine (conj H1 (conj H2 (conj H3 (conj H4 _)))).
  exact (bias_table_rows elements H1 2 4 H2 H3 H4).
Defined.

Lemma bias_index_closed_form_witness :
  enumerates elements ∧ 1 ≤ 2 ∧ 1 ≤ 3
  ∧ ∃ index table,
      _gen_input elements (2, 3) = Ok (index, table)
      ∧ ∀ i j, 0 ≤ i < 2 * 3 → 0 ≤ j < 2 * 3 →
          index !! Z.to_nat (i * (2 * 3) + j)
          = Some (Z.to_nat ((i / 3 - j / 3 + 2 - 1) * (2 * 3 - 1)
                            + (i mod 3 - j mod 3 + 3 - 1))).
Proof.
  assert (enumerates elements) as H1 by (intros X; reflexivity).
  split_and!; [done|lia|lia|].
  apply (bias_index_closed_form elements H1 2 3); lia.
Defined.

Lemma forward_dense_bias_witness :
  enumerates elements ∧ geometry (WinPair 2 3) = (2, 3) ∧ 1 ≤ 2 ∧ 1 ≤ 3
  ∧ (∀ d : Z, None = Some d → 0 ≤ d)
  ∧ ∃ self bias,
      __init__ elements (WinPair 2 3) None = Ok self
      ∧ forward (λ row, row) self = Returns bias
      ∧ Z.of_nat (length bias) = 2 * 3
      ∧ ∀ i j, 0 ≤ i < 2 * 3 → 0 ≤ j < 2 * 3 →
          bias !! Z.to_nat i ≫= (.!! Z.to_nat j)
          = Some (normalise (Z.max (2 - 1) (3 - 1))
                    (i / 3 - j / 3, i mod 3 - j mod 3)).
Proof.
  assert (enumerates elements) as H1 by (intros X; reflexivity).
  assert (∀ d : Z, None = Some d → 0 ≤ d) as H2 by (intros d; discriminate).
  split_and!; [done|reflexivity|lia|lia|done|].
  apply (forward_dense_bias (λ row, row) elements H1 (WinPair 2 3) None 2 3
           eq_refl); [lia|lia|done].
Defined.

Lemma gen_input_raises_iff_witness :
  enumerates elements
  ∧ ((∃ e, _gen_input elements (0, 3) = Raise e) ↔ 0 ≤ 0 ∨ 3 ≤ 0)
  ∧ (is_Ok (_gen_input elements (0, 3)) ↔ 1 ≤ 0 ∧ 1 ≤ 3).
Proof.
  assert (enumerates elements) as H1 by (intros X; reflexivity).
  split; [done|]. apply (gen_input_raises_iff elements H1 0 3).
Defined.

End score_bias_facts.

(** ** Tensor operations *)

Lemma py_mod_Ok a b : b ≠ 0%nat → py_mod a b = Ok (a mod b)%nat.
Proof. intros. unfold py_mod. by rewrite decide_False. Qed.

Lemma py_floordiv_Ok a b : b ≠ 0%nat → py_floordiv a b = Ok (a / b)%nat.
Proof. intros. unfold py_floordiv. by rewrite decide_False. Qed.

Section tensor_facts.
Context `{Scalar}.

Lemma ravel_lt s idx : Forall2 lt idx s → (ravel s idx < numel s)%nat.
Proof.
  intros Hin. induction Hin as [|i n idx s Hi _ IH]; simpl; [lia|].
  unfold numel in *. nia.
Qed.

Lemma unravel_ravel s idx : Forall2 lt idx s → unravel s (ravel s idx) = idx.
Proof.
  intros Hin. induction Hin as [|i n idx s Hi Hin IH]; simpl; [done|].
  pose proof (ravel_lt _ _ Hin) as Hlt.
  rewrite Nat.div_add_l, Nat.div_small, Nat.add_0_r by lia.
  rewrite Nat.add_comm, Nat.Div0.mod_add, Nat.mod_small by lia.
  by rewrite IH.
Qed.

Lemma reshape_Ok (x : tensor) s :
  numel s = numel (shape x) →
  reshape x s
  = Ok {| shape := s;
          data := λ idx, data x (unravel (shape x) (ravel s idx)) |}.
Proof. intros Hn. unfold reshape. by rewrite decide_True. Qed.

(** Splitting the last axis into (heads, features per head). *)
Lemma split_last_axis_index B N Hd d b n h j :
  (b < B → n < N → h < Hd → j < d →
   unravel [B; N; Hd * d] (ravel [B; N; Hd; d] [b; n; h; j])
   = [b; n; h * d + j])%nat.
Proof.
  intros. rewrite <-(unravel_ravel [B; N; Hd * d]%nat [b; n; h * d + j]%nat).
  - f_equal. simpl. lia.
  - repeat constructor; try done. nia.
Qed.

(** Merging (heads, features per head) back into one axis. *)
Lemma merge_last_axes_index B N Hd d b n c :
  (b < B → n < N → c < d * Hd →
   unravel [B; N; Hd; d] (ravel [B; N; d * Hd] [b; n; c])
   = [b; n; c / d; c mod d])%nat.
Proof.
  intros ?? Hc. assert (d ≠ 0)%nat by lia.
  rewrite <-(unravel_ravel [B; N; Hd; d]%nat [b; n; c / d; c mod d]%nat).
  - f_equal. simpl. pose proof (Nat.div_mod_eq c d). lia.
  - repeat constructor; try done.
    + apply Nat.Div0.div_lt_upper_bound. lia.
    + by apply Nat.mod_upper_bound.
Qed.

Lemma permute_0213 (x : tensor) a b c d :
  shape x = [a; b; c; d] →
  ∃ y, permute x [0; 2; 1; 3]%nat = Ok y
       ∧ shape y = [a; c; b; d]
       ∧ ∀ i k j l, data y [i; k; j; l] = data x [i; j; k; l].
Proof.
  intros Hx. unfold permute. rewrite Hx.
  rewrite bool_decide_eq_true_2.
  - eexists. split; [done|]. by split.
  - split_and!; [|repeat constructor; simpl; lia|done].
    apply (bool_decide_unpack (NoDup [0; 2; 1; 3]%nat)). by vm_compute.
Qed.

Lemma Linear_forward_spec (l : Linear) (x : tensor) B N C :
  shape x = [B; N; C] → C = in_features l →
  ∃ y, Linear_forward l x = Ok y ∧ shape y = [B; N; out_features l].
Proof.
  intros Hx HC. unfold Linear_forward. rewrite Hx. cbn [last].
  rewrite decide_True by done. by eexists.
Qed.

Lemma split_chunks (x : tensor) B N D n :
  shape x = [B; N; (D * n)%nat] → D ≠ 0%nat → n ≠ 0%nat →
  split x D
  = Ok ((λ i, {| shape := [B; N; D];
                 data := λ idx, data x (shift_last idx (i * D)) |})
          <$> seq 0 n).
Proof.
  intros Hx HD Hn. unfold split. rewrite Hx. cbn [last].
  rewrite decide_False by done.
  replace ((D * n + D - 1) / D)%nat with n.
  2: { replace (D * n + D - 1)%nat with (n * D + (D - 1))%nat by lia.
       rewrite Nat.div_add_l, Nat.div_small by lia. lia. }
  rewrite Nat.max_r by lia. f_equal.
  apply Forall_fmap_ext, Forall_seq. intros i Hi. f_equal.
  unfold set_last. cbn [length take app Nat.sub]. do 3 f_equal. nia.
Qed.

Lemma split_three (x : tensor) B N D :
  shape x = [B; N; (D * 3)%nat] → D ≠ 0%nat →
  ∃ q k v, split x D = Ok [q; k; v]
    ∧ shape q = [B; N; D] ∧ shape k = [B; N; D] ∧ shape v = [B; N; D]
    ∧ ∀ b t c, data q [b; t; c] = data x [b; t; c]
               ∧ data k [b; t; c] = data x [b; t; (c + D)%nat]
               ∧ data v [b; t; c] = data x [b; t; (c + 2 * D)%nat].
Proof.
  intros Hx HD. rewrite (split_chunks x B N D 3) by done.
  eexists _, _, _. split; [done|]. split_and!; [done..|].
  intros b t c. cbn [data]. unfold shift_last. cbn.
  rewrite !Nat.add_0_r. done.
Qed.

Lemma split_two (x : tensor) B N D :
  shape x = [B; N; (D * 2)%nat] → D ≠ 0%nat →
  ∃ k v, split x D = Ok [k; v]
    ∧ shape k = [B; N; D] ∧ shape v = [B; N; D]
    ∧ ∀ b t c, data k [b; t; c] = data x [b; t; c]
               ∧ data v [b; t; c] = data x [b; t; (c + D)%nat].
Proof.
  intros Hx HD. rewrite (split_chunks x B N D 2) by done.
  eexists _, _. split; [done|]. split_and!; [done..|].
  intros b t c. cbn [data]. unfold shift_last. cbn.
  rewrite !Nat.add_0_r. done.
Qed.

Lemma Conv2d_forward_Ok (l : Linear) (x : tensor) B C H' W :
  shape x = [B; C; H'; W] → C = in_features l →
  Conv2d_forward l x
  = Ok {| shape := [B; out_features l; H'; W];
          data := λ idx,
            match idx with
            | [b; o; i; j] =>
                default zero
                  (affine l ((λ c, data x [b; c; i; j])
                               <$> seq 0 (in_features l)) !! o)
            | _ => zero
            end |}.
Proof.
  intros Hx HC. unfold Conv2d_forward. rewrite Hx.
  by rewrite decide_True.
Qed.

Lemma pad_Ok (x : tensor) B C H' W left right top bottom :
  shape x = [B; C; H'; W] →
  (0 ≤ Z.of_nat H' + top + bottom)%Z → (0 ≤ Z.of_nat W + left + right)%Z →
  pad x left right top bottom
  = Ok {| shape := [B; C; Z.to_nat (Z.of_nat H' + top + bottom);
                    Z.to_nat (Z.of_nat W + left + right)];
          data := λ idx,
            match idx with
            | [b; c; i; j] =>
                if decide (0 ≤ Z.of_nat i - top < Z.of_nat H'
                           ∧ 0 ≤ Z.of_nat j - left < Z.of_nat W)%Z
                then data x [b; c; Z.to_nat (Z.of_nat i - top);
                             Z.to_nat (Z.of_nat j - left)]
                else zero
            | _ => zero
            end |}.
Proof.
  intros Hx ??. unfold pad. rewrite Hx. by rewrite decide_True.
Qed.

Lemma tensor_add_Ok (a b : tensor) :
  shape a = shape b →
  tensor_add a b
  = Ok {| shape := shape a; data := λ idx, add (data a idx) (data b idx) |}.
Proof. intros Hab. unfold tensor_add. by rewrite decide_True. Qed.

Lemma bchw_to_bnc_Ok (x : tensor) B C H' W wh ww :
  shape x = [B; C; H'; W] → wh ≠ 0%nat → ww ≠ 0%nat →
  (H' mod wh = 0)%nat → (W mod ww = 0)%nat →
  bchw_to_bnc x (wh, ww)
  = Ok {| shape := [(B * (H' / wh) * (W / ww))%nat; (wh * ww)%nat; C];
          data := λ idx,
            match idx with
            | [n; t; c] =>
                data x [(n / (H' / wh * (W / ww)))%nat; c;
                        ((n / (W / ww)) mod (H' / wh) * wh + t / ww)%nat;
                        (n mod (W / ww) * ww + t mod ww)%nat]
            | _ => zero
            end |}.
Proof.
  intros Hx Hwh Hww Hh Hw. unfold bchw_to_bnc. rewrite Hx. cbn [fst snd].
  rewrite !py_mod_Ok by done. cbn [mbind result_bind]. rewrite Hh, Hw.
  rewrite bool_decide_eq_true_2 by done. done.
Qed.

Lemma bchw_to_bnc_indivisible (x : tensor) B C H' W wh ww :
  shape x = [B; C; H'; W] → wh ≠ 0%nat → ww ≠ 0%nat →
  (H' mod wh ≠ 0 ∨ W mod ww ≠ 0)%nat →
  bchw_to_bnc x (wh, ww) = Raise AssertionError.
Proof.
  intros Hx Hwh Hww Hh. unfold bchw_to_bnc. rewrite Hx. cbn [fst snd].
  rewrite !py_mod_Ok by done. cbn [mbind result_bind].
  rewrite bool_decide_eq_false_2 by lia. done.
Qed.

Lemma bnc_to_bchw_Ok (x : tensor) B C H' W wh ww :
  shape x = [(B * (H' / wh) * (W / ww))%nat; (wh * ww)%nat; C] →
  wh ≠ 0%nat → ww ≠ 0%nat → (H' mod wh = 0)%nat → (W mod ww = 0)%nat →
  bnc_to_bchw x [B; C; H'; W] (wh, ww)
  = Ok {| shape := [B; C; H'; W];
          data := λ idx,
            match idx with
            | [b; c; i; j] =>
                data x [((b * (H' / wh) + i / wh) * (W / ww) + j / ww)%nat;
                        (i mod wh * ww + j mod ww)%nat; c]
            | _ => zero
            end |}.
Proof.
  intros Hx Hwh Hww Hh Hw. unfold bnc_to_bchw. cbn [fst snd].
  rewrite !py_mod_Ok by done. cbn [mbind result_bind]. rewrite Hh, Hw.
  rewrite bool_decide_eq_true_2 by done. cbn [py_assert mbind result_bind].
  by rewrite decide_True.
Qed.

Lemma permute_shape_4 (x : tensor) dims a b c d :
  shape x = [a; b; c; d] →
  NoDup dims → Forall (λ k, k < 4)%nat dims → length dims = 4%nat →
  ∃ y, permute x dims = Ok y
       ∧ shape y = (λ k, default 0%nat ([a; b; c; d] !! k)) <$> dims.
Proof.
  intros Hx ???. unfold permute. rewrite Hx.
  rewrite bool_decide_eq_true_2 by done. by eexists.
Qed.

Lemma channel_last_norm (layer_norm : option (tensor → result tensor))
    (x : tensor) B C H' W :
  norm_ok layer_norm → shape x = [B; C; H'; W] →
  ∃ y, match layer_norm with
       | Some norm => t ← bchw_to_bhwc x; t ← norm t; bhwc_to_bchw t
       | None => Ok x
       end = Ok y ∧ shape y = [B; C; H'; W].
Proof.
  intros Hnorm Hx. destruct layer_norm as [norm|]; [|by eexists].
  unfold bchw_to_bhwc, bhwc_to_bchw.
  destruct (permute_shape_4 x [0; 2; 3; 1]%nat B C H' W Hx)
    as (t & -> & Ht); [|repeat constructor; simpl; lia|done|].
  { apply (bool_decide_unpack (NoDup [0; 2; 3; 1]%nat)). by vm_compute. }
  cbn [mbind result_bind]. destruct (Hnorm t) as (t' & -> & Ht').
  cbn [mbind result_bind]. rewrite Ht in Ht'. cbn in Ht'.
  destruct (permute_shape_4 t' [0; 3; 1; 2]%nat B H' W C Ht')
    as (y & -> & Hy); [|repeat constructor; simpl; lia|done|].
  { apply (bool_decide_unpack (NoDup [0; 3; 1; 2]%nat)). by vm_compute. }
  by exists y.
Qed.

Lemma bchw_to_bhwc_spec (x : tensor) B C H' W :
  shape x = [B; C; H'; W] →
  ∃ y, bchw_to_bhwc x = Ok y ∧ shape y = [B; H'; W; C]
       ∧ ∀ b i j c, data y [b; i; j; c] = data x [b; c; i; j].
Proof.
  intros Hx. unfold bchw_to_bhwc, permute. rewrite Hx.
  rewrite bool_decide_eq_true_2.
  - eexists. split; [done|]. by split.
  - split_and!; [|repeat constructor; simpl; lia|done].
    apply (bool_decide_unpack (NoDup [0; 2; 3; 1]%nat)). by vm_compute.
Qed.

Lemma bhwc_to_bchw_spec (x : tensor) B C H' W :
  shape x = [B; H'; W; C] →
  ∃ y, bhwc_to_bchw x = Ok y ∧ shape y = [B; C; H'; W]
       ∧ ∀ b c i j, data y [b; c; i; j] = data x [b; i; j; c].
Proof.
  intros Hx. unfold bhwc_to_bchw, permute. rewrite Hx.
  rewrite bool_decide_eq_true_2.
  - eexists. split; [done|]. by split.
  - split_and!; [|repeat constructor; simpl; lia|done].
    apply (bool_decide_unpack (NoDup [0; 3; 1; 2]%nat)). by vm_compute.
Qed.

End tensor_facts.

(** ** The scaled-dot-product core and the attention blocks *)

Section attention_facts.
Context `{Torch}.


(** A (B, N, C) tensor viewed as (B, N, heads, C/heads) and permuted to
    (B, heads, N, C/heads), as [sliced_sdp] prepares its three inputs. *)
Lemma head_split_spec (x : tensor) B N Hd d :
  shape x = [B; N; (Hd * d)%nat] →
  ∃ y, (view x [B; N; Hd; d] ≫= λ t, permute t [0; 2; 1; 3]%nat) = Ok y
       ∧ shape y = [B; Hd; N; d]
       ∧ ∀ b h, (b < B)%nat → (h < Hd)%nat →
                slice y b h N d = head_rows x b h N d.
Proof.
  intros Hx. unfold view. rewrite reshape_Ok by (rewrite Hx; simpl; lia).
  cbn [mbind result_bind].
  match goal with
  | |- context [permute ?t _] =>
      destruct (permute_0213 t B N Hd d) as (y & -> & Hy & Hdata); [done|]
  end.
  exists y. split_and!; [done..|]. intros b h Hb Hh.
  unfold slice, head_rows. apply Forall_fmap_ext, Forall_seq. intros i Hi.
  apply Forall_fmap_ext, Forall_seq. intros j Hj.
  rewrite Hdata. cbn [data]. rewrite Hx.
  by rewrite split_last_axis_index by lia.
Qed.

(** What [sliced_sdp] computes on three tensors of one shape (B, N, C): a
    tensor of that shape whose features [h*d .. h*d+d-1] at token [n] of
    batch element [b] are row [n] of the kernel's output for slice
    [(b, h)], run in the context the batch size selects. *)
Lemma sliced_sdp_spec q k v num_heads attn_mask dropout_p is_causal B N C :
  has_scaled_dot_product_attention = true →
  shape q = [B; N; C] → shape k = [B; N; C] → shape v = [B; N; C] →
  num_heads ≠ 0%nat → (C mod num_heads = 0)%nat →
  mask_ok attn_mask is_causal [B; num_heads; N; N] →
  ∃ y, sliced_sdp q k v num_heads attn_mask dropout_p is_causal = Ok y
       ∧ shape y = [B; N; C]
       ∧ ∀ b n c, (b < B)%nat → (n < N)%nat → (c < C)%nat →
           let d := (C / num_heads)%nat in
           let h := (c / d)%nat in
           data y [b; n; c]
           = default zero
               (attention_slice
                  (use_flash_attention (bool_decide (Z.of_nat B ≤ 65535)))
                  attn_mask dropout_p is_causal b h
                  (head_rows q b h N d) (head_rows k b h N d)
                  (head_rows v b h N d)
                !! n ≫= (.!! (c mod d)%nat)).
Proof.
  intros Hsdpa Hq Hk Hv Hh Hmod Hmask.
  remember (C / num_heads)%nat as d eqn:Hd.
  assert (C = num_heads * d)%nat as HC by (subst d; by apply Nat.Div0.div_exact).
  unfold sliced_sdp. rewrite Hq, py_mod_Ok, Hmod by done.
  cbn [mbind result_bind].
  rewrite (bool_decide_eq_true_2 (0%nat = 0%nat)) by done.
  rewrite py_floordiv_Ok by done. cbn [mbind result_bind py_assert].
  rewrite <-Hd.
  rewrite HC in Hq, Hk, Hv.
  destruct (head_split_spec q B N num_heads d Hq) as (q4 & -> & Hq4 & Hqs).
  destruct (head_split_spec k B N num_heads d Hk) as (k4 & -> & Hk4 & Hks).
  destruct (head_split_spec v B N num_heads d Hv) as (v4 & -> & Hv4 & Hvs).
  cbn [mbind result_bind].
  unfold scaled_dot_product_attention. rewrite Hsdpa, Hq4, Hk4, Hv4.
  cbn [negb]. rewrite bool_decide_eq_true_2 by done.
  assert (match attn_mask with
          | Some m => negb is_causal
                      && broadcastable (shape m) [B; num_heads; N; N]
          | None => true
          end = true) as ->.
  { destruct attn_mask as [m|]; [|done]. destruct Hmask as [-> ->]. done. }
  cbn [andb mbind result_bind].
  match goal with
  | |- context [permute ?t _] =>
      destruct (permute_0213 t B num_heads N d) as (x & -> & Hx & Hxdata);
        [done|]
  end.
  cbn [mbind result_bind].
  rewrite reshape_Ok by (rewrite Hx; unfold numel; cbn [foldr]; clear; lia).
  eexists. split; [done|].
  split; [cbn [shape]; by rewrite HC, (Nat.mul_comm d)|].
  intros b n c Hb Hn Hc. cbn [data]. rewrite Hx.
  rewrite merge_last_axes_index by lia. rewrite Hxdata. cbn [data].
  assert (c / d < num_heads)%nat
    by (apply Nat.Div0.div_lt_upper_bound; lia).
  by rewrite Hqs, Hks, Hvs by done.
Qed.

Section tolerance.
Variable approx : relation scalar.
Hypothesis approx_refl : Reflexive approx.

Lemma result_approx_bind (r1 r2 : result tensor)
    (f g : tensor → result tensor) :
  result_approx approx r1 r2 →
  (∀ x y, tensor_approx approx x y → result_approx approx (f x) (g y)) →
  result_approx approx (r1 ≫= f) (r2 ≫= g).
Proof.
  destruct r1 as [x|e1], r2 as [y|e2]; cbn; try done. intros Hxy Hfg.
  by apply Hfg.
Qed.

Lemma permute_approx (x y : tensor) dims :
  tensor_approx approx x y →
  result_approx approx (permute x dims) (permute y dims).
Proof.
  intros [Hs Hd]. unfold permute. rewrite Hs.
  case_bool_decide; [|done]. split; cbn; [done|]. intros idx. apply Hd.
Qed.

Lemma reshape_approx (x y : tensor) s :
  tensor_approx approx x y →
  result_approx approx (reshape x s) (reshape y s).
Proof.
  intros [Hs Hd]. unfold reshape. rewrite Hs.
  case_decide; [|done]. split; cbn; [done|]. intros idx. apply Hd.
Qed.

Lemma attention_approx ctx ctx' q k v attn_mask dropout_p is_causal :
  kernel_tolerance approx →
  result_approx approx
    (scaled_dot_product_attention ctx q k v attn_mask dropout_p is_causal)
    (scaled_dot_product_attention (H0 := pin_context ctx') ctx q k v
       attn_mask dropout_p is_causal).
Proof.
  intros Htol. unfold scaled_dot_product_attention. cbn [pin_context
    has_scaled_dot_product_attention attention_slice].
  destruct has_scaled_dot_product_attention; cbn [negb]; [|done].
  destruct (shape q) as [|B [|Hq [|L [|E [|]]]]]; try done.
  destruct (shape k) as [|Bk [|Hk [|Sk [|Ek [|]]]]]; try done.
  destruct (shape v) as [|Bv [|Hv [|Sv [|Ev [|]]]]]; try done.
  match goal with |- context [if ?c then _ else _] => destruct c end;
    [|done].
  split; cbn; [done|]. intros idx.
  destruct idx as [|b [|h [|i [|j [|]]]]]; try apply approx_refl.
  pose proof (Htol ctx ctx' attn_mask dropout_p is_causal b h
                (slice q b h L E) (slice k b h Sk E) (slice v b h Sk Ev))
    as Hrows.
  unfold matrix in *.
  destruct (proj1 (Forall2_lookup _ _ _) Hrows i) as [row row' Hrow|]; cbn;
    [|apply approx_refl].
  destruct (proj1 (Forall2_lookup _ _ _) Hrow j); cbn;
    [done|apply approx_refl].
Qed.

(** Under that promise, the result of [sliced_sdp] is the same, up to the
    tolerance, whatever context the kernel is run in. *)
Lemma sliced_sdp_context_tolerance ctx' q k v num_heads attn_mask dropout_p
    is_causal :
  kernel_tolerance approx →
  result_approx approx
    (sliced_sdp q k v num_heads attn_mask dropout_p is_causal)
    (sliced_sdp (H0 := pin_context ctx') q k v num_heads attn_mask dropout_p
       is_causal).
Proof.
  intros Htol. unfold sliced_sdp.
  destruct (shape q) as [|B [|N [|C [|]]]]; try done.
  destruct (py_mod C num_heads) as [r|]; [|done]. cbn [mbind result_bind].
  destruct (py_assert _) as [[]|]; [|done]. cbn [mbind result_bind].
  destruct (py_floordiv C num_heads) as [d|]; [|done].
  cbn [mbind result_bind].
  destruct (view q _ ≫= _) as [q4|]; [|done]. cbn [mbind result_bind].
  destruct (view k _ ≫= _) as [k4|]; [|done]. cbn [mbind result_bind].
  destruct (view v _ ≫= _) as [v4|]; [|done]. cbn [mbind result_bind].
  apply result_approx_bind.
  { apply attention_approx, Htol. }
  intros x y Hxy. apply result_approx_bind.
  { by apply permute_approx. }
  intros x' y' Hxy'. by apply reshape_approx.
Qed.

End tolerance.

(** C2, as the code has it: [sliced_sdp] checks the divisibility itself.
    For every query of shape (B, N, C) and every non-zero head count that
    does not divide C, the call raises the assertion failure of its second
    line, before any tensor is touched. *)
Theorem sliced_sdp_checks_divisibility q k v num_heads attn_mask dropout_p
    is_causal B N C :
  shape q = [B; N; C] → num_heads ≠ 0%nat → (C mod num_heads ≠ 0)%nat →
  sliced_sdp q k v num_heads attn_mask dropout_p is_causal
  = Raise AssertionError.
Proof.
  intros Hq Hh Hmod. unfold sliced_sdp. rewrite Hq, py_mod_Ok by done.
  cbn [mbind result_bind]. by rewrite (bool_decide_eq_false_2 _ Hmod).
Qed.

(** C5: [CrossMHA.forward] compares the two shapes first and raises the
    assertion failure whenever they differ, for instance for a query of
    shape (4, 9, 32) against a key/value source of shape (4, 10, 32). *)
Theorem CrossMHA_forward_shape_mismatch self q kv attn_mask dropout_p
    is_causal :
  shape q ≠ shape kv →
  CrossMHA.forward self q kv attn_mask dropout_p is_causal
  = Raise AssertionError.
Proof.
  intros Hne. unfold CrossMHA.forward.
  case_bool_decide; [contradiction|reflexivity].
Qed.

End attention_facts.

Section backend_facts.
Context `{Torch}.



End backend_facts.

Section MHA_facts.
Context `{Torch}.

Lemma MHA_init_Ok embed_dim num_heads d qkv_weights head_weights :
  has_scaled_dot_product_attention = true →
  (match d with
   | Some _ => True
   | None => num_heads ≠ 0 ∧ embed_dim mod num_heads = 0
   end)%nat →
  MHA.__init__ embed_dim num_heads d qkv_weights head_weights
  = let qkv_dim := default (embed_dim / num_heads)%nat d in
    Ok {| MHA.qkv_dim := qkv_dim;
          MHA.num_heads := num_heads;
          MHA.qkv_proj := {| in_features := embed_dim;
                             out_features := (qkv_dim * num_heads * 3)%nat;
                             affine := qkv_weights |};
          MHA.head_proj := {| in_features := (qkv_dim * num_heads)%nat;
                              out_features := embed_dim;
                              affine := head_weights |} |}.
Proof.
  intros Hsdpa Hd. unfold MHA.__init__. rewrite Hsdpa. cbn [py_assert mbind result_bind].
  destruct d as [d|]; [done|]. destruct Hd as [Hh Hmod].
  rewrite py_mod_Ok, py_floordiv_Ok by done. cbn [mbind result_bind].
  by rewrite Hmod.
Qed.

Lemma MHA_init_Raise embed_dim num_heads qkv_weights head_weights :
  has_scaled_dot_product_attention = true →
  ¬ (num_heads ≠ 0 ∧ embed_dim mod num_heads = 0)%nat →
  ∃ e, MHA.__init__ embed_dim num_heads None qkv_weights head_weights = Raise e
       ∧ (num_heads ≠ 0%nat → e = AssertionError).
Proof.
  intros Hsdpa Hd. unfold MHA.__init__. rewrite Hsdpa. cbn [py_assert mbind result_bind].
  unfold py_mod. case_decide as Hh; [by eexists|]. cbn [mbind result_bind].
  rewrite bool_decide_eq_false_2 by tauto. by eexists.
Qed.

Lemma MHA_init_inv embed_dim num_heads d qkv_weights head_weights m :
  MHA.__init__ embed_dim num_heads d qkv_weights head_weights = Ok m →
  has_scaled_dot_product_attention = true
  ∧ (d = None → num_heads ≠ 0 ∧ embed_dim mod num_heads = 0)%nat
  ∧ MHA.num_heads m = num_heads
  ∧ in_features (MHA.qkv_proj m) = embed_dim
  ∧ out_features (MHA.qkv_proj m)
    = (MHA.qkv_dim m * MHA.num_heads m * 3)%nat
  ∧ in_features (MHA.head_proj m) = (MHA.qkv_dim m * MHA.num_heads m)%nat
  ∧ out_features (MHA.head_proj m) = embed_dim.
Proof.
  unfold MHA.__init__. destruct has_scaled_dot_product_attention; [|done].
  cbn [py_assert mbind result_bind]. destruct d as [d|].
  - intros [= <-]. by split_and!.
  - unfold py_mod, py_floordiv. case_decide as Hh; [done|].
    cbn [mbind result_bind]. case_bool_decide as Hmod; [|done].
    cbn [py_assert mbind result_bind]. intros [= <-]. by split_and!.
Qed.

(** [MHA.forward] keeps the shape of a (batch, tokens, embed_dim) input. *)
Lemma MHA_forward_shape (m : MHA.t) x attn_mask dropout_p is_causal B N E :
  has_scaled_dot_product_attention = true →
  in_features (MHA.qkv_proj m) = E →
  out_features (MHA.qkv_proj m) = (MHA.qkv_dim m * MHA.num_heads m * 3)%nat →
  in_features (MHA.head_proj m) = (MHA.qkv_dim m * MHA.num_heads m)%nat →
  out_features (MHA.head_proj m) = E →
  (MHA.qkv_dim m * MHA.num_heads m ≠ 0)%nat →
  shape x = [B; N; E] →
  mask_ok attn_mask is_causal [B; MHA.num_heads m; N; N] →
  ∃ y, MHA.forward m x attn_mask dropout_p is_causal = Ok y
       ∧ shape y = [B; N; E].
Proof.
  intros Hsdpa Hqi Hqo Hhi Hho HD Hx Hmask. unfold MHA.forward.
  destruct (Linear_forward_spec (MHA.qkv_proj m) x B N E)
    as (qkv & -> & Hqkv); [done..|].
  cbn [mbind result_bind]. rewrite Hqo in Hqkv.
  destruct (split_three qkv B N _ Hqkv HD)
    as (q & k & v & -> & Hq & Hk & Hv & _).
  cbn [mbind result_bind].
  destruct (sliced_sdp_spec q k v (MHA.num_heads m) attn_mask dropout_p
              is_causal B N _ Hsdpa Hq Hk Hv) as (y & -> & Hy & _);
    [lia|apply Nat.Div0.mod_mul|done|].
  cbn [mbind result_bind].
  destruct (Linear_forward_spec (MHA.head_proj m) y B N _ Hy)
    as (z & -> & Hz); [done|].
  exists z. by rewrite Hz, Hho.
Qed.

(** C4: in an environment that provides scaled-dot-product attention,
    constructing an MHA raises exactly when no [qkv_dim] is given and
    [embed_dim % num_heads == 0] does not hold.  MHA(64, 7) raises the
    assertion failure, MHA(64, 7, qkv_dim=d) succeeds for every d, and
    MHA(64, 8) succeeds and maps an input of shape (2, 16, 64) to an
    output of shape (2, 16, 64). *)
Theorem MHA_construction_fails_iff_indivisible :
  has_scaled_dot_product_attention = true →
  (∀ embed_dim num_heads qkv_dim qkv_weights head_weights,
     (∃ e, MHA.__init__ embed_dim num_heads qkv_dim qkv_weights head_weights
           = Raise e)
     ↔ qkv_dim = None ∧ ¬ (num_heads ≠ 0 ∧ embed_dim mod num_heads = 0)%nat)
  ∧ (∀ qkv_weights head_weights,
       MHA.__init__ 64 7 None qkv_weights head_weights
       = Raise AssertionError)
  ∧ (∀ d qkv_weights head_weights,
       is_Ok (MHA.__init__ 64 7 (Some d) qkv_weights head_weights))
  ∧ (∀ qkv_weights head_weights,
       ∃ m, MHA.__init__ 64 8 None qkv_weights head_weights = Ok m
            ∧ ∀ x dropout_p, shape x = [2; 16; 64]%nat →
                ∃ y, MHA.forward m x None dropout_p false = Ok y
                     ∧ shape y = [2; 16; 64]%nat).
Proof.
  intros Hsdpa. split_and!.
  - intros embed_dim num_heads d wq wh. split.
    + intros [e He]. destruct d as [d|].
      * by rewrite MHA_init_Ok in He.
      * split; [done|]. intros Hdiv. by rewrite MHA_init_Ok in He.
    + intros [-> Hdiv].
      destruct (MHA_init_Raise embed_dim num_heads wq wh Hsdpa Hdiv)
        as (e & He & _). eauto.
  - intros wq wh.
    destruct (MHA_init_Raise 64 7 wq wh Hsdpa) as (e & -> & He).
    + intros [_ ?]. done.
    + by rewrite He.
  - intros d wq wh. by rewrite MHA_init_Ok.
  - intros wq wh. rewrite MHA_init_Ok by done. eexists. split; [done|].
    intros x p Hx. by apply MHA_forward_shape.
Qed.

End MHA_facts.

(** ** The windowed wrappers keep the shape *)

Section window_facts.
Context `{Torch}.

Lemma norm_ok_apply (layer_norm : option (tensor → result tensor)) x :
  norm_ok layer_norm →
  ∃ y, match layer_norm with
       | Some norm => norm x
       | None => Ok x
       end = Ok y ∧ shape y = shape x.
Proof. destruct layer_norm as [f|]; [intros Hf; apply Hf|by eexists]. Qed.

Lemma WindowMHA2d_forward_shape in_channels num_heads window_size qkv_dim
    qkv_weights head_weights self x attn_mask layer_norm B H' W :
  WindowMHA2d.__init__ in_channels num_heads window_size qkv_dim
    qkv_weights head_weights = Ok self →
  let wh := (window_pair window_size).1 in
  let ww := (window_pair window_size).2 in
  shape x = [B; in_channels; H'; W] →
  wh ≠ 0%nat → ww ≠ 0%nat → (H' mod wh = 0)%nat → (W mod ww = 0)%nat →
  num_heads ≠ 0%nat → qkv_dim ≠ Some 0%nat → in_channels ≠ 0%nat →
  norm_ok layer_norm →
  mask_ok attn_mask false
    [(B * (H' / wh) * (W / ww))%nat; num_heads; (wh * ww)%nat; (wh * ww)%nat] →
  ∃ y, WindowMHA2d.forward self x attn_mask layer_norm = Ok y
       ∧ shape y = shape x.
Proof.
  intros Hinit wh ww Hx Hwh Hww Hh Hw Hheads Hqkv Hin Hnorm Hmask.
  unfold WindowMHA2d.__init__ in Hinit.
  destruct (MHA.__init__ _ _ _ _ _) as [m|] eqn:Hm; [|done].
  cbn [mbind result_bind] in Hinit. injection Hinit as <-.
  pose proof Hm as Hm'.
  apply MHA_init_inv in Hm' as (Hsdpa & Hdiv & Hnh & Hqi & Hqo & Hhi & Hho).
  assert (MHA.qkv_dim m ≠ 0)%nat as Hd0.
  { rewrite MHA_init_Ok in Hm.
    - injection Hm as <-. cbn. destruct qkv_dim as [d|]; cbn; [congruence|].
      destruct Hdiv as [_ Hdiv]; [done|].
      apply Nat.Div0.div_exact in Hdiv. intros Hz. rewrite Hz in Hdiv. lia.
    - done.
    - destruct qkv_dim; [done|]. by apply Hdiv. }
  unfold WindowMHA2d.forward. cbn [WindowMHA2d.window_size WindowMHA2d.mha].
  destruct (window_pair window_size) as [wh' ww'] eqn:Hws.
  cbn [fst snd] in wh, ww. subst wh ww.
  rewrite (bchw_to_bnc_Ok x B in_channels H' W wh' ww') by done.
  cbn [mbind result_bind].
  edestruct (norm_ok_apply layer_norm) as (x1 & -> & Hx1); [done|].
  cbn [mbind result_bind]. cbn [shape] in Hx1.
  edestruct (MHA_forward_shape m x1 attn_mask 0%Q false) as (x2 & -> & Hx2);
    [exact Hsdpa|exact Hqi|exact Hqo|exact Hhi|exact Hho|rewrite Hnh; lia
    |exact Hx1|by rewrite Hnh|].
  cbn [mbind result_bind]. rewrite Hx.
  rewrite (bnc_to_bchw_Ok x2 B in_channels H' W wh' ww') by done.
  by eexists.
Qed.

Lemma CrossMHA_init_inv embed_dim num_heads d q_weights kv_weights
    head_weights m :
  CrossMHA.__init__ embed_dim num_heads d q_weights kv_weights head_weights
  = Ok m →
  has_scaled_dot_product_attention = true
  ∧ CrossMHA.qkv_dim m = default (embed_dim / num_heads)%nat d
  ∧ (d = None → num_heads ≠ 0 ∧ embed_dim mod num_heads = 0)%nat
  ∧ CrossMHA.num_heads m = num_heads
  ∧ in_features (CrossMHA.q_proj m) = embed_dim
  ∧ out_features (CrossMHA.q_proj m)
    = (CrossMHA.qkv_dim m * CrossMHA.num_heads m)%nat
  ∧ in_features (CrossMHA.kv_proj m) = embed_dim
  ∧ out_features (CrossMHA.kv_proj m)
    = (CrossMHA.qkv_dim m * CrossMHA.num_heads m * 2)%nat
  ∧ in_features (CrossMHA.head_proj m)
    = (CrossMHA.qkv_dim m * CrossMHA.num_heads m)%nat
  ∧ out_features (CrossMHA.head_proj m) = embed_dim.
Proof.
  unfold CrossMHA.__init__.
  destruct has_scaled_dot_product_attention; [|done].
  cbn [py_assert mbind result_bind]. destruct d as [d|].
  - intros [= <-]. by split_and!.
  - unfold py_mod, py_floordiv. case_decide as Hh; [done|].
    cbn [mbind result_bind]. case_bool_decide as Hmod; [|done].
    cbn [py_assert mbind result_bind]. intros [= <-]. by split_and!.
Qed.

(** [CrossMHA.forward] keeps the shape of its two equally shaped inputs. *)
Lemma CrossMHA_forward_shape (m : CrossMHA.t) q kv attn_mask dropout_p
    is_causal B N E :
  has_scaled_dot_product_attention = true →
  in_features (CrossMHA.q_proj m) = E →
  out_features (CrossMHA.q_proj m)
  = (CrossMHA.qkv_dim m * CrossMHA.num_heads m)%nat →
  in_features (CrossMHA.kv_proj m) = E →
  out_features (CrossMHA.kv_proj m)
  = (CrossMHA.qkv_dim m * CrossMHA.num_heads m * 2)%nat →
  in_features (CrossMHA.head_proj m)
  = (CrossMHA.qkv_dim m * CrossMHA.num_heads m)%nat →
  out_features (CrossMHA.head_proj m) = E →
  (CrossMHA.qkv_dim m * CrossMHA.num_heads m ≠ 0)%nat →
  shape q = [B; N; E] → shape kv = [B; N; E] →
  mask_ok attn_mask is_causal [B; CrossMHA.num_heads m; N; N] →
  ∃ y, CrossMHA.forward m q kv attn_mask dropout_p is_causal = Ok y
       ∧ shape y = [B; N; E].
Proof.
  intros Hsdpa Hqi Hqo Hki Hko Hhi Hho HD Hq Hkv Hmask.
  unfold CrossMHA.forward.
  rewrite bool_decide_eq_true_2 by congruence.
  cbn [py_assert mbind result_bind].
  destruct (Linear_forward_spec (CrossMHA.q_proj m) q B N E)
    as (q' & -> & Hq'); [done..|].
  cbn [mbind result_bind]. rewrite Hqo in Hq'.
  destruct (Linear_forward_spec (CrossMHA.kv_proj m) kv B N E)
    as (kvp & -> & Hkvp); [done..|].
  cbn [mbind result_bind]. rewrite Hko in Hkvp.
  destruct (split_two kvp B N _ Hkvp HD) as (k & v & -> & Hk & Hv & _).
  cbn [mbind result_bind].
  destruct (sliced_sdp_spec q' k v (CrossMHA.num_heads m) attn_mask dropout_p
              is_causal B N _ Hsdpa Hq' Hk Hv) as (y & -> & Hy & _);
    [lia|apply Nat.Div0.mod_mul|done|].
  cbn [mbind result_bind].
  destruct (Linear_forward_spec (CrossMHA.head_proj m) y B N _ Hy)
    as (z & -> & Hz); [done|].
  exists z. by rewrite Hz, Hho.
Qed.

Lemma WindowCrossMHA2d_forward_shape in_channels num_heads window_size
    qkv_dim q_weights kv_weights head_weights self x1 x2 attn_mask
    layer_norm1 layer_norm2 B H' W :
  WindowCrossMHA2d.__init__ in_channels num_heads window_size qkv_dim
    q_weights kv_weights head_weights = Ok self →
  let wh := (window_pair window_size).1 in
  let ww := (window_pair window_size).2 in
  shape x1 = [B; in_channels; H'; W] → shape x2 = shape x1 →
  wh ≠ 0%nat → ww ≠ 0%nat → (H' mod wh = 0)%nat → (W mod ww = 0)%nat →
  num_heads ≠ 0%nat → qkv_dim ≠ Some 0%nat → in_channels ≠ 0%nat →
  norm_ok layer_norm1 → norm_ok layer_norm2 →
  mask_ok attn_mask false
    [(B * (H' / wh) * (W / ww))%nat; num_heads; (wh * ww)%nat; (wh * ww)%nat] →
  ∃ y, WindowCrossMHA2d.forward self x1 x2 attn_mask layer_norm1 layer_norm2
       = Ok y
       ∧ shape y = shape x1.
Proof.
  intros Hinit wh ww Hx1 Hx2 Hwh Hww Hh Hw Hheads Hqkv Hin Hn1 Hn2 Hmask.
  rewrite Hx1 in Hx2.
  unfold WindowCrossMHA2d.__init__ in Hinit.
  destruct (CrossMHA.__init__ _ _ _ _ _ _) as [m|] eqn:Hm; [|done].
  cbn [mbind result_bind] in Hinit. injection Hinit as <-.
  apply CrossMHA_init_inv in Hm
    as (Hsdpa & Hd & Hdiv & Hnh & Hqi & Hqo & Hki & Hko & Hhi & Hho).
  assert (CrossMHA.qkv_dim m ≠ 0)%nat as Hd0.
  { rewrite Hd. destruct qkv_dim as [d|]; cbn; [congruence|].
    destruct Hdiv as [_ Hdiv]; [done|].
    apply Nat.Div0.div_exact in Hdiv. intros Hz. rewrite Hz in Hdiv. lia. }
  unfold WindowCrossMHA2d.forward.
  cbn [WindowCrossMHA2d.window_size WindowCrossMHA2d.mha].
  destruct (window_pair window_size) as [wh' ww'] eqn:Hws.
  cbn [fst snd] in wh, ww. subst wh ww.
  rewrite (bchw_to_bnc_Ok x1 B in_channels H' W wh' ww') by done.
  cbn [mbind result_bind].
  rewrite (bchw_to_bnc_Ok x2 B in_channels H' W wh' ww') by done.
  cbn [mbind result_bind].
  edestruct (norm_ok_apply layer_norm1) as (y1 & -> & Hy1); [done|].
  cbn [mbind result_bind]. cbn [shape] in Hy1.
  edestruct (norm_ok_apply layer_norm2) as (y2 & -> & Hy2); [done|].
  cbn [mbind result_bind]. cbn [shape] in Hy2.
  edestruct (CrossMHA_forward_shape m y1 y2 attn_mask 0%Q false)
    as (y & -> & Hy);
    [exact Hsdpa|exact Hqi|exact Hqo|exact Hki|exact Hko|exact Hhi|exact Hho
    |rewrite Hnh; lia|exact Hy1|exact Hy2|by rewrite Hnh|].
  cbn [mbind result_bind]. rewrite Hx1.
  rewrite (bnc_to_bchw_Ok y B in_channels H' W wh' ww') by done.
  by eexists.
Qed.

End window_facts.

(** ** OverlapWindowMHA2d *)

Section overlap_facts.
Context `{Torch}.

Lemma Overlap_init_inv in_channels num_heads window_size d qkv_weights
    head_weights self :
  OverlapWindowMHA2d.__init__ in_channels num_heads window_size d
    qkv_weights head_weights = Ok self →
  let D := (OverlapWindowMHA2d.qkv_dim self
            * OverlapWindowMHA2d.num_heads self)%nat in
  OverlapWindowMHA2d.window_size self = window_pair window_size
  ∧ OverlapWindowMHA2d.pad_h self = ((window_pair window_size).1 / 2)%nat
  ∧ OverlapWindowMHA2d.pad_w self = ((window_pair window_size).2 / 2)%nat
  ∧ OverlapWindowMHA2d.num_heads self = num_heads
  ∧ OverlapWindowMHA2d.qkv_dim self = default (in_channels / num_heads)%nat d
  ∧ (d = None → num_heads ≠ 0 ∧ in_channels mod num_heads = 0)%nat
  ∧ in_features (OverlapWindowMHA2d.qkv_proj self) = in_channels
  ∧ out_features (OverlapWindowMHA2d.qkv_proj self) = (D * 3)%nat
  ∧ in_features (OverlapWindowMHA2d.head_proj self) = D
  ∧ out_features (OverlapWindowMHA2d.head_proj self) = in_channels.
Proof.
  unfold OverlapWindowMHA2d.__init__. destruct d as [d|].
  - intros [= <-]. by split_and!.
  - unfold py_mod, py_floordiv. case_decide as Hh; [done|].
    cbn [mbind result_bind]. case_bool_decide as Hmod; [|done].
    cbn [py_assert mbind result_bind]. intros [= <-]. by split_and!.
Qed.

Lemma head_rows_ext (x y : tensor) b h rows d :
  (∀ i j, (i < rows)%nat → (j < d)%nat →
          data x [b; i; (h * d + j)%nat] = data y [b; i; (h * d + j)%nat]) →
  head_rows x b h rows d = head_rows y b h rows d.
Proof.
  intros Hxy. unfold head_rows. apply Forall_fmap_ext, Forall_seq. intros i Hi.
  apply Forall_fmap_ext, Forall_seq. intros j Hj. apply Hxy; lia.
Qed.

(** Attention over the windows of a partitioned feature map: the result
    has one row of width [qkv_dim * num_heads] per token. *)
Lemma forward_mha_shape (self : OverlapWindowMHA2d.t) x attn_mask B N :
  let D := (OverlapWindowMHA2d.qkv_dim self
            * OverlapWindowMHA2d.num_heads self)%nat in
  has_scaled_dot_product_attention = true →
  shape x = [B; N; (D * 3)%nat] → D ≠ 0%nat →
  mask_ok attn_mask false [B; OverlapWindowMHA2d.num_heads self; N; N] →
  ∃ y, OverlapWindowMHA2d.forward_mha self x attn_mask = Ok y
       ∧ shape y = [B; N; D].
Proof.
  intros D Hsdpa Hx HD Hmask. subst D.
  unfold OverlapWindowMHA2d.forward_mha.
  destruct (split_three x B N _ Hx HD) as (q & k & v & -> & Hq & Hk & Hv & _).
  cbn [mbind result_bind].
  destruct (sliced_sdp_spec q k v (OverlapWindowMHA2d.num_heads self)
              attn_mask 0%Q false B N _ Hsdpa Hq Hk Hv) as (y & -> & Hy & _);
    [lia|apply Nat.Div0.mod_mul|done|].
  by exists y.
Qed.

(** Attention never crosses a window: window [b] of the result is
    determined by window [b] of the input. *)
Lemma forward_mha_local (self : OverlapWindowMHA2d.t) x x' attn_mask B N b
    y y' :
  let D := (OverlapWindowMHA2d.qkv_dim self
            * OverlapWindowMHA2d.num_heads self)%nat in
  has_scaled_dot_product_attention = true →
  shape x = [B; N; (D * 3)%nat] → shape x' = [B; N; (D * 3)%nat] →
  D ≠ 0%nat →
  mask_ok attn_mask false [B; OverlapWindowMHA2d.num_heads self; N; N] →
  (b < B)%nat →
  (∀ t c, (t < N)%nat → (c < D * 3)%nat →
          data x [b; t; c] = data x' [b; t; c]) →
  OverlapWindowMHA2d.forward_mha self x attn_mask = Ok y →
  OverlapWindowMHA2d.forward_mha self x' attn_mask = Ok y' →
  ∀ t c, (t < N)%nat → (c < D)%nat → data y [b; t; c] = data y' [b; t; c].
Proof.
  intros D0 Hsdpa Hx Hx' HD Hmask Hb Hagree. subst D0.
  unfold OverlapWindowMHA2d.forward_mha.
  assert (OverlapWindowMHA2d.num_heads self ≠ 0)%nat as Hh by lia.
  remember (OverlapWindowMHA2d.qkv_dim self
            * OverlapWindowMHA2d.num_heads self)%nat as D eqn:HDeq.
  assert (D mod OverlapWindowMHA2d.num_heads self = 0)%nat as Hmod
    by (subst D; apply Nat.Div0.mod_mul).
  clear HDeq.
  destruct (split_three x B N D Hx HD)
    as (q & k & v & -> & Hq & Hk & Hv & Hqkv).
  destruct (split_three x' B N D Hx' HD)
    as (q' & k' & v' & -> & Hq' & Hk' & Hv' & Hqkv').
  cbn [mbind result_bind].
  destruct (sliced_sdp_spec q k v _ attn_mask 0%Q false B N D
              Hsdpa Hq Hk Hv Hh Hmod Hmask) as (y0 & -> & _ & Hy0).
  destruct (sliced_sdp_spec q' k' v' _ attn_mask 0%Q false B N D
              Hsdpa Hq' Hk' Hv' Hh Hmod Hmask) as (y0' & -> & _ & Hy0').
  intros [= <-] [= <-] t c Ht Hc.
  rewrite Hy0, Hy0' by done. cbv zeta.
  set (d := (D / OverlapWindowMHA2d.num_heads self)%nat).
  assert (D = OverlapWindowMHA2d.num_heads self * d)%nat as HDd
    by by apply Nat.Div0.div_exact.
  assert (c / d < OverlapWindowMHA2d.num_heads self)%nat as Hhd
    by (apply Nat.Div0.div_lt_upper_bound; lia).
  assert (∀ j, j < d → c / d * d + j < D)%nat as Hin by (intros; nia).
  rewrite (head_rows_ext q q'), (head_rows_ext k k'), (head_rows_ext v v');
    [done|..]; intros i j Hi Hj; specialize (Hin j Hj).
  - destruct (Hqkv b i (c / d * d + j)%nat) as (_ & _ & ->).
    destruct (Hqkv' b i (c / d * d + j)%nat) as (_ & _ & ->).
    apply Hagree; lia.
  - destruct (Hqkv b i (c / d * d + j)%nat) as (_ & -> & _).
    destruct (Hqkv' b i (c / d * d + j)%nat) as (_ & -> & _).
    apply Hagree; lia.
  - destruct (Hqkv b i (c / d * d + j)%nat) as (-> & _ & _).
    destruct (Hqkv' b i (c / d * d + j)%nat) as (-> & _ & _).
    apply Hagree; lia.
Qed.

(** For windows whose extents are even (or 1), [forward] returns a tensor
    of the shape of its input. *)
Lemma Overlap_forward_shape in_channels num_heads window_size qkv_dim
    qkv_weights head_weights self x attn_mask layer_norm B H' W :
  OverlapWindowMHA2d.__init__ in_channels num_heads window_size qkv_dim
    qkv_weights head_weights = Ok self →
  let wh := (window_pair window_size).1 in
  let ww := (window_pair window_size).2 in
  let N := (wh * ww)%nat in
  has_scaled_dot_product_attention = true →
  shape x = [B; in_channels; H'; W] →
  wh ≠ 0%nat → ww ≠ 0%nat → (H' mod wh = 0)%nat → (W mod ww = 0)%nat →
  ((2 * (wh / 2)) mod wh = 0)%nat → ((2 * (ww / 2)) mod ww = 0)%nat →
  num_heads ≠ 0%nat → qkv_dim ≠ Some 0%nat → in_channels ≠ 0%nat →
  norm_ok layer_norm →
  mask_ok attn_mask false
    [(B * (H' / wh) * (W / ww))%nat; num_heads; N; N] →
  mask_ok attn_mask false
    [(B * ((H' + 2 * (wh / 2)) / wh) * ((W + 2 * (ww / 2)) / ww))%nat;
     num_heads; N; N] →
  ∃ y, OverlapWindowMHA2d.forward self x attn_mask layer_norm = Ok y
       ∧ shape y = shape x.
Proof.
  intros Hinit wh ww N Hsdpa Hx Hwh Hww Hh Hw Hch Hcw Hheads Hqkv Hin Hnorm
    Hm1 Hm2.
  apply Overlap_init_inv in Hinit
    as (Hws & Hph & Hpw & Hnh & Hd & Hdiv & Hqi & Hqo & Hhi & Hho).
  destruct (window_pair window_size) as [wh' ww'] eqn:Hwp.
  cbn [fst snd] in *. subst wh ww N.
  assert (OverlapWindowMHA2d.qkv_dim self ≠ 0)%nat as Hd0.
  { rewrite Hd. destruct qkv_dim as [d|]; cbn; [congruence|].
    destruct Hdiv as [_ Hdiv]; [done|].
    apply Nat.Div0.div_exact in Hdiv. intros Hz. rewrite Hz in Hdiv. lia. }
  remember (OverlapWindowMHA2d.qkv_dim self
            * OverlapWindowMHA2d.num_heads self)%nat as D eqn:HD.
  assert (D ≠ 0)%nat as HD0 by (subst D; rewrite Hnh; lia).
  set (H2 := (H' + 2 * (wh' / 2))%nat).
  set (W2 := (W + 2 * (ww' / 2))%nat).
  assert (H2 mod wh' = 0)%nat as Hh2
    by (unfold H2; by rewrite <-Nat.Div0.add_mod_idemp_l, Hh).
  assert (W2 mod ww' = 0)%nat as Hw2
    by (unfold W2; by rewrite <-Nat.Div0.add_mod_idemp_l, Hw).
  unfold OverlapWindowMHA2d.forward.
  rewrite Hws, Hph, Hpw.
  destruct (channel_last_norm layer_norm x B in_channels H' W Hnorm Hx)
    as (x0 & -> & Hx0).
  cbn [mbind result_bind].
  rewrite (Conv2d_forward_Ok _ x0 B in_channels H' W Hx0) by done.
  rewrite Hqo. bind_result qkv.
  rewrite (pad_Ok qkv B (D * 3) H' W); [|done|lia..].
  replace (Z.to_nat (Z.of_nat H' + Z.of_nat (wh' / 2) + Z.of_nat (wh' / 2)))
    with H2 by lia.
  replace (Z.to_nat (Z.of_nat W + Z.of_nat (ww' / 2) + Z.of_nat (ww' / 2)))
    with W2 by lia.
  bind_result padded. cbn [shape].
  rewrite (bchw_to_bnc_Ok qkv B (D * 3) H' W wh' ww') by done.
  bind_result p1.
  rewrite (bchw_to_bnc_Ok padded B (D * 3) H2 W2 wh' ww') by done.
  bind_result p2.
  destruct (forward_mha_shape self p1 attn_mask (B * (H' / wh') * (W / ww'))
              (wh' * ww')) as (y1 & -> & Hy1);
    [exact Hsdpa|by rewrite <-HD|by rewrite <-HD|by rewrite Hnh|].
  cbn [mbind result_bind].
  destruct (forward_mha_shape self p2 attn_mask (B * (H2 / wh') * (W2 / ww'))
              (wh' * ww')) as (y2 & -> & Hy2);
    [exact Hsdpa|by rewrite <-HD|by rewrite <-HD|by rewrite Hnh|].
  cbn [mbind result_bind]. rewrite <-HD in Hy1, Hy2.
  unfold OverlapWindowMHA2d.overlap_out_shape. rewrite Hy1, Hy2.
  change (shape qkv) with [B; (D * 3)%nat; H'; W].
  change (shape padded) with [B; (D * 3)%nat; H2; W2].
  cbn [take drop last app default from_option id].
  rewrite (bnc_to_bchw_Ok y1 B D H' W wh' ww') by done.
  bind_result z1.
  rewrite (bnc_to_bchw_Ok y2 B D H2 W2 wh' ww') by done.
  bind_result z2.
  rewrite (pad_Ok z2 B D H2 W2); [|done|lia..].
  replace (Z.to_nat (Z.of_nat H2 + - Z.of_nat (wh' / 2) + - Z.of_nat (wh' / 2)))
    with H' by lia.
  replace (Z.to_nat (Z.of_nat W2 + - Z.of_nat (ww' / 2) + - Z.of_nat (ww' / 2)))
    with W by lia.
  bind_result cropped.
  rewrite (tensor_add_Ok z1 cropped) by done.
  bind_result summed.
  rewrite (Conv2d_forward_Ok _ summed B D H' W) by done.
  eexists. split; [done|]. cbn [shape]. by rewrite Hho, Hx.
Qed.

(** When a window extent is odd and larger than 1, padding by half of it on
    both sides gives an extent that is no multiple of it, and the partition
    of the padded map is refused. *)
Lemma Overlap_forward_odd_window in_channels num_heads window_size qkv_dim
    qkv_weights head_weights self x attn_mask layer_norm B H' W :
  OverlapWindowMHA2d.__init__ in_channels num_heads window_size qkv_dim
    qkv_weights head_weights = Ok self →
  let wh := (window_pair window_size).1 in
  let ww := (window_pair window_size).2 in
  shape x = [B; in_channels; H'; W] →
  wh ≠ 0%nat → ww ≠ 0%nat → (H' mod wh = 0)%nat → (W mod ww = 0)%nat →
  ((2 * (wh / 2)) mod wh ≠ 0 ∨ (2 * (ww / 2)) mod ww ≠ 0)%nat →
  norm_ok layer_norm →
  OverlapWindowMHA2d.forward self x attn_mask layer_norm
  = Raise AssertionError.
Proof.
  intros Hinit wh ww Hx Hwh Hww Hh Hw Hodd Hnorm.
  apply Overlap_init_inv in Hinit
    as (Hws & Hph & Hpw & Hnh & Hd & Hdiv & Hqi & Hqo & Hhi & Hho).
  destruct (window_pair window_size) as [wh' ww'] eqn:Hwp.
  cbn [fst snd] in *. subst wh ww.
  set (H2 := (H' + 2 * (wh' / 2))%nat).
  set (W2 := (W + 2 * (ww' / 2))%nat).
  assert (H2 mod wh' ≠ 0 ∨ W2 mod ww' ≠ 0)%nat as Hodd2.
  { unfold H2, W2.
    rewrite <-(Nat.Div0.add_mod_idemp_l H'), <-(Nat.Div0.add_mod_idemp_l W).
    by rewrite Hh, Hw. }
  unfold OverlapWindowMHA2d.forward.
  rewrite Hws, Hph, Hpw.
  destruct (channel_last_norm layer_norm x B in_channels H' W Hnorm Hx)
    as (x0 & -> & Hx0).
  cbn [mbind result_bind].
  rewrite (Conv2d_forward_Ok _ x0 B in_channels H' W Hx0) by done.
  set (C3 := out_features (OverlapWindowMHA2d.qkv_proj self)).
  bind_result qkv.
  rewrite (pad_Ok qkv B C3 H' W); [|done|lia..].
  replace (Z.to_nat (Z.of_nat H' + Z.of_nat (wh' / 2) + Z.of_nat (wh' / 2)))
    with H2 by lia.
  replace (Z.to_nat (Z.of_nat W + Z.of_nat (ww' / 2) + Z.of_nat (ww' / 2)))
    with W2 by lia.
  bind_result padded. cbn [shape].
  rewrite (bchw_to_bnc_Ok qkv B C3 H' W wh' ww') by done.
  bind_result p1.
  by rewrite (bchw_to_bnc_indivisible padded B C3 H2 W2 wh' ww').
Qed.

Lemma window_index_1x1 b i j H' W :
  (i < H' → j < W →
   let n := (b * H' + i) * W + j in
   n / (H' * W) = b ∧ (n / W) mod H' = i ∧ n mod W = j)%nat.
Proof.
  intros Hi Hj n. subst n.
  assert (((b * H' + i) * W + j) / W = b * H' + i)%nat as HW.
  { rewrite Nat.div_add_l, Nat.div_small by lia. lia. }
  split_and!.
  - replace ((b * H' + i) * W + j)%nat with (b * (H' * W) + (i * W + j))%nat
      by lia.
    rewrite Nat.div_add_l, Nat.div_small by nia. lia.
  - rewrite HW, Nat.add_comm, Nat.Div0.mod_add. by apply Nat.mod_small.
  - rewrite Nat.add_comm, Nat.Div0.mod_add. by apply Nat.mod_small.
Qed.

(** [forward] with 1x1 windows, step by step: both branches partition the
    projected map into one window per position, and the result at a
    position is the output projection of the sum of the two attention
    results for the window of that position. *)
Lemma Overlap_forward_1x1 in_channels num_heads window_size qkv_dim
    qkv_weights head_weights self x attn_mask B H' W :
  OverlapWindowMHA2d.__init__ in_channels num_heads window_size qkv_dim
    qkv_weights head_weights = Ok self →
  window_pair window_size = (1, 1)%nat →
  has_scaled_dot_product_attention = true →
  shape x = [B; in_channels; H'; W] →
  num_heads ≠ 0%nat → qkv_dim ≠ Some 0%nat → in_channels ≠ 0%nat →
  mask_ok attn_mask false [(B * H' * W)%nat; num_heads; 1%nat; 1%nat] →
  let D := (OverlapWindowMHA2d.qkv_dim self
            * OverlapWindowMHA2d.num_heads self)%nat in
  ∃ p1 p2 y1 y2 y,
    OverlapWindowMHA2d.forward_mha self p1 attn_mask = Ok y1
    ∧ OverlapWindowMHA2d.forward_mha self p2 attn_mask = Ok y2
    ∧ OverlapWindowMHA2d.forward self x attn_mask None = Ok y
    ∧ shape y = shape x
    ∧ shape p1 = [(B * H' * W)%nat; 1%nat; (D * 3)%nat]
    ∧ shape p2 = [(B * H' * W)%nat; 1%nat; (D * 3)%nat]
    ∧ D ≠ 0%nat
    ∧ (∀ b i j c, (b < B)%nat → (i < H')%nat → (j < W)%nat →
         let features := (λ c', data x [b; c'; i; j]) <$> seq 0 in_channels in
         let projected :=
           default zero
             (affine (OverlapWindowMHA2d.qkv_proj self) features !! c) in
         data p1 [((b * H' + i) * W + j)%nat; 0%nat; c] = projected
         ∧ data p2 [((b * H' + i) * W + j)%nat; 0%nat; c] = projected)
    ∧ (∀ b o i j, (b < B)%nat → (i < H')%nat → (j < W)%nat →
         data y [b; o; i; j]
         = default zero
             (affine (OverlapWindowMHA2d.head_proj self)
                ((λ c, add (data y1 [((b * H' + i) * W + j)%nat; 0%nat; c])
                           (data y2 [((b * H' + i) * W + j)%nat; 0%nat; c]))
                   <$> seq 0 D) !! o)).
Proof.
  intros Hinit Hwp Hsdpa Hx Hheads Hqkv Hin Hmask D0.
  apply Overlap_init_inv in Hinit
    as (Hws & Hph & Hpw & Hnh & Hd & Hdiv & Hqi & Hqo & Hhi & Hho).
  rewrite Hwp in Hws, Hph, Hpw. cbn [fst snd] in Hph, Hpw.
  change (1 / 2)%nat with 0%nat in Hph, Hpw.
  assert (OverlapWindowMHA2d.qkv_dim self ≠ 0)%nat as Hd0.
  { rewrite Hd. destruct qkv_dim as [d|]; cbn; [congruence|].
    destruct Hdiv as [_ Hdiv]; [done|].
    apply Nat.Div0.div_exact in Hdiv. intros Hz. rewrite Hz in Hdiv. lia. }
  subst D0.
  remember (OverlapWindowMHA2d.qkv_dim self
            * OverlapWindowMHA2d.num_heads self)%nat as D eqn:HD.
  assert (D ≠ 0)%nat as HD0 by (subst D; rewrite Hnh; lia).
  unfold OverlapWindowMHA2d.forward.
  rewrite Hws, Hph, Hpw. cbn [mbind result_bind].
  rewrite (Conv2d_forward_Ok _ x B in_channels H' W Hx) by done.
  rewrite Hqo, Hqi. bind_result qkv.
  rewrite (pad_Ok qkv B (D * 3) H' W); [|done|lia..].
  replace (Z.to_nat (Z.of_nat H' + Z.of_nat 0 + Z.of_nat 0)) with H' by lia.
  replace (Z.to_nat (Z.of_nat W + Z.of_nat 0 + Z.of_nat 0)) with W by lia.
  bind_result padded. cbn [shape].
  rewrite (bchw_to_bnc_Ok qkv B (D * 3) H' W 1 1) by done.
  rewrite !Nat.div_1_r, !Nat.mul_1_r. bind_result p1.
  rewrite (bchw_to_bnc_Ok padded B (D * 3) H' W 1 1) by done.
  rewrite !Nat.div_1_r, !Nat.mul_1_r. bind_result p2.
  destruct (forward_mha_shape self p1 attn_mask (B * H' * W) 1)
    as (y1 & Hy1eq & Hy1);
    [exact Hsdpa|by rewrite <-HD|by rewrite <-HD|by rewrite Hnh|].
  destruct (forward_mha_shape self p2 attn_mask (B * H' * W) 1)
    as (y2 & Hy2eq & Hy2);
    [exact Hsdpa|by rewrite <-HD|by rewrite <-HD|by rewrite Hnh|].
  exists p1, p2, y1, y2. rewrite Hy1eq, Hy2eq. cbn [mbind result_bind].
  rewrite <-HD in Hy1, Hy2.
  unfold OverlapWindowMHA2d.overlap_out_shape. rewrite Hy1, Hy2.
  change (shape qkv) with [B; (D * 3)%nat; H'; W].
  change (shape padded) with [B; (D * 3)%nat; H'; W].
  cbn [take drop last app default from_option id].
  rewrite (bnc_to_bchw_Ok y1 B D H' W 1 1)
    by (rewrite ?Nat.div_1_r; done).
  bind_result z1.
  rewrite (bnc_to_bchw_Ok y2 B D H' W 1 1)
    by (rewrite ?Nat.div_1_r; done).
  bind_result z2.
  rewrite (pad_Ok z2 B D H' W); [|done|lia..].
  replace (Z.to_nat (Z.of_nat H' + - Z.of_nat 0 + - Z.of_nat 0)) with H'
    by lia.
  replace (Z.to_nat (Z.of_nat W + - Z.of_nat 0 + - Z.of_nat 0)) with W by lia.
  bind_result cropped.
  rewrite (tensor_add_Ok z1 cropped) by done.
  bind_result summed.
  rewrite (Conv2d_forward_Ok _ summed B D H' W) by done.
  eexists. split_and!; [done|done|done| |done|done|done| |].
  - cbn [shape]. by rewrite Hho, Hx.
  - intros b i j c Hb Hi Hj. cbv zeta.
    destruct (window_index_1x1 b i j H' W Hi Hj) as (Hn1 & Hn2 & Hn3).
    cbv zeta in Hn1, Hn2, Hn3.
    subst p1 p2. cbn [data].
    rewrite Hn1, Hn2, Hn3. cbn [Nat.div Nat.modulo Nat.divmod fst snd].
    rewrite !Nat.add_0_r, !Nat.mul_1_r.
    split; [done|].
    subst padded. cbn [data]. rewrite decide_True by lia.
    by rewrite !Z.sub_0_r, !Nat2Z.id.
  - intros b o i j Hb Hi Hj. cbn [data]. rewrite Hhi.
    do 3 f_equal. apply Forall_fmap_ext, Forall_seq. intros c Hc.
    subst summed. cbn [data]. f_equal.
    + subst z1. cbn [data]. rewrite !Nat.div_1_r, !Nat.mod_1_r. by cbn.
    + subst cropped. cbn [data]. rewrite decide_True by lia.
      cbn [Z.of_nat Z.opp]. rewrite !Z.sub_0_r, !Nat2Z.id.
      subst z2. cbn [data]. rewrite !Nat.div_1_r, !Nat.mod_1_r. by cbn.
Qed.

Lemma window_number_lt b i j B H' W :
  (b < B → i < H' → j < W → (b * H' + i) * W + j < B * H' * W)%nat.
Proof.
  intros Hb Hi Hj.
  assert (b * H' + i + 1 ≤ B * H')%nat by nia.
  assert ((b * H' + i + 1) * W ≤ B * H' * W)%nat
    by (by apply Nat.mul_le_mono_r).
  nia.
Qed.

(** Without a normalisation: two inputs that agree at one position give
    outputs that agree at that position. *)
Lemma Overlap_1x1_unnormalised in_channels num_heads window_size qkv_dim
    qkv_weights head_weights self x x' attn_mask B H' W b i j :
  OverlapWindowMHA2d.__init__ in_channels num_heads window_size qkv_dim
    qkv_weights head_weights = Ok self →
  window_pair window_size = (1, 1)%nat →
  has_scaled_dot_product_attention = true →
  shape x = [B; in_channels; H'; W] → shape x' = [B; in_channels; H'; W] →
  num_heads ≠ 0%nat → qkv_dim ≠ Some 0%nat → in_channels ≠ 0%nat →
  mask_ok attn_mask false [(B * H' * W)%nat; num_heads; 1%nat; 1%nat] →
  (b < B)%nat → (i < H')%nat → (j < W)%nat →
  (∀ c, (c < in_channels)%nat → data x [b; c; i; j] = data x' [b; c; i; j]) →
  ∃ y y',
    OverlapWindowMHA2d.forward self x attn_mask None = Ok y
    ∧ OverlapWindowMHA2d.forward self x' attn_mask None = Ok y'
    ∧ shape y = shape x ∧ shape y' = shape x'
    ∧ ∀ o, data y [b; o; i; j] = data y' [b; o; i; j].
Proof.
  intros Hinit Hwp Hsdpa Hx Hx' Hheads Hqkv Hin Hmask Hb Hi Hj Hagree.
  destruct (Overlap_forward_1x1 _ _ _ _ _ _ self x attn_mask B H' W
              Hinit Hwp Hsdpa Hx Hheads Hqkv Hin Hmask)
    as (p1 & p2 & y1 & y2 & y & Hf1 & Hf2 & Hy & Hys & Hp1 & Hp2 & HD0
        & Hp & Hout).
  destruct (Overlap_forward_1x1 _ _ _ _ _ _ self x' attn_mask B H' W
              Hinit Hwp Hsdpa Hx' Hheads Hqkv Hin Hmask)
    as (p1' & p2' & y1' & y2' & y' & Hf1' & Hf2' & Hy' & Hys' & Hp1' & Hp2'
        & _ & Hp' & Hout').
  apply Overlap_init_inv in Hinit as (_ & _ & _ & Hnh & _).
  rewrite <-Hnh in Hmask.
  exists y, y'. split_and!; [done..|]. intros o.
  rewrite Hout, Hout' by done. do 3 f_equal.
  pose proof (window_number_lt b i j B H' W Hb Hi Hj) as Hn.
  assert ((λ c', data x [b; c'; i; j]) <$> seq 0 in_channels
          = (λ c', data x' [b; c'; i; j]) <$> seq 0 in_channels) as Hfeat.
  { apply Forall_fmap_ext, Forall_seq. intros c Hc. apply Hagree. lia. }
  apply Forall_fmap_ext, Forall_seq. intros c Hc. f_equal.
  - apply (forward_mha_local self p1 p1' attn_mask (B * H' * W) 1
             ((b * H' + i) * W + j) y1 y1'); try done; [|lia..].
    intros t c' Ht _. replace t with 0%nat by lia.
    destruct (Hp b i j c') as [-> _]; [done..|].
    destruct (Hp' b i j c') as [-> _]; [done..|].
    cbv zeta. by rewrite Hfeat.
  - apply (forward_mha_local self p2 p2' attn_mask (B * H' * W) 1
             ((b * H' + i) * W + j) y2 y2'); try done; [|lia..].
    intros t c' Ht _. replace t with 0%nat by lia.
    destruct (Hp b i j c') as [_ ->]; [done..|].
    destruct (Hp' b i j c') as [_ ->]; [done..|].
    cbv zeta. by rewrite Hfeat.
Qed.

(** C8: with 1x1 windows the module mixes no tokens.  Take two inputs of
    one shape that agree at one position (in every channel), and anything
    elsewhere; let the normalisation, if one is given, work position by
    position (as a layer normalisation over the channels does).  Then both
    calls succeed, keep the shape, and their outputs agree at that position
    in every channel. *)
Theorem Overlap_1x1_pointwise in_channels num_heads window_size qkv_dim
    qkv_weights head_weights self x x' attn_mask layer_norm B H' W b i j :
  OverlapWindowMHA2d.__init__ in_channels num_heads window_size qkv_dim
    qkv_weights head_weights = Ok self →
  window_pair window_size = (1, 1)%nat →
  has_scaled_dot_product_attention = true →
  shape x = [B; in_channels; H'; W] → shape x' = [B; in_channels; H'; W] →
  num_heads ≠ 0%nat → qkv_dim ≠ Some 0%nat → in_channels ≠ 0%nat →
  mask_ok attn_mask false [(B * H' * W)%nat; num_heads; 1%nat; 1%nat] →
  pointwise_norm layer_norm →
  (b < B)%nat → (i < H')%nat → (j < W)%nat →
  (∀ c, (c < in_channels)%nat → data x [b; c; i; j] = data x' [b; c; i; j]) →
  ∃ y y',
    OverlapWindowMHA2d.forward self x attn_mask layer_norm = Ok y
    ∧ OverlapWindowMHA2d.forward self x' attn_mask layer_norm = Ok y'
    ∧ shape y = shape x ∧ shape y' = shape x'
    ∧ ∀ o, data y [b; o; i; j] = data y' [b; o; i; j].
Proof.
  intros Hinit Hwp Hsdpa Hx Hx' Hheads Hqkv Hin Hmask Hnorm Hb Hi Hj Hagree.
  destruct layer_norm as [norm|].
  2: by eapply Overlap_1x1_unnormalised.
  destruct (bchw_to_bhwc_spec x _ _ _ _ Hx) as (t & Ht & Hts & Htd).
  destruct (bchw_to_bhwc_spec x' _ _ _ _ Hx') as (t' & Ht' & Hts' & Htd').
  destruct (Hnorm t t' B H' W in_channels b i j Hts Hts' Hb Hi Hj)
    as (u & u' & Hu & Hu' & Hus & Hus' & Hud).
  { intros c Hc. rewrite Htd, Htd'. by apply Hagree. }
  rewrite Hts in Hus. rewrite Hts' in Hus'.
  destruct (bhwc_to_bchw_spec u _ _ _ _ Hus) as (x0 & Hx0 & Hx0s & Hx0d).
  destruct (bhwc_to_bchw_spec u' _ _ _ _ Hus') as (x0' & Hx0' & Hx0s' & Hx0d').
  destruct (Overlap_1x1_unnormalised _ _ _ _ _ _ self x0 x0' attn_mask
              B H' W b i j Hinit Hwp Hsdpa Hx0s Hx0s' Hheads Hqkv Hin Hmask
              Hb Hi Hj) as (y & y' & Hy & Hy' & Hys & Hys' & Hyd).
  { intros c Hc. rewrite Hx0d, Hx0d'. by apply Hud. }
  exists y, y'. unfold OverlapWindowMHA2d.forward in *.
  rewrite Ht, Ht'. cbn [mbind result_bind]. rewrite Hu, Hu'.
  cbn [mbind result_bind]. rewrite Hx0, Hx0'.
  cbn [mbind result_bind] in *.
  split_and!; [done|done|congruence|congruence|done].
Qed.

End overlap_facts.

(** ** Attention is local to batch elements, heads and windows *)

Section locality_facts.
Context `{Torch}.

(** The head split accepts any tensor with the right number of elements. *)
Lemma head_split_numel (x : tensor) B N Hd d :
  numel (shape x) = numel [B; N; (Hd * d)%nat] →
  ∃ y, (view x [B; N; Hd; d] ≫= λ t, permute t [0; 2; 1; 3]%nat) = Ok y
       ∧ shape y = [B; Hd; N; d].
Proof.
  intros Hx. unfold view.
  rewrite reshape_Ok by (rewrite Hx; unfold numel; cbn [foldr]; lia).
  cbn [mbind result_bind].
  match goal with
  | |- context [permute ?t _] =>
      destruct (permute_0213 t B N Hd d) as (y & -> & Hy & _); [done|]
  end.
  by exists y.
Qed.

Lemma head_split_Raise (x : tensor) B N Hd d :
  numel (shape x) ≠ numel [B; N; (Hd * d)%nat] →
  (view x [B; N; Hd; d] ≫= λ t, permute t [0; 2; 1; 3]%nat)
  = Raise RuntimeError.
Proof.
  intros Hx. unfold view, reshape. rewrite decide_False; [done|].
  intros Heq. apply Hx. rewrite <-Heq. unfold numel. cbn [foldr]. lia.
Qed.

(** X5: the checks [sliced_sdp] makes on its arguments before it reaches
    the library's attention, in the order the code makes them.  A query
    that is not three-dimensional gives ValueError, the unpacking of its
    shape failing; zero heads give ZeroDivisionError, before the
    assertion; a channel count the heads do not divide gives
    AssertionError; and keys or values that do not hold as many elements
    as the query give RuntimeError, since they are viewed with the extents
    of the query, whatever their own shape. *)
Theorem sliced_sdp_outcome q k v num_heads attn_mask dropout_p is_causal :
  let r := sliced_sdp q k v num_heads attn_mask dropout_p is_causal in
  match shape q with
  | [B; N; C] =>
      if decide (num_heads = 0%nat) then r = Raise ZeroDivisionError
      else if decide (C mod num_heads ≠ 0)%nat then r = Raise AssertionError
      else if decide (numel (shape k) ≠ numel (shape q)
                      ∨ numel (shape v) ≠ numel (shape q))
      then r = Raise RuntimeError
      else True
  | _ => r = Raise ValueError
  end.
Proof.
  intros r. subst r. unfold sliced_sdp.
  destruct (shape q) as [|B [|N [|C [|]]]] eqn:Hq; try reflexivity.
  unfold py_mod, py_floordiv.
  destruct (decide (num_heads = 0%nat)) as [|Hh]; [done|].
  cbn [mbind result_bind].
  destruct (decide (C mod num_heads ≠ 0)%nat) as [Hmod|Hmod].
  { by rewrite (bool_decide_eq_false_2 _ Hmod). }
  apply dec_stable in Hmod.
  rewrite (bool_decide_eq_true_2 _ Hmod). cbn [py_assert mbind result_bind].
  remember (C / num_heads)%nat as d eqn:Hd.
  assert (C = num_heads * d)%nat as HC
    by (subst d; by apply Nat.Div0.div_exact).
  assert (numel [B; N; C] = numel [B; N; (num_heads * d)%nat]) as Hnum
    by (by rewrite <-HC).
  destruct (head_split_numel q B N num_heads d) as (q4 & -> & Hq4).
  { by rewrite Hq. }
  cbn [mbind result_bind].
  destruct (decide (numel (shape k) ≠ numel [B; N; C]
                    ∨ numel (shape v) ≠ numel [B; N; C])) as [Hkv|Hkv];
    [|done].
  destruct (decide (numel (shape k) = numel [B; N; C])) as [Hk|Hk].
  - destruct (head_split_numel k B N num_heads d) as (k4 & -> & _);
      [congruence|].
    cbn [mbind result_bind].
    rewrite (head_split_Raise v); [done|]. rewrite <-Hnum. tauto.
  - rewrite (head_split_Raise k); [done|]. by rewrite <-Hnum.
Qed.

(** The kernel sees one (batch, head) slice at a time: slices of two calls
    that agree give results that agree. *)
Lemma sliced_sdp_head_local q k v q' k' v' num_heads attn_mask is_causal
    B N C b h :
  has_scaled_dot_product_attention = true →
  shape q = [B; N; C] → shape k = [B; N; C] → shape v = [B; N; C] →
  shape q' = [B; N; C] → shape k' = [B; N; C] → shape v' = [B; N; C] →
  num_heads ≠ 0%nat → (C mod num_heads = 0)%nat →
  mask_ok attn_mask is_causal [B; num_heads; N; N] →
  (b < B)%nat → (h < num_heads)%nat →
  let d := (C / num_heads)%nat in
  (∀ n j, (n < N)%nat → (j < d)%nat →
     data q [b; n; (h * d + j)%nat] = data q' [b; n; (h * d + j)%nat]
     ∧ data k [b; n; (h * d + j)%nat] = data k' [b; n; (h * d + j)%nat]
     ∧ data v [b; n; (h * d + j)%nat] = data v' [b; n; (h * d + j)%nat]) →
  ∃ y y',
    sliced_sdp q k v num_heads attn_mask 0%Q is_causal = Ok y
    ∧ sliced_sdp q' k' v' num_heads attn_mask 0%Q is_causal = Ok y'
    ∧ shape y = [B; N; C] ∧ shape y' = [B; N; C]
    ∧ ∀ n j, (n < N)%nat → (j < d)%nat →
        data y [b; n; (h * d + j)%nat] = data y' [b; n; (h * d + j)%nat].
Proof.
  intros Hsdpa Hq Hk Hv Hq' Hk' Hv' Hh Hmod Hmask Hb Hhlt d Hagree.
  destruct (sliced_sdp_spec q k v num_heads attn_mask 0%Q is_causal
              B N C Hsdpa Hq Hk Hv Hh Hmod Hmask) as (y & Hy & Hys & Hyd).
  destruct (sliced_sdp_spec q' k' v' num_heads attn_mask 0%Q is_causal
              B N C Hsdpa Hq' Hk' Hv' Hh Hmod Hmask) as (y' & Hy' & Hys' & Hyd').
  exists y, y'. split_and!; [done..|]. intros n j Hn Hj.
  assert (C = num_heads * d)%nat as HC by (by apply Nat.Div0.div_exact).
  assert (h * d + j < C)%nat as Hc by nia.
  rewrite Hyd, Hyd' by done. cbv zeta. fold d.
  assert ((h * d + j) / d = h)%nat as ->.
  { rewrite Nat.div_add_l, Nat.div_small by lia. lia. }
  rewrite (head_rows_ext q q'), (head_rows_ext k k'), (head_rows_ext v v');
    [done|..]; intros i j' Hi Hj'; by destruct (Hagree i j' Hi Hj') as (? & ? & ?).
Qed.

(** X6: [sliced_sdp] mixes neither batch elements nor heads.  Take two
    calls, without dropout, on inputs of one shape (B, N, C) that agree on
    the features of head [h] in batch element [b]: both return, and their
    results agree on the features of head [h] in batch element [b]. *)
Theorem sliced_sdp_slice_local q k v q' k' v' num_heads attn_mask is_causal
    B N C b h :
  has_scaled_dot_product_attention = true →
  shape q = [B; N; C] → shape k = [B; N; C] → shape v = [B; N; C] →
  shape q' = [B; N; C] → shape k' = [B; N; C] → shape v' = [B; N; C] →
  num_heads ≠ 0%nat → (C mod num_heads = 0)%nat →
  mask_ok attn_mask is_causal [B; num_heads; N; N] →
  (b < B)%nat → (h < num_heads)%nat →
  let d := (C / num_heads)%nat in
  (∀ n j, (n < N)%nat → (j < d)%nat →
     data q [b; n; (h * d + j)%nat] = data q' [b; n; (h * d + j)%nat]
     ∧ data k [b; n; (h * d + j)%nat] = data k' [b; n; (h * d + j)%nat]
     ∧ data v [b; n; (h * d + j)%nat] = data v' [b; n; (h * d + j)%nat]) →
  ∃ y y',
    sliced_sdp q k v num_heads attn_mask 0%Q is_causal = Ok y
    ∧ sliced_sdp q' k' v' num_heads attn_mask 0%Q is_causal = Ok y'
    ∧ shape y = [B; N; C] ∧ shape y' = [B; N; C]
    ∧ ∀ n j, (n < N)%nat → (j < d)%nat →
        data y [b; n; (h * d + j)%nat] = data y' [b; n; (h * d + j)%nat].
Proof.
  intros Hsdpa Hq Hk Hv Hq' Hk' Hv' Hh Hmod Hmask Hb Hhlt d Hagree.
  by apply sliced_sdp_head_local.
Qed.

Lemma Linear_forward_data (l : Linear) (x : tensor) B N C :
  shape x = [B; N; C] → C = in_features l →
  ∃ y, Linear_forward l x = Ok y ∧ shape y = [B; N; out_features l]
       ∧ ∀ b n o,
           data y [b; n; o]
           = default zero
               (affine l ((λ c, data x [b; n; c]) <$> seq 0 (in_features l))
                  !! o).
Proof.
  intros Hx HC. unfold Linear_forward. rewrite Hx. cbn [last].
  rewrite decide_True by done. eexists. split; [done|]. by split.
Qed.

(** Two inputs that agree on one batch element are projected to queries,
    keys and values that agree there, attended to results that agree there,
    and projected back likewise. *)
Lemma MHA_forward_local (m : MHA.t) x x' attn_mask is_causal B N E b :
  has_scaled_dot_product_attention = true →
  in_features (MHA.qkv_proj m) = E →
  out_features (MHA.qkv_proj m) = (MHA.qkv_dim m * MHA.num_heads m * 3)%nat →
  in_features (MHA.head_proj m) = (MHA.qkv_dim m * MHA.num_heads m)%nat →
  out_features (MHA.head_proj m) = E →
  (MHA.qkv_dim m * MHA.num_heads m ≠ 0)%nat →
  shape x = [B; N; E] → shape x' = [B; N; E] →
  mask_ok attn_mask is_causal [B; MHA.num_heads m; N; N] →
  (b < B)%nat →
  (∀ n c, (n < N)%nat → (c < E)%nat → data x [b; n; c] = data x' [b; n; c]) →
  ∃ y y',
    MHA.forward m x attn_mask 0%Q is_causal = Ok y
    ∧ MHA.forward m x' attn_mask 0%Q is_causal = Ok y'
    ∧ shape y = [B; N; E] ∧ shape y' = [B; N; E]
    ∧ ∀ n c, (n < N)%nat → data y [b; n; c] = data y' [b; n; c].
Proof.
  intros Hsdpa Hqi Hqo Hhi Hho HD Hx Hx' Hmask Hb Hagree.
  unfold MHA.forward.
  remember (MHA.qkv_dim m * MHA.num_heads m)%nat as D eqn:HDeq.
  assert (MHA.num_heads m ≠ 0)%nat as Hh by lia.
  assert (D mod MHA.num_heads m = 0)%nat as Hmod
    by (subst D; apply Nat.Div0.mod_mul).
  assert (D / MHA.num_heads m = MHA.qkv_dim m)%nat as Hdiv
    by (subst D; by apply Nat.div_mul).
  destruct (Linear_forward_data (MHA.qkv_proj m) x B N E)
    as (qkv & -> & Hqkv & Hqkvd); [done..|].
  destruct (Linear_forward_data (MHA.qkv_proj m) x' B N E)
    as (qkv' & -> & Hqkv' & Hqkvd'); [done..|].
  cbn [mbind result_bind]. rewrite Hqo in Hqkv, Hqkv'.
  destruct (split_three qkv B N D Hqkv HD)
    as (q & k & v & -> & Hq & Hk & Hv & Hs).
  destruct (split_three qkv' B N D Hqkv' HD)
    as (q' & k' & v' & -> & Hq' & Hk' & Hv' & Hs').
  cbn [mbind result_bind].
  assert (∀ n c, (n < N)%nat → data qkv [b; n; c] = data qkv' [b; n; c])
    as Hproj.
  { intros n c Hn. rewrite Hqkvd, Hqkvd'. do 3 f_equal.
    apply Forall_fmap_ext, Forall_seq. intros c' Hc'. apply Hagree; lia. }
  assert (∃ y y',
            sliced_sdp q k v (MHA.num_heads m) attn_mask 0%Q is_causal = Ok y
            ∧ sliced_sdp q' k' v' (MHA.num_heads m) attn_mask 0%Q is_causal
              = Ok y'
            ∧ shape y = [B; N; D] ∧ shape y' = [B; N; D]
            ∧ ∀ n c, (n < N)%nat → (c < D)%nat →
                data y [b; n; c] = data y' [b; n; c])
    as (y & y' & -> & -> & Hy & Hy' & Hyd).
  { destruct (sliced_sdp_spec q k v (MHA.num_heads m) attn_mask 0%Q is_causal
                B N D Hsdpa Hq Hk Hv Hh Hmod Hmask) as (y & Hy & Hys & _).
    destruct (sliced_sdp_spec q' k' v' (MHA.num_heads m) attn_mask 0%Q
                is_causal B N D Hsdpa Hq' Hk' Hv' Hh Hmod Hmask)
      as (y' & Hy' & Hys' & _).
    exists y, y'. split_and!; [done..|]. intros n c Hn Hc.
    assert (MHA.qkv_dim m ≠ 0)%nat as Hd0 by lia.
    assert (c / MHA.qkv_dim m < MHA.num_heads m)%nat as Hhd
      by (apply Nat.Div0.div_lt_upper_bound; lia).
    destruct (sliced_sdp_head_local q k v q' k' v' (MHA.num_heads m)
                attn_mask is_causal B N D b (c / MHA.qkv_dim m)
                Hsdpa Hq Hk Hv Hq' Hk' Hv' Hh Hmod Hmask Hb Hhd)
      as (y0 & y0' & Hy0 & Hy0' & _ & _ & Hloc).
    { intros t j Ht Hj.
      destruct (Hs b t (c / MHA.qkv_dim m * (D / MHA.num_heads m) + j)%nat)
        as (-> & -> & ->).
      destruct (Hs' b t (c / MHA.qkv_dim m * (D / MHA.num_heads m) + j)%nat)
        as (-> & -> & ->).
      by rewrite !Hproj. }
    rewrite Hy in Hy0. rewrite Hy' in Hy0'.
    injection Hy0 as <-. injection Hy0' as <-.
    specialize (Hloc n (c mod MHA.qkv_dim m)%nat Hn).
    rewrite Hdiv in Hloc.
    replace (c / MHA.qkv_dim m * MHA.qkv_dim m + c mod MHA.qkv_dim m)%nat
      with c in Hloc by (pose proof (Nat.div_mod_eq c (MHA.qkv_dim m)); lia).
    apply Hloc. by apply Nat.mod_upper_bound. }
  cbn [mbind result_bind].
  destruct (Linear_forward_data (MHA.head_proj m) y B N D)
    as (z & -> & Hz & Hzd); [done..|].
  destruct (Linear_forward_data (MHA.head_proj m) y' B N D)
    as (z' & -> & Hz' & Hzd'); [done..|].
  exists z, z'. rewrite Hz, Hz', Hho. split_and!; [done..|].
  intros n c Hn. rewrite Hzd, Hzd'. do 3 f_equal.
  apply Forall_fmap_ext, Forall_seq. intros c' Hc'. apply Hyd; lia.
Qed.

Lemma CrossMHA_forward_local (m : CrossMHA.t) q kv q' kv' attn_mask is_causal
    B N E b :
  has_scaled_dot_product_attention = true →
  in_features (CrossMHA.q_proj m) = E →
  out_features (CrossMHA.q_proj m)
  = (CrossMHA.qkv_dim m * CrossMHA.num_heads m)%nat →
  in_features (CrossMHA.kv_proj m) = E →
  out_features (CrossMHA.kv_proj m)
  = (CrossMHA.qkv_dim m * CrossMHA.num_heads m * 2)%nat →
  in_features (CrossMHA.head_proj m)
  = (CrossMHA.qkv_dim m * CrossMHA.num_heads m)%nat →
  out_features (CrossMHA.head_proj m) = E →
  (CrossMHA.qkv_dim m * CrossMHA.num_heads m ≠ 0)%nat →
  shape q = [B; N; E] → shape kv = [B; N; E] →
  shape q' = [B; N; E] → shape kv' = [B; N; E] →
  mask_ok attn_mask is_causal [B; CrossMHA.num_heads m; N; N] →
  (b < B)%nat →
  (∀ n c, (n < N)%nat → (c < E)%nat →
     data q [b; n; c] = data q' [b; n; c]
     ∧ data kv [b; n; c] = data kv' [b; n; c]) →
  ∃ y y',
    CrossMHA.forward m q kv attn_mask 0%Q is_causal = Ok y
    ∧ CrossMHA.forward m q' kv' attn_mask 0%Q is_causal = Ok y'
    ∧ shape y = [B; N; E] ∧ shape y' = [B; N; E]
    ∧ ∀ n c, (n < N)%nat → data y [b; n; c] = data y' [b; n; c].
Proof.
  intros Hsdpa Hqi Hqo Hki Hko Hhi Hho HD Hq Hkv Hq' Hkv' Hmask Hb Hagree.
  unfold CrossMHA.forward.
  rewrite !bool_decide_eq_true_2 by congruence.
  cbn [py_assert mbind result_bind].
  remember (CrossMHA.qkv_dim m * CrossMHA.num_heads m)%nat as D eqn:HDeq.
  assert (CrossMHA.num_heads m ≠ 0)%nat as Hh by lia.
  assert (D mod CrossMHA.num_heads m = 0)%nat as Hmod
    by (subst D; apply Nat.Div0.mod_mul).
  assert (D / CrossMHA.num_heads m = CrossMHA.qkv_dim m)%nat as Hdiv
    by (subst D; by apply Nat.div_mul).
  destruct (Linear_forward_data (CrossMHA.q_proj m) q B N E)
    as (qp & -> & Hqp & Hqpd); [done..|].
  destruct (Linear_forward_data (CrossMHA.q_proj m) q' B N E)
    as (qp' & -> & Hqp' & Hqpd'); [done..|].
  cbn [mbind result_bind]. rewrite Hqo in Hqp, Hqp'.
  destruct (Linear_forward_data (CrossMHA.kv_proj m) kv B N E)
    as (kvp & -> & Hkvp & Hkvpd); [done..|].
  destruct (Linear_forward_data (CrossMHA.kv_proj m) kv' B N E)
    as (kvp' & -> & Hkvp' & Hkvpd'); [done..|].
  cbn [mbind result_bind]. rewrite Hko in Hkvp, Hkvp'.
  destruct (split_two kvp B N D Hkvp HD) as (k & v & -> & Hk & Hv & Hs).
  destruct (split_two kvp' B N D Hkvp' HD) as (k' & v' & -> & Hk' & Hv' & Hs').
  cbn [mbind result_bind].
  assert (∀ n c, (n < N)%nat → data qp [b; n; c] = data qp' [b; n; c])
    as Hprojq.
  { intros n c Hn. rewrite Hqpd, Hqpd'. do 3 f_equal.
    apply Forall_fmap_ext, Forall_seq. intros c' Hc'. apply Hagree; lia. }
  assert (∀ n c, (n < N)%nat → data kvp [b; n; c] = data kvp' [b; n; c])
    as Hprojkv.
  { intros n c Hn. rewrite Hkvpd, Hkvpd'. do 3 f_equal.
    apply Forall_fmap_ext, Forall_seq. intros c' Hc'. apply Hagree; lia. }
  assert (∃ y y',
            sliced_sdp qp k v (CrossMHA.num_heads m) attn_mask 0%Q is_causal
            = Ok y
            ∧ sliced_sdp qp' k' v' (CrossMHA.num_heads m) attn_mask 0%Q
                is_causal = Ok y'
            ∧ shape y = [B; N; D] ∧ shape y' = [B; N; D]
            ∧ ∀ n c, (n < N)%nat → (c < D)%nat →
                data y [b; n; c] = data y' [b; n; c])
    as (y & y' & -> & -> & Hy & Hy' & Hyd).
  { destruct (sliced_sdp_spec qp k v (CrossMHA.num_heads m) attn_mask 0%Q
                is_causal B N D Hsdpa Hqp Hk Hv Hh Hmod Hmask)
      as (y & Hy & Hys & _).
    destruct (sliced_sdp_spec qp' k' v' (CrossMHA.num_heads m) attn_mask 0%Q
                is_causal B N D Hsdpa Hqp' Hk' Hv' Hh Hmod Hmask)
      as (y' & Hy' & Hys' & _).
    exists y, y'. split_and!; [done..|]. intros n c Hn Hc.
    assert (CrossMHA.qkv_dim m ≠ 0)%nat as Hd0 by lia.
    assert (c / CrossMHA.qkv_dim m < CrossMHA.num_heads m)%nat as Hhd
      by (apply Nat.Div0.div_lt_upper_bound; lia).
    destruct (sliced_sdp_head_local qp k v qp' k' v' (CrossMHA.num_heads m)
                attn_mask is_causal B N D b (c / CrossMHA.qkv_dim m)
                Hsdpa Hqp Hk Hv Hqp' Hk' Hv' Hh Hmod Hmask Hb Hhd)
      as (y0 & y0' & Hy0 & Hy0' & _ & _ & Hloc).
    { intros t j Ht Hj.
      destruct (Hs b t (c / CrossMHA.qkv_dim m
                        * (D / CrossMHA.num_heads m) + j)%nat) as (-> & ->).
      destruct (Hs' b t (c / CrossMHA.qkv_dim m
                         * (D / CrossMHA.num_heads m) + j)%nat) as (-> & ->).
      by rewrite Hprojq, !Hprojkv. }
    rewrite Hy in Hy0. rewrite Hy' in Hy0'.
    injection Hy0 as <-. injection Hy0' as <-.
    specialize (Hloc n (c mod CrossMHA.qkv_dim m)%nat Hn).
    rewrite Hdiv in Hloc.
    replace (c / CrossMHA.qkv_dim m * CrossMHA.qkv_dim m
             + c mod CrossMHA.qkv_dim m)%nat
      with c in Hloc
      by (pose proof (Nat.div_mod_eq c (CrossMHA.qkv_dim m)); lia).
    apply Hloc. by apply Nat.mod_upper_bound. }
  cbn [mbind result_bind].
  destruct (Linear_forward_data (CrossMHA.head_proj m) y B N D)
    as (z & -> & Hz & Hzd); [done..|].
  destruct (Linear_forward_data (CrossMHA.head_proj m) y' B N D)
    as (z' & -> & Hz' & Hzd'); [done..|].
  exists z, z'. rewrite Hz, Hz', Hho. split_and!; [done..|].
  intros n c Hn. rewrite Hzd, Hzd'. do 3 f_equal.
  apply Forall_fmap_ext, Forall_seq. intros c' Hc'. apply Hyd; lia.
Qed.

Lemma window_local_norm_apply (layer_norm : option (tensor → result tensor))
    t t' B N C n :
  window_local_norm layer_norm →
  shape t = [B; N; C] → shape t' = [B; N; C] → (n < B)%nat →
  (∀ k c, (k < N)%nat → (c < C)%nat → data t [n; k; c] = data t' [n; k; c]) →
  ∃ u u',
    match layer_norm with Some norm => norm t | None => Ok t end = Ok u
    ∧ match layer_norm with Some norm => norm t' | None => Ok t' end = Ok u'
    ∧ shape u = [B; N; C] ∧ shape u' = [B; N; C]
    ∧ ∀ k c, (k < N)%nat → (c < C)%nat → data u [n; k; c] = data u' [n; k; c].
Proof.
  intros Hnorm Ht Ht' Hn Hagree. destruct layer_norm as [norm|].
  - destruct (Hnorm t t' B N C n Ht Ht' Hn Hagree)
      as (u & u' & ? & ? & ? & ? & ?).
    exists u, u'. split_and!; [done|done|congruence|congruence|done].
  - by exists t, t'.
Qed.

(** Where the cells of one window go in the token layout, and back. *)
Lemma window_of_token b I J t SH SW wh ww :
  (I < SH → J < SW → t < wh * ww →
   let n := (b * SH + I) * SW + J in
   n / (SH * SW) = b
   ∧ ((n / SW) mod SH * wh + t / ww) / wh = I
   ∧ (n mod SW * ww + t mod ww) / ww = J
   ∧ (n / SW) mod SH * wh + t / ww < SH * wh
   ∧ n mod SW * ww + t mod ww < SW * ww)%nat.
Proof.
  intros HI HJ Ht n. subst n.
  destruct (window_index_1x1 b I J SH SW HI HJ) as (-> & -> & ->).
  assert (ww ≠ 0)%nat by lia.
  assert (t / ww < wh)%nat
    by (apply Nat.Div0.div_lt_upper_bound; lia).
  assert (t mod ww < ww)%nat by (by apply Nat.mod_upper_bound).
  split_and!; [done| | |nia|nia].
  - rewrite Nat.div_add_l, Nat.div_small by lia. lia.
  - rewrite Nat.div_add_l, Nat.div_small by lia. lia.
Qed.

Lemma MHA_init_dims embed_dim num_heads d qkv_weights head_weights m :
  MHA.__init__ embed_dim num_heads d qkv_weights head_weights = Ok m →
  num_heads ≠ 0%nat → d ≠ Some 0%nat → embed_dim ≠ 0%nat →
  (MHA.qkv_dim m * MHA.num_heads m ≠ 0)%nat.
Proof.
  intros Hm Hheads Hqkv Hin. pose proof Hm as Hm'.
  apply MHA_init_inv in Hm' as (Hsdpa & Hdiv & Hnh & _).
  rewrite MHA_init_Ok in Hm; [|done|].
  2: { destruct d; [done|]. by apply Hdiv. }
  injection Hm as <-. cbn. destruct d as [d|]; cbn.
  - assert (d ≠ 0)%nat by congruence. lia.
  - destruct Hdiv as [_ Hdiv]; [done|].
    apply Nat.Div0.div_exact in Hdiv.
    destruct (embed_dim / num_heads)%nat; lia.
Qed.

(** X7: [MHA.forward] keeps the shape of a (batch, tokens, embed_dim)
    input and treats the batch elements independently: two inputs that
    agree on batch element [b] give outputs that agree on batch element
    [b], whatever the other batch elements hold. *)
Theorem MHA_forward_batch_local embed_dim num_heads qkv_dim qkv_weights
    head_weights self x x' attn_mask is_causal B N b :
  MHA.__init__ embed_dim num_heads qkv_dim qkv_weights head_weights
  = Ok self →
  num_heads ≠ 0%nat → qkv_dim ≠ Some 0%nat → embed_dim ≠ 0%nat →
  shape x = [B; N; embed_dim] → shape x' = [B; N; embed_dim] →
  mask_ok attn_mask is_causal [B; num_heads; N; N] →
  (b < B)%nat →
  (∀ n c, (n < N)%nat → (c < embed_dim)%nat →
          data x [b; n; c] = data x' [b; n; c]) →
  ∃ y y',
    MHA.forward self x attn_mask 0%Q is_causal = Ok y
    ∧ MHA.forward self x' attn_mask 0%Q is_causal = Ok y'
    ∧ shape y = shape x ∧ shape y' = shape x'
    ∧ ∀ n c, (n < N)%nat → data y [b; n; c] = data y' [b; n; c].
Proof.
  intros Hinit Hheads Hqkv Hin Hx Hx' Hmask Hb Hagree.
  pose proof (MHA_init_dims _ _ _ _ _ _ Hinit Hheads Hqkv Hin) as HD.
  apply MHA_init_inv in Hinit as (Hsdpa & _ & Hnh & Hqi & Hqo & Hhi & Hho).
  rewrite <-Hnh in Hmask. rewrite Hx, Hx'.
  by apply MHA_forward_local.
Qed.

Lemma CrossMHA_init_dims embed_dim num_heads d q_weights kv_weights
    head_weights m :
  CrossMHA.__init__ embed_dim num_heads d q_weights kv_weights head_weights
  = Ok m →
  num_heads ≠ 0%nat → d ≠ Some 0%nat → embed_dim ≠ 0%nat →
  (CrossMHA.qkv_dim m * CrossMHA.num_heads m ≠ 0)%nat.
Proof.
  intros Hm Hheads Hqkv Hin.
  apply CrossMHA_init_inv in Hm as (_ & Hd & Hdiv & Hnh & _).
  rewrite Hd, Hnh. destruct d as [d|]; cbn.
  - assert (d ≠ 0)%nat by congruence. lia.
  - destruct Hdiv as [_ Hdiv]; [done|].
    apply Nat.Div0.div_exact in Hdiv.
    destruct (embed_dim / num_heads)%nat; lia.
Qed.

(** X8: [CrossMHA.forward] returns a tensor of the shape of its query and
    treats the batch elements independently: when the queries and the
    key/value sources of two calls agree on batch element [b], so do the
    outputs. *)
Theorem CrossMHA_forward_batch_local embed_dim num_heads qkv_dim q_weights
    kv_weights head_weights self q kv q' kv' attn_mask is_causal B N b :
  CrossMHA.__init__ embed_dim num_heads qkv_dim q_weights kv_weights
    head_weights = Ok self →
  num_heads ≠ 0%nat → qkv_dim ≠ Some 0%nat → embed_dim ≠ 0%nat →
  shape q = [B; N; embed_dim] → shape kv = [B; N; embed_dim] →
  shape q' = [B; N; embed_dim] → shape kv' = [B; N; embed_dim] →
  mask_ok attn_mask is_causal [B; num_heads; N; N] →
  (b < B)%nat →
  (∀ n c, (n < N)%nat → (c < embed_dim)%nat →
     data q [b; n; c] = data q' [b; n; c]
     ∧ data kv [b; n; c] = data kv' [b; n; c]) →
  ∃ y y',
    CrossMHA.forward self q kv attn_mask 0%Q is_causal = Ok y
    ∧ CrossMHA.forward self q' kv' attn_mask 0%Q is_causal = Ok y'
    ∧ shape y = shape q ∧ shape y' = shape q'
    ∧ ∀ n c, (n < N)%nat → data y [b; n; c] = data y' [b; n; c].
Proof.
  intros Hinit Hheads Hqkv Hin Hq Hkv Hq' Hkv' Hmask Hb Hagree.
  pose proof (CrossMHA_init_dims _ _ _ _ _ _ _ Hinit Hheads Hqkv Hin) as HD.
  apply CrossMHA_init_inv in Hinit
    as (Hsdpa & _ & _ & Hnh & Hqi & Hqo & Hki & Hko & Hhi & Hho).
  rewrite <-Hnh in Hmask. rewrite Hq, Hq'.
  by apply CrossMHA_forward_local.
Qed.

Lemma bchw_to_bnc_data (x : tensor) B C H' W wh ww :
  shape x = [B; C; H'; W] → wh ≠ 0%nat → ww ≠ 0%nat →
  (H' mod wh = 0)%nat → (W mod ww = 0)%nat →
  ∃ p, bchw_to_bnc x (wh, ww) = Ok p
       ∧ shape p = [(B * (H' / wh) * (W / ww))%nat; (wh * ww)%nat; C]
       ∧ ∀ n t c,
           data p [n; t; c]
           = data x [(n / (H' / wh * (W / ww)))%nat; c;
                     ((n / (W / ww)) mod (H' / wh) * wh + t / ww)%nat;
                     (n mod (W / ww) * ww + t mod ww)%nat].
Proof.
  intros. rewrite (bchw_to_bnc_Ok x B C H' W wh ww) by done.
  eexists. split; [done|]. by split.
Qed.

Lemma bnc_to_bchw_data (x : tensor) B C H' W wh ww :
  shape x = [(B * (H' / wh) * (W / ww))%nat; (wh * ww)%nat; C] →
  wh ≠ 0%nat → ww ≠ 0%nat → (H' mod wh = 0)%nat → (W mod ww = 0)%nat →
  ∃ y, bnc_to_bchw x [B; C; H'; W] (wh, ww) = Ok y
       ∧ shape y = [B; C; H'; W]
       ∧ ∀ b c i j,
           data y [b; c; i; j]
           = data x [((b * (H' / wh) + i / wh) * (W / ww) + j / ww)%nat;
                     (i mod wh * ww + j mod ww)%nat; c].
Proof.
  intros. rewrite (bnc_to_bchw_Ok x B C H' W wh ww) by done.
  eexists. split; [done|]. by split.
Qed.

(** Two feature maps that agree on one window are partitioned into token
    sequences that agree on that window. *)
Lemma bchw_to_bnc_window (x x' p p' : tensor) C H' W wh ww b I J :
  wh ≠ 0%nat → ww ≠ 0%nat → (H' mod wh = 0)%nat → (W mod ww = 0)%nat →
  (I < H' / wh)%nat → (J < W / ww)%nat →
  (∀ n t c,
     data p [n; t; c]
     = data x [(n / (H' / wh * (W / ww)))%nat; c;
               ((n / (W / ww)) mod (H' / wh) * wh + t / ww)%nat;
               (n mod (W / ww) * ww + t mod ww)%nat]) →
  (∀ n t c,
     data p' [n; t; c]
     = data x' [(n / (H' / wh * (W / ww)))%nat; c;
                ((n / (W / ww)) mod (H' / wh) * wh + t / ww)%nat;
                (n mod (W / ww) * ww + t mod ww)%nat]) →
  (∀ c i j, (c < C)%nat → (i < H')%nat → (j < W)%nat →
     (i / wh)%nat = I → (j / ww)%nat = J →
     data x [b; c; i; j] = data x' [b; c; i; j]) →
  ∀ t c, (t < wh * ww)%nat → (c < C)%nat →
    data p [((b * (H' / wh) + I) * (W / ww) + J)%nat; t; c]
    = data p' [((b * (H' / wh) + I) * (W / ww) + J)%nat; t; c].
Proof.
  intros Hwh Hww Hh Hw HI HJ Hp Hp' Hagree t c Ht Hc.
  assert (H' = H' / wh * wh)%nat
    by (apply Nat.Div0.div_exact in Hh; lia).
  assert (W = W / ww * ww)%nat
    by (apply Nat.Div0.div_exact in Hw; lia).
  rewrite Hp, Hp'.
  destruct (window_of_token b I J t (H' / wh) (W / ww) wh ww HI HJ Ht)
    as (-> & Hn2 & Hn3 & Hn4 & Hn5).
  apply Hagree; [done|lia|lia|done|done].
Qed.

Lemma token_of_cell i j wh ww :
  (wh ≠ 0 → ww ≠ 0 → i mod wh * ww + j mod ww < wh * ww)%nat.
Proof.
  intros Hwh Hww.
  assert (i mod wh < wh)%nat by (by apply Nat.mod_upper_bound).
  assert (j mod ww < ww)%nat by (by apply Nat.mod_upper_bound).
  nia.
Qed.

(** X9: [WindowMHA2d.forward] keeps the shape of a feature map whose
    extents are multiples of the window, and attention never crosses a
    window boundary: two feature maps that agree on the cells of window
    (I, J) of batch element [b] give outputs that agree on those cells.
    The normalisation, if one is given, has to work window by window. *)
Theorem WindowMHA2d_window_local in_channels num_heads window_size qkv_dim
    qkv_weights head_weights self x x' attn_mask layer_norm B H' W b I J :
  WindowMHA2d.__init__ in_channels num_heads window_size qkv_dim
    qkv_weights head_weights = Ok self →
  let wh := (window_pair window_size).1 in
  let ww := (window_pair window_size).2 in
  shape x = [B; in_channels; H'; W] → shape x' = [B; in_channels; H'; W] →
  wh ≠ 0%nat → ww ≠ 0%nat → (H' mod wh = 0)%nat → (W mod ww = 0)%nat →
  num_heads ≠ 0%nat → qkv_dim ≠ Some 0%nat → in_channels ≠ 0%nat →
  window_local_norm layer_norm →
  mask_ok attn_mask false
    [(B * (H' / wh) * (W / ww))%nat; num_heads; (wh * ww)%nat; (wh * ww)%nat] →
  (b < B)%nat → (I < H' / wh)%nat → (J < W / ww)%nat →
  (∀ c i j, (c < in_channels)%nat → (i < H')%nat → (j < W)%nat →
     (i / wh)%nat = I → (j / ww)%nat = J →
     data x [b; c; i; j] = data x' [b; c; i; j]) →
  ∃ y y',
    WindowMHA2d.forward self x attn_mask layer_norm = Ok y
    ∧ WindowMHA2d.forward self x' attn_mask layer_norm = Ok y'
    ∧ shape y = shape x ∧ shape y' = shape x'
    ∧ ∀ c i j, (i < H')%nat → (j < W)%nat →
        (i / wh)%nat = I → (j / ww)%nat = J →
        data y [b; c; i; j] = data y' [b; c; i; j].
Proof.
  intros Hinit wh ww Hx Hx' Hwh Hww Hh Hw Hheads Hqkv Hin Hnorm Hmask
    Hb HI HJ Hagree.
  unfold WindowMHA2d.__init__ in Hinit.
  destruct (MHA.__init__ _ _ _ _ _) as [m|] eqn:Hm; [|done].
  cbn [mbind result_bind] in Hinit. injection Hinit as <-.
  pose proof (MHA_init_dims _ _ _ _ _ _ Hm Hheads Hqkv Hin) as HD.
  apply MHA_init_inv in Hm as (Hsdpa & _ & Hnh & Hqi & Hqo & Hhi & Hho).
  unfold WindowMHA2d.forward. cbn [WindowMHA2d.window_size WindowMHA2d.mha].
  destruct (window_pair window_size) as [wh' ww'] eqn:Hws.
  cbn [fst snd] in wh, ww. subst wh ww.
  set (n := ((b * (H' / wh') + I) * (W / ww') + J)%nat).
  assert (n < B * (H' / wh') * (W / ww'))%nat as Hn
    by (by apply window_number_lt).
  destruct (bchw_to_bnc_data x B in_channels H' W wh' ww')
    as (p & -> & Hp & Hpd); [done..|].
  destruct (bchw_to_bnc_data x' B in_channels H' W wh' ww')
    as (p' & -> & Hp' & Hpd'); [done..|].
  cbn [mbind result_bind].
  destruct (window_local_norm_apply layer_norm p p' _ _ _ n Hnorm Hp Hp' Hn)
    as (u & u' & -> & -> & Hu & Hu' & Hud).
  { by apply (bchw_to_bnc_window x x' p p' in_channels H' W wh' ww'). }
  cbn [mbind result_bind].
  destruct (MHA_forward_local m u u' attn_mask false
              (B * (H' / wh') * (W / ww')) (wh' * ww') in_channels n)
    as (z & z' & -> & -> & Hz & Hz' & Hzd);
    [exact Hsdpa|exact Hqi|exact Hqo|exact Hhi|exact Hho|exact HD|exact Hu
    |exact Hu'|by rewrite Hnh|exact Hn|by intros; apply Hud|].
  cbn [mbind result_bind]. rewrite Hx, Hx'.
  destruct (bnc_to_bchw_data z B in_channels H' W wh' ww')
    as (y & -> & Hy & Hyd); [done..|].
  destruct (bnc_to_bchw_data z' B in_channels H' W wh' ww')
    as (y' & -> & Hy' & Hyd'); [done..|].
  exists y, y'. split_and!; [done..|].
  intros c i j Hi Hj HiI HjJ. rewrite Hyd, Hyd', HiI, HjJ.
  apply Hzd. by apply token_of_cell.
Qed.

(** X10: [WindowCrossMHA2d.forward] returns a feature map of the shape of
    its first input, and window (I, J) of the result is determined by
    window (I, J) of the two inputs: queries of one window only meet keys
    and values of the same window of the second map. *)
Theorem WindowCrossMHA2d_window_local in_channels num_heads window_size
    qkv_dim q_weights kv_weights head_weights self x1 x2 x1' x2' attn_mask
    layer_norm1 layer_norm2 B H' W b I J :
  WindowCrossMHA2d.__init__ in_channels num_heads window_size qkv_dim
    q_weights kv_weights head_weights = Ok self →
  let wh := (window_pair window_size).1 in
  let ww := (window_pair window_size).2 in
  shape x1 = [B; in_channels; H'; W] → shape x2 = [B; in_channels; H'; W] →
  shape x1' = [B; in_channels; H'; W] → shape x2' = [B; in_channels; H'; W] →
  wh ≠ 0%nat → ww ≠ 0%nat → (H' mod wh = 0)%nat → (W mod ww = 0)%nat →
  num_heads ≠ 0%nat → qkv_dim ≠ Some 0%nat → in_channels ≠ 0%nat →
  window_local_norm layer_norm1 → window_local_norm layer_norm2 →
  mask_ok attn_mask false
    [(B * (H' / wh) * (W / ww))%nat; num_heads; (wh * ww)%nat; (wh * ww)%nat] →
  (b < B)%nat → (I < H' / wh)%nat → (J < W / ww)%nat →
  (∀ c i j, (c < in_channels)%nat → (i < H')%nat → (j < W)%nat →
     (i / wh)%nat = I → (j / ww)%nat = J →
     data x1 [b; c; i; j] = data x1' [b; c; i; j]
     ∧ data x2 [b; c; i; j] = data x2' [b; c; i; j]) →
  ∃ y y',
    WindowCrossMHA2d.forward self x1 x2 attn_mask layer_norm1 layer_norm2
    = Ok y
    ∧ WindowCrossMHA2d.forward self x1' x2' attn_mask layer_norm1 layer_norm2
      = Ok y'
    ∧ shape y = shape x1 ∧ shape y' = shape x1'
    ∧ ∀ c i j, (i < H')%nat → (j < W)%nat →
        (i / wh)%nat = I → (j / ww)%nat = J →
        data y [b; c; i; j] = data y' [b; c; i; j].
Proof.
  intros Hinit wh ww Hx1 Hx2 Hx1' Hx2' Hwh Hww Hh Hw Hheads Hqkv Hin Hn1 Hn2
    Hmask Hb HI HJ Hagree.
  unfold WindowCrossMHA2d.__init__ in Hinit.
  destruct (CrossMHA.__init__ _ _ _ _ _ _) as [m|] eqn:Hm; [|done].
  cbn [mbind result_bind] in Hinit. injection Hinit as <-.
  pose proof (CrossMHA_init_dims _ _ _ _ _ _ _ Hm Hheads Hqkv Hin) as HD.
  apply CrossMHA_init_inv in Hm
    as (Hsdpa & _ & _ & Hnh & Hqi & Hqo & Hki & Hko & Hhi & Hho).
  unfold WindowCrossMHA2d.forward.
  cbn [WindowCrossMHA2d.window_size WindowCrossMHA2d.mha].
  destruct (window_pair window_size) as [wh' ww'] eqn:Hws.
  cbn [fst snd] in wh, ww. subst wh ww.
  set (n := ((b * (H' / wh') + I) * (W / ww') + J)%nat).
  assert (n < B * (H' / wh') * (W / ww'))%nat as Hn
    by (by apply window_number_lt).
  destruct (bchw_to_bnc_data x1 B in_channels H' W wh' ww')
    as (p1 & -> & Hp1 & Hp1d); [done..|].
  destruct (bchw_to_bnc_data x1' B in_channels H' W wh' ww')
    as (p1' & -> & Hp1' & Hp1d'); [done..|].
  cbn [mbind result_bind].
  destruct (bchw_to_bnc_data x2 B in_channels H' W wh' ww')
    as (p2 & -> & Hp2 & Hp2d); [done..|].
  destruct (bchw_to_bnc_data x2' B in_channels H' W wh' ww')
    as (p2' & -> & Hp2' & Hp2d'); [done..|].
  cbn [mbind result_bind].
  destruct (window_local_norm_apply layer_norm1 p1 p1' _ _ _ n Hn1 Hp1 Hp1' Hn)
    as (u1 & u1' & -> & -> & Hu1 & Hu1' & Hu1d).
  { apply (bchw_to_bnc_window x1 x1' p1 p1' in_channels H' W wh' ww');
      try done. intros. by apply Hagree. }
  cbn [mbind result_bind].
  destruct (window_local_norm_apply layer_norm2 p2 p2' _ _ _ n Hn2 Hp2 Hp2' Hn)
    as (u2 & u2' & -> & -> & Hu2 & Hu2' & Hu2d).
  { apply (bchw_to_bnc_window x2 x2' p2 p2' in_channels H' W wh' ww');
      try done. intros. by apply Hagree. }
  cbn [mbind result_bind].
  destruct (CrossMHA_forward_local m u1 u2 u1' u2' attn_mask false
              (B * (H' / wh') * (W / ww')) (wh' * ww') in_channels n)
    as (z & z' & -> & -> & Hz & Hz' & Hzd);
    [exact Hsdpa|exact Hqi|exact Hqo|exact Hki|exact Hko|exact Hhi|exact Hho
    |exact HD|exact Hu1|exact Hu2|exact Hu1'|exact Hu2'|by rewrite Hnh
    |exact Hn|by intros; split; [apply Hu1d|apply Hu2d]|].
  cbn [mbind result_bind]. rewrite Hx1, Hx1'.
  destruct (bnc_to_bchw_data z B in_channels H' W wh' ww')
    as (y & -> & Hy & Hyd); [done..|].
  destruct (bnc_to_bchw_data z' B in_channels H' W wh' ww')
    as (y' & -> & Hy' & Hyd'); [done..|].
  exists y, y'. split_and!; [done..|].
  intros c i j Hi Hj HiI HjJ. rewrite Hyd, Hyd', HiI, HjJ.
  apply Hzd. by apply token_of_cell.
Qed.

End locality_facts.

(** ** The overlapping windows and the constructors *)

Section overlap_parity_facts.
Context `{Torch}.

(** Padding by half a window on both sides keeps the extent a multiple of
    the window exactly for the windows 1, 2, 4, 6, ... *)
Lemma half_padding_divisible w :
  (w ≠ 0 → (2 * (w / 2)) mod w = 0 ↔ w = 1 ∨ w mod 2 = 0)%nat.
Proof.
  intros Hw. pose proof (Nat.div_mod_eq w 2) as Hdm.
  pose proof (Nat.mod_upper_bound w 2 ltac:(lia)) as Hlt.
  destruct (decide (w mod 2 = 0)%nat) as [He|Ho].
  - replace (2 * (w / 2))%nat with w by lia.
    rewrite Nat.Div0.mod_same. tauto.
  - destruct (decide (w = 1%nat)) as [->|H1]; [by cbn; tauto|].
    replace (2 * (w / 2))%nat with (w - 1)%nat by lia.
    rewrite Nat.mod_small by lia. lia.
Qed.

(** X11: [OverlapWindowMHA2d.forward] works for the window extents 1, 2,
    4, 6, ... and for no others.  On a feature map whose extents are
    multiples of the window it returns a map of the same shape when each
    window extent is 1 or even, and raises the assertion failure of the
    partition of the padded map when one of them is odd and larger than 1. *)
Theorem Overlap_forward_window_parity in_channels num_heads window_size
    qkv_dim qkv_weights head_weights self x attn_mask layer_norm B H' W :
  OverlapWindowMHA2d.__init__ in_channels num_heads window_size qkv_dim
    qkv_weights head_weights = Ok self →
  let wh := (window_pair window_size).1 in
  let ww := (window_pair window_size).2 in
  let N := (wh * ww)%nat in
  has_scaled_dot_product_attention = true →
  shape x = [B; in_channels; H'; W] →
  wh ≠ 0%nat → ww ≠ 0%nat → (H' mod wh = 0)%nat → (W mod ww = 0)%nat →
  num_heads ≠ 0%nat → qkv_dim ≠ Some 0%nat → in_channels ≠ 0%nat →
  norm_ok layer_norm →
  mask_ok attn_mask false
    [(B * (H' / wh) * (W / ww))%nat; num_heads; N; N] →
  mask_ok attn_mask false
    [(B * ((H' + 2 * (wh / 2)) / wh) * ((W + 2 * (ww / 2)) / ww))%nat;
     num_heads; N; N] →
  if decide ((wh = 1 ∨ wh mod 2 = 0) ∧ (ww = 1 ∨ ww mod 2 = 0))%nat
  then ∃ y, OverlapWindowMHA2d.forward self x attn_mask layer_norm = Ok y
            ∧ shape y = shape x
  else OverlapWindowMHA2d.forward self x attn_mask layer_norm
       = Raise AssertionError.
Proof.
  intros Hinit wh ww N Hsdpa Hx Hwh Hww Hh Hw Hheads Hqkv Hin Hnorm Hm1 Hm2.
  pose proof (half_padding_divisible wh Hwh) as Hph.
  pose proof (half_padding_divisible ww Hww) as Hpw.
  case_decide as Hpar.
  - eapply Overlap_forward_shape; try done; tauto.
  - eapply Overlap_forward_odd_window; try done.
    destruct (decide ((2 * (wh / 2)) mod wh = 0)%nat); [|tauto].
    destruct (decide ((2 * (ww / 2)) mod ww = 0)%nat); tauto.
Qed.

(** X12: when the other constructors fail.  [CrossMHA], [WindowMHA2d] and
    [WindowCrossMHA2d] raise exactly when the library lacks
    scaled-dot-product attention, or no [qkv_dim] is given and
    [num_heads] does not divide the channels.  [OverlapWindowMHA2d] never
    asks the library: it raises exactly in the second case.  No constructor
    looks at the window size. *)
Theorem attention_constructors_fail_iff :
  (∀ embed_dim num_heads qkv_dim q_weights kv_weights head_weights,
     (∃ e, CrossMHA.__init__ embed_dim num_heads qkv_dim
             q_weights kv_weights head_weights = Raise e)
     ↔ has_scaled_dot_product_attention = false
       ∨ (qkv_dim = None
          ∧ ¬ (num_heads ≠ 0 ∧ embed_dim mod num_heads = 0)%nat))
  ∧ (∀ in_channels num_heads window_size qkv_dim qkv_weights head_weights,
       (∃ e, WindowMHA2d.__init__ in_channels num_heads window_size qkv_dim
               qkv_weights head_weights = Raise e)
       ↔ has_scaled_dot_product_attention = false
         ∨ (qkv_dim = None
            ∧ ¬ (num_heads ≠ 0 ∧ in_channels mod num_heads = 0)%nat))
  ∧ (∀ in_channels num_heads window_size qkv_dim q_weights kv_weights
       head_weights,
       (∃ e, WindowCrossMHA2d.__init__ in_channels num_heads window_size
               qkv_dim q_weights kv_weights head_weights = Raise e)
       ↔ has_scaled_dot_product_attention = false
         ∨ (qkv_dim = None
            ∧ ¬ (num_heads ≠ 0 ∧ in_channels mod num_heads = 0)%nat))
  ∧ (∀ in_channels num_heads window_size qkv_dim qkv_weights head_weights,
       (∃ e, OverlapWindowMHA2d.__init__ in_channels num_heads window_size
               qkv_dim qkv_weights head_weights = Raise e)
       ↔ qkv_dim = None
         ∧ ¬ (num_heads ≠ 0 ∧ in_channels mod num_heads = 0)%nat).
Proof.
  assert (∀ (a b : nat) (d : option nat),
            (∃ e, match d with
                  | None =>
                      r ← py_mod a b;
                      _ ← py_assert (bool_decide (r = 0%nat));
                      py_floordiv a b
                  | Some d => Ok d
                  end = Raise e)
            ↔ d = None ∧ ¬ (b ≠ 0 ∧ a mod b = 0)%nat) as Hdim.
  { intros a b [d|].
    - split; [by intros [e ?]|by intros [? _]].
    - unfold py_mod, py_floordiv. destruct (decide (b = 0%nat)) as [->|Hb].
      + split; [intros _; split; [done|tauto]|by eexists].
      + cbn [mbind result_bind]. case_bool_decide as Hmod.
        * cbn. split; [by intros [e ?]|tauto].
        * cbn. split; [intros _; split; [done|tauto]|by eexists]. }
  assert (∀ (a b : nat) (d : option nat) {A} (k : nat → A),
            (∃ e, (_ ← py_assert has_scaled_dot_product_attention;
                   qkv_dim ← match d with
                             | None =>
                                 r ← py_mod a b;
                                 _ ← py_assert (bool_decide (r = 0%nat));
                                 py_floordiv a b
                             | Some d => Ok d
                             end;
                   Ok (k qkv_dim)) = Raise e)
            ↔ has_scaled_dot_product_attention = false
              ∨ (d = None ∧ ¬ (b ≠ 0 ∧ a mod b = 0)%nat)) as Hchk.
  { intros a b d A k. specialize (Hdim a b d).
    destruct has_scaled_dot_product_attention; cbn.
    - destruct (match d with None => _ | Some d0 => Ok d0 end) as [n|e0] eqn:E;
        cbn.
      + split; [by intros [e ?]|]. intros [?|Hd]; [done|].
        apply Hdim in Hd as [e ?]. done.
      + split; [|by eexists]. intros _. right. apply Hdim. by eexists.
    - split; [by left|by eexists]. }
  split_and!.
  - intros. unfold CrossMHA.__init__. apply Hchk.
  - intros a b ws d wq wh. unfold WindowMHA2d.__init__.
    rewrite <-(Hchk a b d _ (λ qkv_dim, MHA.Build_t qkv_dim b
      (Build_Linear a (qkv_dim * b * 3) wq)
      (Build_Linear (qkv_dim * b) a wh))).
    fold (MHA.__init__ a b d wq wh).
    destruct (MHA.__init__ a b d wq wh); cbn; split; intros [e' ?]; by eauto.
  - intros a b ws d wq wkv wh. unfold WindowCrossMHA2d.__init__.
    rewrite <-(Hchk a b d _ (λ qkv_dim, CrossMHA.Build_t qkv_dim b
      (Build_Linear a (qkv_dim * b) wq)
      (Build_Linear a (qkv_dim * b * 2) wkv)
      (Build_Linear (qkv_dim * b) a wh))).
    fold (CrossMHA.__init__ a b d wq wkv wh).
    destruct (CrossMHA.__init__ a b d wq wkv wh); cbn; split; intros [e' ?];
      by eauto.
  - intros a b ws d wq wh. unfold OverlapWindowMHA2d.__init__.
    rewrite <-(Hdim a b d).
    destruct (match d with None => _ | Some d0 => Ok d0 end); cbn;
      split; intros [e' ?]; by eauto.
Qed.

End overlap_parity_facts.

(** ** Squeeze-and-excitation *)

Section se_facts.
Context `{Pointwise}.

Lemma broadcast_index_in_range s idx :
  Forall2 lt idx s → broadcast_index s idx = idx.
Proof.
  intros Hin. unfold broadcast_index.
  rewrite (Forall2_length _ _ _ Hin), Nat.sub_diag, drop_0.
  induction Hin as [|i n idx s Hi _ IH]; [done|]. cbn. rewrite IH.
  case_decide; [|done]. f_equal. lia.
Qed.

Lemma broadcast_shapes_same s : broadcast_shapes s s = Some s.
Proof.
  unfold broadcast_shapes.
  assert (∀ l, broadcast_shapes_rev l l = Some l) as Hrev.
  { induction l as [|a l IH]; [done|]. cbn. rewrite IH. cbn.
    by rewrite decide_True. }
  rewrite Hrev. cbn. by rewrite reverse_involutive.
Qed.

Lemma tensor_mul_same_shape (a b : tensor) :
  shape a = shape b →
  ∃ y, tensor_mul a b = Ok y ∧ shape y = shape a
       ∧ ∀ idx, Forall2 lt idx (shape a) →
           data y idx = mul (data a idx) (data b idx).
Proof.
  intros Hab. unfold tensor_mul. rewrite <-Hab, broadcast_shapes_same.
  eexists. split; [done|]. split; [done|]. intros idx Hidx. cbn [data].
  by rewrite broadcast_index_in_range.
Qed.

Lemma SEBlock_forward_spec in_channels reduction weights1 weights2 self x
    B H' W :
  SEBlock.__init__ in_channels reduction weights1 weights2 = Ok self →
  (reduction ≤ in_channels)%nat →
  shape x = [B; in_channels; H'; W] →
  ∃ y, SEBlock.forward self x = Returns y ∧ shape y = shape x
       ∧ ∀ b c i j, (b < B)%nat → (c < in_channels)%nat →
           (i < H')%nat → (j < W)%nat →
           let means :=
             (λ c', mean ((λ ij, data x [b; c'; ij.1; ij.2]) <$> grid H' W))
               <$> seq 0 in_channels in
           data y [b; c; i; j]
           = mul (data x [b; c; i; j])
               (se_gate weights1 weights2 (in_channels / reduction) means c).
Proof.
  intros Hinit Hle Hx. unfold SEBlock.__init__, py_floordiv in Hinit.
  case_decide as Hred; [done|]. cbn [mbind result_bind] in Hinit.
  injection Hinit as <-.
  assert (in_channels / reduction ≠ 0)%nat as Hmid.
  { intros Hz. apply Nat.div_small_iff in Hz; lia. }
  assert (in_channels ≠ 0)%nat as Hin by lia.
  unfold SEBlock.forward, adaptive_avg_pool2d, mean_keepdim. rewrite Hx.
  cbn [length decide_rel]. rewrite decide_False by lia.
  cbn [Nat.sub lookup list_lookup mbind outcome_bind].
  cbn [SEBlock.conv1 SEBlock.conv2].
  match goal with
  | |- context [Conv2d_1x1 ?l ?t] => set (pooled := t)
  end.
  assert (shape pooled = [B; in_channels; 1%nat; 1%nat]) as Hp by done.
  unfold Conv2d_1x1 at 2. cbn [out_features].
  rewrite (decide_False (P := (in_channels / reduction)%nat = 0%nat)) by done.
  rewrite Hp.
  rewrite (Conv2d_forward_Ok _ pooled B in_channels 1 1 Hp) by done.
  cbn [lift mbind outcome_bind in_features out_features affine].
  match goal with
  | |- context [Conv2d_1x1 ?l ?t] => set (hidden := t)
  end.
  assert (shape hidden = [B; (in_channels / reduction)%nat; 1%nat; 1%nat])
    as Hh by done.
  unfold Conv2d_1x1. cbn [out_features].
  rewrite (decide_False (P := in_channels = 0%nat)) by done.
  rewrite Hh.
  rewrite (Conv2d_forward_Ok _ hidden B (in_channels / reduction) 1 1 Hh)
    by done.
  cbn [lift mbind outcome_bind in_features out_features affine].
  match goal with
  | |- context [expand ?t _] => set (gate := t)
  end.
  unfold expand.
  assert (broadcastable (shape gate) [B; in_channels; H'; W] = true) as ->.
  { cbn. rewrite (bool_decide_eq_true_2 (in_channels = in_channels)),
      (bool_decide_eq_true_2 (B = B)) by done.
    by rewrite !orb_true_r. }
  cbn [lift mbind outcome_bind].
  match goal with
  | |- context [tensor_mul x ?t] =>
      destruct (tensor_mul_same_shape x t) as (y & -> & Hy & Hyd);
        [exact Hx|]
  end.
  exists y. split; [done|]. split; [congruence|].
  intros b c i j Hb Hc Hi Hj. rewrite Hyd.
  2: { rewrite Hx. repeat constructor; done. }
  f_equal. cbn [data].
  assert (broadcast_index (shape gate) [b; c; i; j] = [b; c; 0; 0]%nat) as ->.
  { change (shape gate) with [B; in_channels; 1%nat; 1%nat].
    unfold broadcast_index. cbn [length Nat.sub drop zip_with].
    rewrite !(decide_True (P := 1%nat = 1%nat)) by done.
    f_equal; [case_decide; lia|].
    f_equal. case_decide; lia. }
  reflexivity.
Qed.

(** X13: [SEBlock.forward] rescales channels and does nothing else.  Take
    a block with reduction <= in_channels, so that its reduced width
    in_channels // reduction is at least 1, and a (B, C, H, W) input with
    C = in_channels and H, W >= 1.  The block returns a tensor of the same
    shape whose element at (b, c, i, j) is the input element times a gate
    that depends on the batch element and the channel only; the gate is
    computed from the channel means of batch element b alone, by the first
    map, ReLU, the second map and the sigmoid.  [SNSEBlock.forward] is the
    same computation. *)
Theorem SEBlock_forward_gates_channels in_channels reduction weights1
    weights2 self x B H' W :
  SEBlock.__init__ in_channels reduction weights1 weights2 = Ok self →
  (reduction ≤ in_channels)%nat →
  shape x = [B; in_channels; H'; W] → H' ≠ 0%nat → W ≠ 0%nat →
  ∃ y (gate : nat → nat → scalar),
    SEBlock.forward self x = Returns y
    ∧ SNSEBlock.forward self x = Returns y
    ∧ shape y = shape x
    ∧ (∀ b c i j, (b < B)%nat → (c < in_channels)%nat →
         (i < H')%nat → (j < W)%nat →
         data y [b; c; i; j] = mul (data x [b; c; i; j]) (gate b c))
    ∧ ∀ b c,
        gate b c
        = se_gate weights1 weights2 (in_channels / reduction)
            ((λ c', mean ((λ ij, data x [b; c'; ij.1; ij.2]) <$> grid H' W))
               <$> seq 0 in_channels) c.
Proof.
  intros Hinit Hle Hx _ _.
  destruct (SEBlock_forward_spec _ _ _ _ self x B H' W Hinit Hle Hx)
    as (y & Hy & Hys & Hyd).
  exists y. eexists (λ b c, se_gate _ _ _ _ c).
  split_and!; [exact Hy|exact Hy|exact Hys|exact Hyd|reflexivity].
Qed.

(** X24: an [SEBlock] whose reduction exceeds its channel count cannot be
    applied.  The constructor accepts it and gives the first convolution
    in_channels // reduction = 0 output channels; [forward] then raises
    RuntimeError on every four-dimensional input, when it applies that
    convolution.  [SEBlock(4)], with the default reduction of 8, is such a
    block. *)
Theorem SEBlock_forward_small_raises in_channels reduction weights1 weights2
    x B C H' W :
  (in_channels < reduction)%nat → shape x = [B; C; H'; W] →
  ∃ self,
    SEBlock.__init__ in_channels reduction weights1 weights2 = Ok self
    ∧ SEBlock.forward self x = Raises RuntimeError.
Proof.
  intros Hlt Hx. unfold SEBlock.__init__, py_floordiv.
  rewrite decide_False by lia. cbn [mbind result_bind].
  eexists. split; [reflexivity|].
  unfold SEBlock.forward, adaptive_avg_pool2d, mean_keepdim. rewrite Hx.
  cbn [length decide_rel]. rewrite decide_False by lia.
  cbn [Nat.sub lookup list_lookup mbind outcome_bind SEBlock.conv1].
  unfold Conv2d_1x1. cbn [out_features].
  rewrite decide_True by (by apply Nat.div_small).
  reflexivity.
Qed.

Lemma tensor_mul_channel_last (a g : tensor) B H' W C :
  shape a = [B; H'; W; C] → shape g = [B; 1%nat; 1%nat; C] →
  ∃ y, tensor_mul a g = Ok y ∧ shape y = [B; H'; W; C]
       ∧ ∀ b i j c, (b < B)%nat → (i < H')%nat → (j < W)%nat → (c < C)%nat →
           data y [b; i; j; c]
           = mul (data a [b; i; j; c]) (data g [b; 0; 0; c]%nat).
Proof.
  intros Ha Hg. unfold tensor_mul.
  assert (broadcast_shapes (shape a) (shape g) = Some [B; H'; W; C]) as ->.
  { rewrite Ha, Hg. unfold broadcast_shapes. cbn.
    repeat first
      [ rewrite (decide_True (P := B = B)) by done
      | rewrite (decide_True (P := C = C)) by done
      | progress cbn
      | case_decide; subst ];
      first [reflexivity|congruence]. }
  eexists. split; [done|]. split; [done|].
  intros b i j c Hb Hi Hj Hc. cbn [data]. rewrite Ha, Hg.
  rewrite broadcast_index_in_range by (repeat constructor; done).
  f_equal. f_equal. unfold broadcast_index.
  cbn [length Nat.sub drop zip_with].
  rewrite !(decide_True (P := 1%nat = 1%nat)) by done.
  f_equal; [case_decide; lia|]. do 2 f_equal. f_equal. case_decide; lia.
Qed.

Lemma Linear_forward_channel_last (l : Linear) (x : tensor) B H' W C :
  shape x = [B; H'; W; C] → C = in_features l →
  ∃ y, Linear_forward l x = Ok y ∧ shape y = [B; H'; W; out_features l]
       ∧ ∀ b i j o,
           data y [b; i; j; o]
           = default zero
               (affine l ((λ c, data x [b; i; j; c]) <$> seq 0 (in_features l))
                  !! o).
Proof.
  intros Hx HC. unfold Linear_forward. rewrite Hx. cbn [last].
  rewrite decide_True by done. eexists. split; [done|]. by split.
Qed.

Lemma SEBlockNHWC_forward_spec in_channels reduction weights1 weights2 self x
    B H' W :
  SEBlockNHWC.__init__ in_channels reduction weights1 weights2 = Ok self →
  shape x = [B; H'; W; in_channels] →
  ∃ y, SEBlockNHWC.forward self x = Returns y ∧ shape y = shape x
       ∧ ∀ b c i j, (b < B)%nat → (c < in_channels)%nat →
           (i < H')%nat → (j < W)%nat →
           let means :=
             (λ c', mean ((λ ij, data x [b; ij.1; ij.2; c']) <$> grid H' W))
               <$> seq 0 in_channels in
           data y [b; i; j; c]
           = mul (data x [b; i; j; c])
               (se_gate weights1 weights2 (in_channels / reduction) means c).
Proof.
  intros Hinit Hx. unfold SEBlockNHWC.__init__, py_floordiv in Hinit.
  case_decide as Hred; [done|]. cbn [mbind result_bind] in Hinit.
  injection Hinit as <-.
  unfold SEBlockNHWC.forward, mean_keepdim. rewrite Hx.
  cbn [lookup list_lookup mbind outcome_bind].
  cbn [SEBlockNHWC.lin1 SEBlockNHWC.lin2].
  change (<[2%nat:=1%nat]> (<[1%nat:=1%nat]> [B; H'; W; in_channels]))
    with [B; 1%nat; 1%nat; in_channels].
  match goal with
  | |- context [Linear_forward ?l ?t ] =>
      lazymatch t with
      | tensor_map _ _ => fail
      | _ => destruct (Linear_forward_channel_last l t B 1 1 in_channels)
               as (z1 & -> & Hz1 & Hz1d); [done|done|]
      end
  end.
  cbn [lift mbind outcome_bind].
  destruct (Linear_forward_channel_last
              {| in_features := (in_channels / reduction)%nat;
                 out_features := in_channels; affine := weights2 |}
              (tensor_map relu z1) B 1 1 (in_channels / reduction))
    as (z2 & -> & Hz2 & Hz2d); [done|done|].
  cbn [lift mbind outcome_bind].
  destruct (tensor_mul_channel_last x (tensor_map sigmoid z2) B H' W
              in_channels) as (y & -> & Hy & Hyd); [exact Hx|exact Hz2|].
  exists y. split; [done|]. split; [congruence|].
  intros b c i j Hb Hc Hi Hj. rewrite Hyd by done. cbv zeta. f_equal.
  cbn [data tensor_map]. rewrite Hz2d. unfold se_gate.
  cbn [in_features out_features affine]. do 4 f_equal.
  apply Forall_fmap_ext, Forall_seq. intros o Ho. cbn [data tensor_map].
  by rewrite Hz1d.
Qed.

(** X14: [SEBlockNHWC] is [SEBlock] for channel-last tensors.  Take the
    two blocks with the same two maps and reduction <= in_channels (a
    reduced width of at least 1), and a (B, C, H, W) input with
    C = in_channels and H, W >= 1.  Applying [SEBlockNHWC] to the
    channel-last permutation of the input gives the channel-last
    permutation of what [SEBlock] gives on the input itself: both return,
    and the results hold the same element for every batch element, channel
    and position. *)
Theorem SEBlockNHWC_matches_SEBlock in_channels reduction weights1 weights2
    se nhwc x B H' W :
  SEBlock.__init__ in_channels reduction weights1 weights2 = Ok se →
  SEBlockNHWC.__init__ in_channels reduction weights1 weights2 = Ok nhwc →
  (reduction ≤ in_channels)%nat →
  shape x = [B; in_channels; H'; W] → H' ≠ 0%nat → W ≠ 0%nat →
  ∃ xt y yt,
    permute x [0; 2; 3; 1]%nat = Ok xt
    ∧ SEBlock.forward se x = Returns y
    ∧ SEBlockNHWC.forward nhwc xt = Returns yt
    ∧ shape y = [B; in_channels; H'; W]
    ∧ shape yt = [B; H'; W; in_channels]
    ∧ ∀ b c i j, (b < B)%nat → (c < in_channels)%nat →
        (i < H')%nat → (j < W)%nat →
        data yt [b; i; j; c] = data y [b; c; i; j].
Proof.
  intros Hse Hnhwc Hle Hx _ _.
  destruct (bchw_to_bhwc_spec x B in_channels H' W Hx) as (xt & Hxt & Hxts & Hxtd).
  destruct (SEBlock_forward_spec _ _ _ _ se x B H' W Hse Hle Hx)
    as (y & Hy & Hys & Hyd).
  destruct (SEBlockNHWC_forward_spec _ _ _ _ nhwc xt B H' W Hnhwc Hxts)
    as (yt & Hyt & Hyts & Hytd).
  exists xt, y, yt. split_and!; [done|done|done|congruence|congruence|].
  intros b c i j Hb Hc Hi Hj. rewrite Hyd, Hytd by done. cbv zeta.
  rewrite Hxtd. do 2 f_equal.
  apply Forall_fmap_ext, Forall_seq. intros c' _. f_equal.
  apply Forall_fmap_ext, Forall_forall. intros ij _. apply Hxtd.
Qed.

End se_facts.

(** ** Residual blocks *)

Section res_block_facts.
Import res_block.
Context `{Pointwise}.
Variable BatchNorm2d : nat → nat → tensor → outcome tensor.

Lemma Conv2d_forward_shape (c : Conv2d) (x : tensor) B H' W :
  shape x = [B; in_channels c; H'; W] →
  pad_refused (padding_mode c) H' (padding c) = false →
  pad_refused (padding_mode c) W (padding c) = false →
  (kernel_size c ≤ H' + 2 * padding c)%nat →
  (kernel_size c ≤ W + 2 * padding c)%nat →
  ∃ y, Conv2d_forward c x = Ok y
       ∧ shape y
         = [B; out_channels c;
            conv_out_size H' (kernel_size c) (stride c) (padding c);
            conv_out_size W (kernel_size c) (stride c) (padding c)].
Proof.
  intros Hx Hrh Hrw Hkh Hkw. unfold Conv2d_forward. rewrite Hx.
  rewrite decide_False by (intros Hne; by apply Hne).
  rewrite Hrh, Hrw. cbn [orb]. rewrite decide_False by lia. by eexists.
Qed.

Lemma forward_Sequential_cons m ms (x : tensor) :
  forward (Sequential (m :: ms)) x
  = y ← forward m x; forward (Sequential ms) y.
Proof. reflexivity. Qed.

Lemma forward_Conv c (x : tensor) :
  forward (Conv c) x = lift (Conv2d_forward c x).
Proof. reflexivity. Qed.

Lemma forward_Residual conv identity attn act (x : tensor) :
  forward (Residual conv identity attn act) x
  = a ← forward conv x;
    b ← forward identity x;
    s ← lift (broadcast_add a b);
    t ← forward act s;
    forward attn t.
Proof. reflexivity. Qed.

Lemma forward_Sequential_nil (x : tensor) :
  forward (Sequential []) x = Returns x.
Proof. reflexivity. Qed.

Lemma broadcast_add_same_shape (a b : tensor) :
  shape a = shape b →
  ∃ y, broadcast_add a b = Ok y ∧ shape y = shape a.
Proof.
  intros Hab. unfold broadcast_add. rewrite <-Hab, broadcast_shapes_same.
  by eexists.
Qed.

Lemma keeps_feature_maps_Identity dim : keeps_feature_maps Identity dim.
Proof. intros t B H' W Ht _. by exists t. Qed.

Lemma keeps_feature_maps_map (f : scalar → scalar) dim :
  keeps_feature_maps (Layer (λ x, Returns (tensor_map f x))) dim.
Proof. intros t B H' W Ht _. by eexists. Qed.

Lemma block_out_size_first stride valid_stride n :
  (stride = 1 ∨ stride = 2 → 2 ≤ n →
   conv_out_size n
     (if valid_stride && bool_decide (stride = 2) then 4 else 3) stride 1
   = block_out_size stride valid_stride n)%nat.
Proof.
  intros Hs Hn. unfold conv_out_size, block_out_size.
  destruct Hs as [-> | ->].
  - rewrite andb_false_r. cbn [bool_decide decide_rel].
    rewrite decide_False by done. rewrite Nat.div_1_r. lia.
  - rewrite (bool_decide_eq_true_2 (2 = 2)%nat) by done.
    rewrite decide_True by done. rewrite andb_true_r.
    destruct valid_stride.
    + replace (n + 2 * 1 - 4)%nat with (n - 2)%nat by lia.
      replace n with ((n - 2) + 1 * 2)%nat at 2 by lia.
      rewrite Nat.div_add by done. lia.
    + replace (n + 2 * 1 - 3 )%nat with (n - 1)%nat by lia.
      replace (n + 1)%nat with ((n - 1) + 1 * 2)%nat by lia.
      rewrite Nat.div_add by done. lia.
Qed.

Lemma block_out_size_shortcut stride valid_stride n :
  (stride = 1 ∨ stride = 2 → 2 ≤ n →
   conv_out_size n
     (if valid_stride && bool_decide (stride = 2) then 2 else 1) stride 0
   = block_out_size stride valid_stride n)%nat.
Proof.
  intros Hs Hn. unfold conv_out_size, block_out_size.
  destruct Hs as [-> | ->].
  - rewrite andb_false_r. cbn [bool_decide decide_rel].
    rewrite decide_False by done. rewrite Nat.div_1_r. lia.
  - rewrite (bool_decide_eq_true_2 (2 = 2)%nat) by done.
    rewrite decide_True by done. rewrite andb_true_r.
    destruct valid_stride.
    + replace (n + 2 * 0 - 2)%nat with (n - 2)%nat by lia.
      replace n with ((n - 2) + 1 * 2)%nat at 2 by lia.
      rewrite Nat.div_add by done. lia.
    + replace (n + 2 * 0 - 1)%nat with (n - 1)%nat by lia.
      replace (n + 1)%nat with ((n - 1) + 1 * 2)%nat by lia.
      rewrite Nat.div_add by done. lia.
Qed.

Lemma block_out_size_ge stride valid_stride n :
  (stride = 1 ∨ stride = 2 → 4 ≤ n →
   2 ≤ block_out_size stride valid_stride n)%nat.
Proof.
  intros Hs Hn. unfold block_out_size. destruct Hs as [-> | ->].
  - rewrite decide_False by done. lia.
  - rewrite decide_True by done.
    destruct valid_stride; apply Nat.div_le_lower_bound; lia.
Qed.

Lemma conv_out_size_same n : (1 ≤ n → conv_out_size n 3 1 1 = n)%nat.
Proof. intros. unfold conv_out_size. rewrite Nat.div_1_r. lia. Qed.

Lemma pad_refused_false m n pad :
  (pad < n)%nat → pad_refused m n pad = false.
Proof.
  intros. destruct m; cbn; [done|..]; by rewrite bool_decide_eq_false_2 by lia.
Qed.

(** The convolution branch of a padded block. *)
Lemma conv_branch_shape (c1 c2 : Conv2d) norm0 act0 norm1 (x : tensor)
    B H' W stride valid_stride :
  (stride = 1 ∨ stride = 2)%nat →
  in_channels c2 = out_channels c1 → out_channels c2 = out_channels c1 →
  kernel_size c1
  = (if valid_stride && bool_decide (stride = 2%nat) then 4 else 3)%nat →
  res_block.stride c1 = stride → padding c1 = 1%nat →
  kernel_size c2 = 3%nat → res_block.stride c2 = 1%nat →
  padding c2 = 1%nat →
  keeps_feature_maps norm0 (out_channels c1) →
  keeps_feature_maps act0 (out_channels c1) →
  keeps_feature_maps norm1 (out_channels c1) →
  shape x = [B; in_channels c1; H'; W] →
  B ≠ 0%nat → (4 ≤ H')%nat → (4 ≤ W)%nat →
  ∃ y, forward (Sequential [Conv c1; norm0; act0; Conv c2; norm1]) x
       = Returns y
       ∧ shape y = [B; out_channels c1;
                    block_out_size stride valid_stride H';
                    block_out_size stride valid_stride W].
Proof.
  intros Hs Hc2i Hc2o Hk1 Hs1 Hp1 Hk2 Hs2 Hp2 Hn0 Ha0 Hn1 Hx HB HH HW.
  pose proof (block_out_size_ge stride valid_stride H' Hs HH) as HoH.
  pose proof (block_out_size_ge stride valid_stride W Hs HW) as HoW.
  assert (1 < B * block_out_size stride valid_stride H'
              * block_out_size stride valid_stride W)%nat as Hmany.
  { destruct B; [done|]. nia. }
  rewrite forward_Sequential_cons, forward_Conv.
  destruct (Conv2d_forward_shape c1 x B H' W Hx) as (y1 & -> & Hy1).
  { apply pad_refused_false. lia. }
  { apply pad_refused_false. lia. }
  { rewrite Hk1, Hp1. destruct (_ && _); lia. }
  { rewrite Hk1, Hp1. destruct (_ && _); lia. }
  rewrite Hk1, Hs1, Hp1, !block_out_size_first in Hy1 by (done || lia).
  cbn [lift mbind outcome_bind]. rewrite forward_Sequential_cons.
  destruct (Hn0 y1 _ _ _ Hy1 Hmany) as (y2 & -> & Hy2). rewrite Hy1 in Hy2.
  cbn [mbind outcome_bind]. rewrite forward_Sequential_cons.
  destruct (Ha0 y2 _ _ _ Hy2 Hmany) as (y3 & -> & Hy3). rewrite Hy2 in Hy3.
  cbn [mbind outcome_bind]. rewrite forward_Sequential_cons, forward_Conv.
  rewrite <-Hc2i in Hy3.
  destruct (Conv2d_forward_shape c2 y3 _ _ _ Hy3) as (y4 & -> & Hy4).
  { apply pad_refused_false. lia. }
  { apply pad_refused_false. lia. }
  { rewrite Hk2, Hp2. lia. }
  { rewrite Hk2, Hp2. lia. }
  rewrite Hk2, Hs2, Hp2, Hc2o, !conv_out_size_same in Hy4 by lia.
  cbn [lift mbind outcome_bind]. rewrite forward_Sequential_cons.
  destruct (Hn1 y4 _ _ _ Hy4 Hmany) as (y5 & -> & Hy5). rewrite Hy4 in Hy5.
  cbn [mbind outcome_bind]. rewrite forward_Sequential_nil. by exists y5.
Qed.

(** The shortcut of a block that changes the extents or the channels. *)
Lemma shortcut_shape (c : Conv2d) norm2 (x : tensor) B H' W stride
    valid_stride :
  (stride = 1 ∨ stride = 2)%nat →
  kernel_size c
  = (if valid_stride && bool_decide (stride = 2%nat) then 2 else 1)%nat →
  res_block.stride c = stride → padding c = 0%nat → padding_mode c = Zeros →
  keeps_feature_maps norm2 (out_channels c) →
  shape x = [B; in_channels c; H'; W] →
  B ≠ 0%nat → (4 ≤ H')%nat → (4 ≤ W)%nat →
  ∃ y, forward (Sequential [Conv c; norm2]) x = Returns y
       ∧ shape y = [B; out_channels c;
                    block_out_size stride valid_stride H';
                    block_out_size stride valid_stride W].
Proof.
  intros Hs Hk Hst Hp Hm Hn2 Hx HB HH HW.
  pose proof (block_out_size_ge stride valid_stride H' Hs HH) as HoH.
  pose proof (block_out_size_ge stride valid_stride W Hs HW) as HoW.
  assert (1 < B * block_out_size stride valid_stride H'
              * block_out_size stride valid_stride W)%nat as Hmany.
  { destruct B; [done|]. nia. }
  rewrite forward_Sequential_cons, forward_Conv.
  destruct (Conv2d_forward_shape c x B H' W Hx) as (y1 & -> & Hy1).
  { by rewrite Hm. }
  { by rewrite Hm. }
  { rewrite Hk, Hp. destruct (_ && _); lia. }
  { rewrite Hk, Hp. destruct (_ && _); lia. }
  rewrite Hk, Hst, Hp, !block_out_size_shortcut in Hy1 by (done || lia).
  cbn [lift mbind outcome_bind]. rewrite forward_Sequential_cons.
  destruct (Hn2 y1 _ _ _ Hy1 Hmany) as (y2 & -> & Hy2). rewrite Hy1 in Hy2.
  cbn [mbind outcome_bind]. rewrite forward_Sequential_nil. by exists y2.
Qed.

(** What a successful construction has built. *)
Lemma ResBlock_inv in_c out_c stride pa act norm attn valid_stride weights
    block :
  ResBlock BatchNorm2d in_c out_c stride pa (Some act) (Some norm) (Some attn)
    valid_stride weights = Ok block →
  (stride = 1 ∨ stride = 2)%nat
  ∧ ∃ m pad norm0 act0 norm1 identity attn0 act1,
      match pa with
      | mode m' => m = m' ∧ pad = 1%nat
      | none => m = Zeros ∧ pad = 0%nat
      | other => False
      end
      ∧ norm 0%nat out_c = Ok norm0 ∧ act 0%nat out_c = Ok act0
      ∧ norm 1%nat out_c = Ok norm1 ∧ attn 0%nat out_c = Ok attn0
      ∧ act 1%nat out_c = Ok act1
      ∧ (if bool_decide (stride = 2 ∨ in_c ≠ out_c)%nat
         then ∃ norm2,
             norm 2%nat out_c = Ok norm2
             ∧ identity
               = Sequential
                   [Conv {| in_channels := in_c; out_channels := out_c;
                            kernel_size :=
                              if valid_stride && bool_decide (stride = 2%nat)
                              then 2 else 1;
                            res_block.stride := stride;
                            padding := 0; padding_mode := Zeros;
                            kernel := weights 2%nat |};
                    norm2]
         else identity = Identity)
      ∧ block
        = Residual
            (Sequential
               [Conv {| in_channels := in_c; out_channels := out_c;
                        kernel_size :=
                          if valid_stride && bool_decide (stride = 2%nat)
                          then 4 else 3;
                        res_block.stride := stride;
                        padding := pad; padding_mode := m;
                        kernel := weights 0%nat |};
                norm0; act0;
                Conv {| in_channels := out_c; out_channels := out_c;
                        kernel_size := 3; res_block.stride := 1;
                        padding := pad; padding_mode := m;
                        kernel := weights 1%nat |};
                norm1])
            identity attn0 act1.
Proof.
  unfold ResBlock.
  destruct (decide (stride = 1 ∨ stride = 2)%nat) as [Hs|Hs].
  2: { by rewrite (bool_decide_eq_false_2 _ Hs). }
  rewrite (bool_decide_eq_true_2 _ Hs).
  cbn [py_assert mbind result_bind default from_option id].
  intros Hinit. split; [done|].
  destruct (valid_stride && bool_decide (stride = 2%nat)) eqn:Hv;
    destruct pa as [m'| |]; try done;
    destruct (norm 0%nat out_c) as [norm0|]; try done;
    destruct (act 0%nat out_c) as [act0|]; try done;
    destruct (norm 1%nat out_c) as [norm1|]; try done;
    cbn [mbind result_bind] in Hinit;
    case_bool_decide as Hid;
    try (destruct (norm 2%nat out_c) as [norm2|]; [|done]);
    cbn [mbind result_bind] in Hinit;
    destruct (attn 0%nat out_c) as [attn0|]; try done;
    destruct (act 1%nat out_c) as [act1|]; try done;
    cbn [mbind result_bind] in Hinit; injection Hinit as <-;
    eexists _, _, _, _, _, _, _, _;
    (split; [split; reflexivity|]);
    split_and!; try reflexivity; by eauto.
Qed.

(** The shape law of a padded block. *)
Lemma ResBlock_shape in_c out_c stride m act norm attn valid_stride
    weights block x B H' W :
  ResBlock BatchNorm2d in_c out_c stride (mode m) (Some act) (Some norm)
    (Some attn) valid_stride weights = Ok block →
  factory_ok act out_c → factory_ok norm out_c → factory_ok attn out_c →
  shape x = [B; in_c; H'; W] → B ≠ 0%nat → (4 ≤ H')%nat → (4 ≤ W)%nat →
  ∃ y, forward block x = Returns y
       ∧ shape y = [B; out_c; block_out_size stride valid_stride H';
                    block_out_size stride valid_stride W].
Proof.
  intros Hinit Hact Hnorm Hattn Hx HB HH HW.
  apply ResBlock_inv in Hinit
    as (Hs & m' & pad & norm0 & act0 & norm1 & identity & attn0 & act1
        & [-> ->] & Hn0 & Ha0 & Hn1 & Hat & Ha1 & Hid & ->).
  pose proof (block_out_size_ge stride valid_stride H' Hs HH) as HoH.
  pose proof (block_out_size_ge stride valid_stride W Hs HW) as HoW.
  assert (1 < B * block_out_size stride valid_stride H'
              * block_out_size stride valid_stride W)%nat as Hmany.
  { destruct B; [done|]. nia. }
  rewrite forward_Residual.
  match goal with
  | |- context [forward (Sequential [Conv ?c1; _; _; Conv ?c2; _]) x] =>
      destruct (conv_branch_shape c1 c2 norm0 act0 norm1 x B H' W stride
                  valid_stride) as (a & -> & Hsa);
        try done; eauto
  end.
  cbn [mbind outcome_bind out_channels] in Hsa |- *.
  assert (∃ b, forward identity x = Returns b
               ∧ shape b = [B; out_c; block_out_size stride valid_stride H';
                            block_out_size stride valid_stride W])
    as (b & -> & Hsb).
  { case_bool_decide as Hcase.
    - destruct Hid as (norm2 & Hn2 & ->).
      match goal with
      | |- context [forward (Sequential [Conv ?c; _]) x] =>
          apply (shortcut_shape c norm2 x B H' W stride valid_stride);
            try done; eauto
      end.
    - subst identity. exists x. split; [done|].
      assert (stride = 1%nat ∧ in_c = out_c) as [-> ->].
      { destruct (decide (in_c = out_c)); [|tauto].
        destruct Hs; [done|tauto]. }
      rewrite Hx. unfold block_out_size. by rewrite decide_False. }
  cbn [mbind outcome_bind].
  destruct (broadcast_add_same_shape a b) as (s & -> & Hss); [congruence|].
  rewrite Hsa in Hss. cbn [lift mbind outcome_bind].
  destruct (Hact _ _ Ha1 s _ _ _ Hss Hmany) as (t & -> & Hst).
  rewrite Hss in Hst. cbn [mbind outcome_bind].
  destruct (Hattn _ _ Hat t _ _ _ Hst Hmany) as (y & -> & Hsy).
  exists y. by rewrite Hsy, Hst.
Qed.

(** X15: the two branches of a padded [ResBlock] always agree.  For
    stride 1 or 2, any of the four padding modes, and layers that keep the
    shape of what they are given, [forward] maps a (B, in_channels, H, W)
    input with H, W >= 4 to (B, out_channels, H', W'): the extents are kept
    by stride 1 and halved by stride 2, rounding down with [valid_stride]
    (kernels 4 and 2) and up without (kernels 3 and 1). *)
Theorem ResBlock_forward_shape in_c out_c stride m act norm attn valid_stride
    weights block x B H' W :
  ResBlock BatchNorm2d in_c out_c stride (mode m) (Some act) (Some norm)
    (Some attn) valid_stride weights = Ok block →
  factory_ok act out_c → factory_ok norm out_c → factory_ok attn out_c →
  shape x = [B; in_c; H'; W] → B ≠ 0%nat → (4 ≤ H')%nat → (4 ≤ W)%nat →
  ∃ y, forward block x = Returns y
       ∧ shape y = [B; out_c; block_out_size stride valid_stride H';
                    block_out_size stride valid_stride W].
Proof.
  intros Hinit Hact Hnorm Hattn Hx HB HH HW. by eapply ResBlock_shape.
Qed.

Lemma broadcast_shapes_mismatch B C h1 w1 h2 w2 :
  (h1 ≠ h2 ∧ h1 ≠ 1 ∧ h2 ≠ 1)%nat ∨ (w1 ≠ w2 ∧ w1 ≠ 1 ∧ w2 ≠ 1)%nat →
  broadcast_shapes [B; C; h1; w1] [B; C; h2; w2] = None.
Proof.
  intros Hne. unfold broadcast_shapes. cbn.
  rewrite (decide_True (P := B = B)) by done. cbn.
  rewrite (decide_True (P := C = C)) by done. cbn.
  destruct (decide (h1 = h2)) as [->|]; cbn;
    [|destruct (decide (h1 = 1%nat)); cbn;
      [|destruct (decide (h2 = 1%nat)); cbn]];
    try (destruct (decide (w1 = w2)) as [->|]; cbn;
         [|destruct (decide (w1 = 1%nat)); cbn;
           [|destruct (decide (w2 = 1%nat)); cbn]]);
    try reflexivity; lia.
Qed.

(** X16: with [padding_mode="none"] the branches do not fit.  The two
    unpadded 3x3 convolutions shrink each extent by 4 while the shortcut
    keeps it, so for stride 1 and an input of at least 5x5 the addition in
    [forward] raises RuntimeError, unless the input is exactly 5x5 (where
    the 1x1 result is broadcast). *)
Theorem ResBlock_unpadded_raises in_c out_c act norm attn valid_stride
    weights block x B H' W :
  ResBlock BatchNorm2d in_c out_c 1 none (Some act) (Some norm) (Some attn)
    valid_stride weights = Ok block →
  factory_ok act out_c → factory_ok norm out_c →
  shape x = [B; in_c; H'; W] → B ≠ 0%nat → (5 ≤ H')%nat → (5 ≤ W)%nat →
  (H' ≠ 5 ∨ W ≠ 5)%nat →
  forward block x = Raises RuntimeError.
Proof.
  intros Hinit Hact Hnorm Hx HB HH HW Hne.
  apply ResBlock_inv in Hinit
    as (Hs & m' & pad & norm0 & act0 & norm1 & identity & attn0 & act1
        & [-> ->] & Hn0 & Ha0 & Hn1 & Hat & Ha1 & Hid & ->).
  rewrite andb_false_r in *.
  rewrite forward_Residual, forward_Sequential_cons, forward_Conv.
  destruct (Conv2d_forward_shape
              {| in_channels := in_c; out_channels := out_c; kernel_size := 3;
                 stride := 1; padding := 0; padding_mode := Zeros;
                 kernel := weights 0%nat |} x B H' W Hx)
    as (y1 & -> & Hy1); [done|done|cbn; lia|cbn; lia|].
  cbn [out_channels kernel_size stride padding] in Hy1.
  unfold conv_out_size in Hy1. rewrite !Nat.div_1_r in Hy1.
  replace (H' + 2 * 0 - 3 + 1)%nat with (H' - 2)%nat in Hy1 by lia.
  replace (W + 2 * 0 - 3 + 1)%nat with (W - 2)%nat in Hy1 by lia.
  cbn [lift mbind outcome_bind]. rewrite forward_Sequential_cons.
  destruct (Hnorm _ _ Hn0 y1 _ _ _ Hy1) as (y2 & -> & Hy2);
    [destruct B; [done|nia]|].
  rewrite Hy1 in Hy2. cbn [mbind outcome_bind].
  rewrite forward_Sequential_cons.
  destruct (Hact _ _ Ha0 y2 _ _ _ Hy2) as (y3 & -> & Hy3);
    [destruct B; [done|nia]|].
  rewrite Hy2 in Hy3. cbn [mbind outcome_bind].
  rewrite forward_Sequential_cons, forward_Conv.
  destruct (Conv2d_forward_shape
              {| in_channels := out_c; out_channels := out_c;
                 kernel_size := 3; stride := 1; padding := 0;
                 padding_mode := Zeros; kernel := weights 1%nat |}
              y3 B (H' - 2) (W - 2) Hy3)
    as (y4 & -> & Hy4); [done|done|cbn; lia|cbn; lia|].
  cbn [out_channels kernel_size stride padding] in Hy4.
  unfold conv_out_size in Hy4. rewrite !Nat.div_1_r in Hy4.
  replace (H' - 2 + 2 * 0 - 3 + 1)%nat with (H' - 4)%nat in Hy4 by lia.
  replace (W - 2 + 2 * 0 - 3 + 1)%nat with (W - 4)%nat in Hy4 by lia.
  cbn [lift mbind outcome_bind]. rewrite forward_Sequential_cons.
  destruct (Hnorm _ _ Hn1 y4 _ _ _ Hy4) as (y5 & -> & Hy5);
    [destruct B; [done|nia]|].
  rewrite Hy4 in Hy5. cbn [mbind outcome_bind].
  rewrite forward_Sequential_nil. cbn [mbind outcome_bind].
  assert (∃ b, forward identity x = Returns b ∧ shape b = [B; out_c; H'; W])
    as (b & -> & Hsb).
  { case_bool_decide as Hcase.
    - destruct Hid as (norm2 & Hn2 & ->).
      rewrite forward_Sequential_cons, forward_Conv.
      destruct (Conv2d_forward_shape
                  {| in_channels := in_c; out_channels := out_c;
                     kernel_size := 1; stride := 1; padding := 0;
                     padding_mode := Zeros; kernel := weights 2%nat |}
                  x B H' W Hx)
        as (b1 & -> & Hb1); [done|done|cbn; lia|cbn; lia|].
      cbn [out_channels kernel_size stride padding] in Hb1.
      unfold conv_out_size in Hb1. rewrite !Nat.div_1_r in Hb1.
      replace (H' + 2 * 0 - 1 + 1)%nat with H' in Hb1 by lia.
      replace (W + 2 * 0 - 1 + 1)%nat with W in Hb1 by lia.
      cbn [lift mbind outcome_bind]. rewrite forward_Sequential_cons.
      destruct (Hnorm _ _ Hn2 b1 _ _ _ Hb1) as (b2 & -> & Hb2);
        [destruct B; [done|nia]|].
      rewrite Hb1 in Hb2. cbn [mbind outcome_bind].
      rewrite forward_Sequential_nil. by exists b2.
    - subst identity. exists x. split; [done|].
      assert (in_c = out_c) as -> by (destruct (decide (in_c = out_c)); tauto).
      done. }
  cbn [mbind outcome_bind]. unfold broadcast_add.
  rewrite Hy5, Hsb, broadcast_shapes_mismatch; [done|lia].
Qed.

Lemma factory_ok_SEBlock (weights1 weights2 : list scalar → list scalar) dim :
  (8 ≤ dim)%nat →
  factory_ok
    (λ _ dim, block ← SEBlock.__init__ dim 8 weights1 weights2;
              Ok (Layer (SEBlock.forward block))) dim.
Proof.
  intros Hdim k m Hm t B H' W Ht _.
  destruct (SEBlock.__init__ dim 8 weights1 weights2) as [block|] eqn:Hb;
    [|done].
  cbn [mbind result_bind] in Hm. injection Hm as <-.
  destruct (SEBlock_forward_spec _ _ _ _ block t B H' W Hb Hdim Ht)
    as (y & Hy & Hys & _).
  by exists y.
Qed.

(** X17: [ResBlockSELReLU] always constructs for stride 1 or 2 and a
    valid padding mode, with or without the squeeze-and-excitation block.
    With the block it needs out_channels >= 8, the reduction of [SEBlock]
    being 8; without it one output channel is enough.  Then the block it
    returns obeys the shape law of X15: the identity normalisation, the
    leaky ReLU and [SEBlock] all keep the shape, so the law needs no
    assumption about the layers. *)
Theorem ResBlockSELReLU_forward_shape in_c out_c stride m se valid_stride
    weights se_weights :
  (stride = 1 ∨ stride = 2)%nat →
  ((if se : bool then 8 else 1) ≤ out_c)%nat →
  ∃ block,
    ResBlockSELReLU BatchNorm2d in_c out_c stride (mode m) se valid_stride
      weights se_weights = Ok block
    ∧ ∀ x B H' W,
        shape x = [B; in_c; H'; W] → B ≠ 0%nat → (4 ≤ H')%nat → (4 ≤ W)%nat →
        ∃ y, forward block x = Returns y
             ∧ shape y = [B; out_c; block_out_size stride valid_stride H';
                          block_out_size stride valid_stride W].
Proof.
  intros Hs Hse.
  assert (∃ block,
            ResBlockSELReLU BatchNorm2d in_c out_c stride (mode m) se
              valid_stride weights se_weights = Ok block) as [block Hblock].
  { unfold ResBlockSELReLU, ResBlock.
    rewrite (bool_decide_eq_true_2 _ Hs).
    cbn [py_assert mbind result_bind default from_option id].
    destruct (valid_stride && bool_decide (stride = 2%nat));
      destruct (bool_decide (stride = 2 ∨ in_c ≠ out_c)%nat);
      destruct se; cbn; by eexists. }
  exists block. split; [done|]. intros x B H' W Hx HB HH HW.
  unfold ResBlockSELReLU in Hblock.
  eapply ResBlock_shape; [exact Hblock|..|done|done|done|done].
  - intros k l [= <-]. apply keeps_feature_maps_map.
  - intros k l [= <-]. apply keeps_feature_maps_Identity.
  - destruct se.
    + by apply factory_ok_SEBlock.
    + intros k l [= <-]. apply keeps_feature_maps_Identity.
Qed.

Lemma mapM_result_Forall2 {A B} (f : A → result B) l k :
  mapM f l = Ok k → Forall2 (λ x y, f x = Ok y) l k.
Proof.
  revert k. induction l as [|a l IH]; intros k; simpl.
  - intros [= <-]. constructor.
  - destruct (f a) as [b|] eqn:Hb; [|done]. cbn [mbind result_bind].
    destruct (mapM f l) as [k'|]; [|done]. cbn. intros [= <-].
    constructor; [done|]. by apply IH.
Qed.

Lemma forward_Sequential_keeps (ms : list module) (s : list nat) :
  Forall (λ m, ∀ t, shape t = s →
                    ∃ y, forward m t = Returns y ∧ shape y = s) ms →
  ∀ t, shape t = s →
       ∃ y, forward (Sequential ms) t = Returns y ∧ shape y = s.
Proof.
  induction 1 as [|m ms Hm _ IH]; intros t Ht.
  - exists t. by rewrite forward_Sequential_nil.
  - rewrite forward_Sequential_cons.
    destruct (Hm t Ht) as (y & -> & Hy). cbn [mbind outcome_bind].
    by apply IH.
Qed.

(** X18: a [ResGroup] of [ResBlock]s applies the stride once.  The first
    block maps (B, in_channels, H, W) to (B, out_channels, H', W') as in
    X15 and every further block keeps that shape; a group with no layers
    returns its input unchanged, whatever channels and stride it was
    given. *)
Theorem ResGroup_forward_shape in_c out_c num_layers stride m act norm attn
    valid_stride (weights : nat → nat → list scalar → list scalar) group
    x B H' W :
  ResGroup in_c out_c num_layers stride None
    (λ i a b s, ResBlock BatchNorm2d a b s (mode m) (Some act) (Some norm)
                  (Some attn) valid_stride (weights i)) = Ok group →
  factory_ok act out_c → factory_ok norm out_c → factory_ok attn out_c →
  shape x = [B; in_c; H'; W] → B ≠ 0%nat → (8 ≤ H')%nat → (8 ≤ W)%nat →
  ∃ y, forward group x = Returns y
       ∧ shape y
         = if decide (num_layers = 0%nat) then shape x
           else [B; out_c; block_out_size stride valid_stride H';
                 block_out_size stride valid_stride W].
Proof.
  intros Hinit Hact Hnorm Hattn Hx HB HH HW. unfold ResGroup in Hinit.
  destruct (decide (stride = 1 ∨ stride = 2)%nat) as [Hs|Hs].
  2: { by rewrite (bool_decide_eq_false_2 _ Hs) in Hinit. }
  rewrite (bool_decide_eq_true_2 _ Hs) in Hinit.
  cbn [py_assert mbind result_bind default from_option id] in Hinit.
  destruct (mapM _ _) as [layers|] eqn:Hlayers; [|done].
  cbn [mbind result_bind] in Hinit. injection Hinit as <-.
  apply mapM_result_Forall2 in Hlayers.
  destruct num_layers as [|n].
  { apply Forall2_nil_inv_l in Hlayers as ->. exists x.
    by rewrite forward_Sequential_nil. }
  rewrite decide_False by done.
  cbn [seq] in Hlayers.
  apply Forall2_cons_inv_l in Hlayers as (l0 & rest & Hl0 & Hrest & ->).
  rewrite decide_True in Hl0 by done.
  rewrite forward_Sequential_cons.
  assert (4 ≤ H' ∧ 4 ≤ W)%nat as [HH4 HW4] by (clear -HH HW; lia).
  edestruct ResBlock_shape as (y & -> & Hy);
    [exact Hl0|exact Hact|exact Hnorm|exact Hattn|exact Hx|exact HB
    |exact HH4|exact HW4|].
  cbn [mbind outcome_bind].
  apply forward_Sequential_keeps; [|done].
  assert (4 ≤ block_out_size stride valid_stride H'
          ∧ 4 ≤ block_out_size stride valid_stride W)%nat as [HoH HoW].
  { clear -Hs HH HW. unfold block_out_size. destruct Hs as [-> | ->].
    - rewrite !decide_False by done. lia.
    - rewrite !decide_True by done.
      destruct valid_stride; split; apply Nat.div_le_lower_bound; lia. }
  apply Forall_lookup_2. intros j l Hl t Ht.
  destruct (Forall2_lookup_r _ _ _ _ _ Hrest Hl) as (i & Hi & Hbuilt).
  apply lookup_seq in Hi as [-> _].
  rewrite decide_False in Hbuilt by lia.
  edestruct ResBlock_shape as (y' & -> & Hy');
    [exact Hbuilt|exact Hact|exact Hnorm|exact Hattn|exact Ht|exact HB
    |exact HoH|exact HoW|].
  exists y'. split; [done|]. rewrite Hy'. unfold block_out_size.
  by rewrite !(decide_False (P := 1%nat = 2%nat)).
Qed.

End res_block_facts.

(** ** The transform cache *)

Section cache_facts.
Import cache.

Lemma split_free sep s : free_of sep s → split sep s = [s].
Proof.
  induction s as [|c s IH]; [done|].
  intros [Hc Hs]. cbn -[Ascii.eqb]. by rewrite Hc, (IH Hs).
Qed.

Lemma split_app sep a b :
  free_of sep a →
  split sep (a +:+ String sep b) = a :: split sep b.
Proof.
  induction a as [|c a IH].
  - intros _. change (split sep (String sep b) = "" :: split sep b).
    cbn -[Ascii.eqb]. by rewrite Ascii.eqb_refl.
  - intros [Hc Ha].
    change (split sep (String c (a +:+ String sep b))
            = String c a :: split sep b).
    cbn -[Ascii.eqb]. by rewrite Hc, (IH Ha).
Qed.

Lemma string_of_uint_free d : free_of "/" (NilEmpty.string_of_uint d).
Proof. induction d; cbn; auto. Qed.

Lemma str_free n : free_of "/" (str n).
Proof.
  unfold str, NilZero.string_of_int, NilZero.string_of_uint.
  destruct (Z.to_int n) as [[]|[]]; cbn; auto using string_of_uint_free.
Qed.

Lemma split_fraction n d : split "/" (str n +:+ "/" +:+ str d) = [str n; str d].
Proof.
  change ("/" +:+ str d) with (String "/" (str d)).
  rewrite split_app by apply str_free.
  by rewrite split_free by apply str_free.
Qed.

Lemma Fraction_of_Qc (q : Qc) : Fraction (Qnum q) (Zpos (Qden q)) = Fine q.
Proof.
  unfold Fraction. rewrite decide_False by done. f_equal.
  apply Qc_decomp. destruct q as [[n d] Hq]. cbn -[Qred Z.mul].
  by rewrite Z.mul_1_l.
Qed.

Context `{Env}.

Lemma get_cache_path_exists p st :
  exists_ cache_dir (get_cache_path p st).2 = true.
Proof.
  unfold get_cache_path. cbn.
  destruct (exists_ cache_dir st) eqn:E; [done|].
  apply bool_decide_eq_true_2. left. cbn. set_solver.
Qed.

Lemma get_cache_path_again p st :
  exists_ cache_dir st = true →
  get_cache_path p st = ((get_cache_path p st).1, st).
Proof. unfold get_cache_path. cbn. by intros ->. Qed.

Lemma get_cache_path_fst p st st' :
  (get_cache_path p st).1 = (get_cache_path p st').1.
Proof. done. Qed.

Lemma save_cache_spec p t m fps a st :
  (get_cache_path p st).1 ∉ dirs (get_cache_path p st).2 →
  ∃ data,
    save_cache p t m fps a st
    = (Fine (),
       {| dirs := dirs (get_cache_path p st).2;
          files := <[(get_cache_path p st).1 := data]>
                     (files (get_cache_path p st).2) |})
    ∧ holds data id t m a
    ∧ data !! "fps"
      = Some match fps with
             | fraction q => VStr (str (Qnum q) +:+ "/" +:+ str (Zpos (Qden q)))
             | plain x => VArg (float x)
             end.
Proof.
  intros Hp. unfold save_cache.
  destruct (get_cache_path p st) as [cp st0] eqn:E. cbn in Hp |- *.
  unfold torch_save. rewrite decide_False by done.
  eexists. split; [reflexivity|].
  repeat split; by simplify_map_eq.
Qed.

Lemma try_load_cache_file p a a' st data t m fps :
  exists_ cache_dir st = true →
  files st !! (get_cache_path p st).1 = Some data →
  holds data id t m a →
  data !! "fps"
  = Some match fps with
         | fraction q => VStr (str (Qnum q) +:+ "/" +:+ str (Zpos (Qden q)))
         | plain x => VArg (float x)
         end →
  reads_back fps →
  try_load_cache p a' st
  = (Fine (if ne (max_fps a') (max_fps a) || ne (resolution a') (resolution a)
              || bool_decide (md5 (vf a') ≠ md5 (Some (md5 (vf a))))
           then None
           else Some (<["fps" := restored fps]> (Stored <$> data))),
     st).
Proof.
  intros Hdir Hfile (Ht & Hm & Hmax & Hvf & Hres & Hver) Hfps Hint.
  unfold try_load_cache. rewrite (get_cache_path_again _ _ Hdir).
  set (cp := (get_cache_path p st).1) in *.
  assert (exists_ cp st = true) as ->.
  { apply bool_decide_eq_true_2. right. by rewrite Hfile. }
  f_equal. unfold torch_load. rewrite Hfile. cbn.
  rewrite decide_False by (by rewrite Hver).
  unfold getitem. rewrite Hmax. cbn.
  destruct (ne (max_fps a') (max_fps a)); [done|].
  rewrite Hres. cbn.
  destruct (ne (resolution a') (resolution a)); [done|].
  rewrite Hvf. cbn -[md5].
  destruct (decide (md5 (vf a') ≠ md5 (Some (md5 (vf a))))) as [Hne|Heq].
  { by rewrite (bool_decide_eq_true_2 _ Hne). }
  rewrite (bool_decide_eq_false_2 _ Heq). cbn.
  rewrite Hfps. destruct fps as [q|x]; [|cbn].
  2: { by rewrite insert_id by (by rewrite lookup_fmap, Hfps). }
  cbn -[split str String.append]. rewrite split_fraction. destruct Hint as [-> ->]. cbn.
  by rewrite Fraction_of_Qc.
Qed.

Lemma load_after_save p t m fps a a' st :
  (get_cache_path p st).1 ∉ dirs (get_cache_path p st).2 →
  reads_back fps →
  ∃ data st',
    save_cache p t m fps a st = (Fine (), st')
    ∧ holds data id t m a
    ∧ try_load_cache p a' st'
      = (Fine (if ne (max_fps a') (max_fps a)
                  || ne (resolution a') (resolution a)
                  || bool_decide (md5 (vf a') ≠ md5 (Some (md5 (vf a))))
               then None
               else Some (<["fps" := restored fps]> (Stored <$> data))),
         st').
Proof.
  intros Hp Hint.
  destruct (save_cache_spec p t m fps a st Hp) as (data & Hsave & Hholds & Hfps).
  eexists data, _. split; [exact Hsave|]. split; [done|].
  apply (try_load_cache_file _ a _ _ data t m fps); try done.
  - pose proof (get_cache_path_exists p st) as Hex.
    apply bool_decide_eq_true_1 in Hex. apply bool_decide_eq_true_2.
    destruct Hex as [?|[d Hd]]; [by left|right]. cbn -[get_cache_path].
    destruct (decide ((get_cache_path p st).1 = cache_dir)) as [->|?].
    + by rewrite lookup_insert_eq.
    + by rewrite lookup_insert_ne, Hd.
  - cbn -[get_cache_path]. rewrite (get_cache_path_fst _ _ st).
    by rewrite lookup_insert_eq.
Qed.

Lemma holds_insert_fps (data : gmap string value) t m a v :
  holds data id t m a → holds (<["fps" := v]> (Stored <$> data)) Stored t m a.
Proof.
  unfold holds. intros (Ht & Hm & Hmax & Hvf & Hres & Hver).
  rewrite !lookup_insert_ne, !lookup_fmap by done.
  by rewrite Ht, Hm, Hmax, Hvf, Hres, Hver.
Qed.

(** X19: a cache saved without a video filter, that is with [args.vf]
    [None] or empty, is found again by [try_load_cache] under the same
    options: it returns the saved transforms, scores and options, and
    the frame rate as it was given, a [Fraction] restored from its
    [numerator/denominator] string.  The options must be equal to
    themselves under [!=], and [int] must read the two numbers back. *)
Theorem save_cache_try_load_cache_round_trip p t m fps a st :
  (get_cache_path p st).1 ∉ dirs (get_cache_path p st).2 →
  reads_back fps →
  ne (max_fps a) (max_fps a) = false →
  ne (resolution a) (resolution a) = false →
  vf a = None ∨ vf a = Some "" →
  ∃ data st',
    save_cache p t m fps a st = (Fine (), st')
    ∧ try_load_cache p a st' = (Fine (Some data), st')
    ∧ holds data Stored t m a
    ∧ data !! "fps" = Some (restored fps).
Proof.
  intros Hp Hint Hmax Hres Hvf.
  destruct (load_after_save p t m fps a a st Hp Hint)
    as (data & st' & Hsave & Hholds & Hload).
  exists (<["fps" := restored fps]> (Stored <$> data)), st'.
  split; [done|]. split.
  - rewrite Hload, Hmax, Hres. cbn -[md5].
    assert (md5 (vf a) = "") as -> by (by destruct Hvf as [-> | ->]).
    by rewrite bool_decide_eq_false_2 by (intros Hne; by apply Hne).
  - split; [by apply holds_insert_fps|].
    by rewrite lookup_insert_eq.
Qed.

(** X20: a cache saved with a video filter is not found again, not even
    under the very options it was saved with: [save_cache] stores the
    digest of the filter and [try_load_cache] compares the digest of the
    filter with the digest of the stored digest.  This holds whenever the
    digest is not empty and is not its own salted digest. *)
Theorem save_cache_with_filter_never_loads p t m fps a a' st s :
  (get_cache_path p st).1 ∉ dirs (get_cache_path p st).2 →
  reads_back fps →
  vf a = Some s →
  vf a' = Some s →
  s ≠ "" →
  hexdigest (s +:+ MD5_SALT) ≠ "" →
  hexdigest (hexdigest (s +:+ MD5_SALT) +:+ MD5_SALT)
  ≠ hexdigest (s +:+ MD5_SALT) →
  ∃ st',
    save_cache p t m fps a st = (Fine (), st')
    ∧ try_load_cache p a' st' = (Fine None, st').
Proof.
  intros Hp Hint Hvf Hvf' Hs Hh Hfix.
  destruct (load_after_save p t m fps a a' st Hp Hint)
    as (data & st' & Hsave & Hholds & Hload).
  exists st'. split; [done|]. rewrite Hload, Hvf, Hvf'. cbn.
  rewrite !(decide_False (P := s = "")) by done.
  rewrite decide_False by done.
  rewrite bool_decide_eq_true_2 by (intros Heq; by apply Hfix).
  by rewrite orb_true_r.
Qed.

(** X21: a cache is not used under another frame-rate limit or another
    resolution: [try_load_cache] returns [None], without an exception,
    when [max_fps] or [resolution] differs from the saved one. *)
Theorem try_load_cache_other_options p t m fps a a' st :
  (get_cache_path p st).1 ∉ dirs (get_cache_path p st).2 →
  reads_back fps →
  ne (max_fps a') (max_fps a) = true
  ∨ ne (resolution a') (resolution a) = true →
  ∃ st',
    save_cache p t m fps a st = (Fine (), st')
    ∧ try_load_cache p a' st' = (Fine None, st').
Proof.
  intros Hp Hint Hne.
  destruct (load_after_save p t m fps a a' st Hp Hint)
    as (data & st' & Hsave & Hholds & Hload).
  exists st'. split; [done|]. rewrite Hload.
  destruct Hne as [-> | ->]; [done|]. by rewrite orb_true_r.
Qed.

(** X22: after [purge_cache], [try_load_cache] finds nothing for that
    video, whatever the options and whether or not a cache was there;
    the caches of the other videos are left as they were.  The cache
    path is taken to be no directory and not the cache directory. *)
Theorem purge_cache_try_load_cache p a st :
  (get_cache_path p st).1 ∉ dirs (get_cache_path p st).2 →
  (get_cache_path p st).1 ≠ cache_dir →
  ∃ st',
    purge_cache p st = (Fine (), st')
    ∧ try_load_cache p a st' = (Fine None, st')
    ∧ files st' = delete (get_cache_path p st).1 (files st).
Proof.
  intros Hp Hcp. pose proof (get_cache_path_exists p st) as Hdir.
  unfold purge_cache, try_load_cache.
  destruct (get_cache_path p st) as [cp st0] eqn:E. cbn in Hp, Hcp, Hdir.
  assert (files st0 = files st) as Hfiles.
  { unfold get_cache_path in E. injection E as _ <-.
    by destruct (exists_ cache_dir st). }
  assert (∀ st1, exists_ cache_dir st1 = true →
                 get_cache_path p st1 = (cp, st1)) as Hagain.
  { intros st1 H1. rewrite (get_cache_path_again _ _ H1).
    by rewrite (get_cache_path_fst _ _ st), E. }
  destruct (files st0 !! cp) as [d|] eqn:Hd.
  - assert (exists_ cp st0 = true) as ->
      by (apply bool_decide_eq_true_2; right; by rewrite Hd).
    unfold unlink. rewrite Hd. eexists. split; [done|].
    assert (exists_ cache_dir
              {| dirs := dirs st0; files := delete cp (files st0) |} = true)
      as Hdir'.
    { apply bool_decide_eq_true_1 in Hdir. apply bool_decide_eq_true_2.
      destruct Hdir as [?|[d' Hd']]; [by left|right]. cbn.
      by rewrite lookup_delete_ne, Hd'. }
    rewrite (Hagain _ Hdir').
    assert (exists_ cp {| dirs := dirs st0; files := delete cp (files st0) |}
            = false) as ->.
    { apply bool_decide_eq_false_2. cbn. rewrite lookup_delete_eq.
      intros [?|[? ?]]; done. }
    split; [done|]. cbn. by rewrite Hfiles.
  - assert (exists_ cp st0 = false) as Hno.
    { apply bool_decide_eq_false_2. rewrite Hd. intros [?|[? ?]]; done. }
    rewrite Hno. exists st0. split; [done|].
    rewrite (Hagain _ Hdir), Hno. split; [done|].
    rewrite <-Hfiles. symmetry. by apply delete_id.
Qed.

(** X23: saving the cache of one video does not change what
    [try_load_cache] returns for a video with another cache path. *)
Theorem save_cache_other_video p p' t m fps a a' st :
  (get_cache_path p st).1 ≠ (get_cache_path p' st).1 →
  (try_load_cache p a' (save_cache p' t m fps a st).2).1
  = (try_load_cache p a' st).1.
Proof.
  intros Hne. pose proof (get_cache_path_exists p' st) as Hdir.
  unfold save_cache.
  destruct (get_cache_path p' st) as [cp' st0] eqn:E'.
  cbn [fst snd] in Hne, Hdir.
  assert (get_cache_path p st = ((get_cache_path p st).1, st0)) as E.
  { unfold get_cache_path in E' |- *. by injection E' as _ <-. }
  set (cp := (get_cache_path p st).1) in *.
  unfold torch_save.
  set (obj := <["transforms" := _]> _). clearbody obj.
  assert (∀ st1, exists_ cache_dir st1 = true →
                 get_cache_path p st1 = (cp, st1)) as Hagain.
  { intros st1 H1. rewrite (get_cache_path_again _ _ H1).
    by rewrite (get_cache_path_fst _ _ st). }
  unfold try_load_cache at 2. rewrite E.
  destruct (decide (cp' ∈ dirs st0)) as [Hin|Hout]; cbn [snd].
  { unfold try_load_cache. by rewrite (Hagain _ Hdir). }
  assert (exists_ cache_dir
            {| dirs := dirs st0; files := <[cp' := obj]> (files st0) |} = true)
    as Hdir'.
  { apply bool_decide_eq_true_1 in Hdir. apply bool_decide_eq_true_2.
    destruct Hdir as [?|[d' Hd']]; [by left|right]. cbn.
    destruct (decide (cp' = cache_dir)) as [->|?].
    - by rewrite lookup_insert_eq.
    - by rewrite lookup_insert_ne, Hd'. }
  unfold try_load_cache. rewrite (Hagain _ Hdir').
  unfold exists_, torch_load. cbn [dirs files].
  rewrite lookup_insert_ne by done.
  by destruct (bool_decide _).
Qed.

End cache_facts.

(** ** The statements at concrete inputs *)

Lemma sliced_sdp_checks_divisibility_witness :
  shape (filled [2; 16; 64]%nat 0) = [2; 16; 64]%nat
  ∧ 7%nat ≠ 0%nat ∧ (64 mod 7 ≠ 0)%nat
  ∧ @sliced_sdp Z_scalar uniform_torch (filled [2; 16; 64]%nat 0)
      (filled [2; 16; 64]%nat 0) (filled [2; 16; 64]%nat 0) 7 None 0%Q false
    = Raise AssertionError.
Proof.
  assert (7%nat ≠ 0%nat) as H7 by discriminate.
  assert (64 mod 7 ≠ 0)%nat as H64 by discriminate.
  split_and!; [reflexivity|done..|].
  exact (@sliced_sdp_checks_divisibility Z_scalar uniform_torch
           (filled [2; 16; 64]%nat 0) (filled [2; 16; 64]%nat 0)
           (filled [2; 16; 64]%nat 0) 7%nat None 0%Q false
           2%nat 16%nat 64%nat eq_refl H7 H64).
Defined.

(** C2 as stated fails: 64 channels do not divide into 7 heads, and the
    call raises the assertion failure of [sliced_sdp] itself. *)
Lemma sliced_sdp_raises_on_64_channels_7_heads :
  (64 mod 7 ≠ 0)%nat
  ∧ @sliced_sdp Z_scalar uniform_torch (filled [2; 16; 64]%nat 0)
      (filled [2; 16; 64]%nat 0) (filled [2; 16; 64]%nat 0) 7 None 0%Q false
    = Raise AssertionError.
Proof. split; [discriminate|reflexivity]. Qed.


Lemma CrossMHA_forward_shape_mismatch_witness :
  shape (filled [4; 9; 32]%nat 0) ≠ shape (filled [4; 10; 32]%nat 0)
  ∧ @CrossMHA.forward Z_scalar uniform_torch cross_mha_32_4
      (filled [4; 9; 32]%nat 0) (filled [4; 10; 32]%nat 0) None 0%Q false
    = Raise AssertionError.
Proof.
  assert (shape (filled [4; 9; 32]%nat 0) ≠ shape (filled [4; 10; 32]%nat 0))
    as Hne by discriminate.
  split; [done|].
  exact (@CrossMHA_forward_shape_mismatch Z_scalar uniform_torch
           cross_mha_32_4 (filled [4; 9; 32]%nat 0) (filled [4; 10; 32]%nat 0)
           None 0%Q false Hne).
Defined.

Lemma MHA_construction_fails_iff_indivisible_witness :
  @has_scaled_dot_product_attention Z_scalar uniform_torch = true
  ∧ @MHA.__init__ Z_scalar uniform_torch 64 7 None
      (tile_features 192) (tile_features 64)
    = Raise AssertionError
  ∧ ∃ m, @MHA.__init__ Z_scalar uniform_torch 64 8 None
           (tile_features 192) (tile_features 64) = Ok m
         ∧ ∃ y, @MHA.forward Z_scalar uniform_torch m
                  (filled [2; 16; 64]%nat 0) None 0%Q false = Ok y
                ∧ shape y = [2; 16; 64]%nat.
Proof.
  pose proof (@MHA_construction_fails_iff_indivisible Z_scalar uniform_torch
                eq_refl) as (_ & H7 & _ & H8).
  split_and!; [reflexivity|apply H7|].
  destruct (H8 (tile_features 192) (tile_features 64)) as (m & Hm & Hfwd).
  exists m. split; [exact Hm|].
  exact (Hfwd (filled [2; 16; 64]%nat 0) 0%Q eq_refl).
Defined.

(** C6 fails for the overlapping variant: a 3x3 input is valid for 3x3
    windows, but padding by 3 // 2 = 1 on each side gives a 5x5 map, which
    the partition refuses. *)
Theorem Overlap_forward_3x3_raises :
  @OverlapWindowMHA2d.__init__ Z_scalar 4 2 (WinInt 3) None
    (tile_features 12) (tile_features 4) = Ok overlap_3x3
  ∧ shape (numbered [1; 4; 3; 3]%nat) = [1; 4; 3; 3]%nat
  ∧ (3 mod 3 = 0)%nat
  ∧ @OverlapWindowMHA2d.forward Z_scalar uniform_torch overlap_3x3
      (numbered [1; 4; 3; 3]%nat) None None
    = Raise AssertionError.
Proof. split_and!; reflexivity. Qed.

Lemma Overlap_1x1_pointwise_witness :
  @OverlapWindowMHA2d.__init__ Z_scalar 2 1 (WinInt 1) None
    (tile_features 6) (tile_features 2) = Ok overlap_1x1
  ∧ window_pair (WinInt 1) = (1, 1)%nat
  ∧ @has_scaled_dot_product_attention Z_scalar uniform_torch = true
  ∧ shape (numbered [1; 2; 2; 2]%nat) = [1; 2; 2; 2]%nat
  ∧ shape (blank_except (numbered [1; 2; 2; 2]%nat) 0 1 0)
    = [1; 2; 2; 2]%nat
  ∧ 1%nat ≠ 0%nat ∧ (None : option nat) ≠ Some 0%nat ∧ 2%nat ≠ 0%nat
  ∧ @mask_ok Z_scalar None false [(1 * 2 * 2)%nat; 1%nat; 1%nat; 1%nat]
  ∧ @pointwise_norm Z_scalar None
  ∧ (0 < 1)%nat ∧ (1 < 2)%nat ∧ (0 < 2)%nat
  ∧ (∀ c, (c < 2)%nat →
          data (numbered [1; 2; 2; 2]%nat) [0; c; 1; 0]%nat
          = data (blank_except (numbered [1; 2; 2; 2]%nat) 0 1 0)
              [0; c; 1; 0]%nat)
  ∧ ∃ y y',
      @OverlapWindowMHA2d.forward Z_scalar uniform_torch overlap_1x1
        (numbered [1; 2; 2; 2]%nat) None None = Ok y
      ∧ @OverlapWindowMHA2d.forward Z_scalar uniform_torch overlap_1x1
          (blank_except (numbered [1; 2; 2; 2]%nat) 0 1 0) None None = Ok y'
      ∧ shape y = shape (numbered [1; 2; 2; 2]%nat)
      ∧ shape y' = shape (blank_except (numbered [1; 2; 2; 2]%nat) 0 1 0)
      ∧ ∀ o, data y [0; o; 1; 0]%nat = data y' [0; o; 1; 0]%nat.
Proof.
  assert (∀ c, (c < 2)%nat →
            data (numbered [1; 2; 2; 2]%nat) [0; c; 1; 0]%nat
            = data (blank_except (numbered [1; 2; 2; 2]%nat) 0 1 0)
                [0; c; 1; 0]%nat)
    as Hagree by (intros c _; reflexivity).
  split_and!; [reflexivity|reflexivity|reflexivity|reflexivity|reflexivity
              |discriminate|discriminate|discriminate|exact I|exact I
              |lia|lia|lia|exact Hagree|].
  exact (@Overlap_1x1_pointwise Z_scalar uniform_torch 2 1 (WinInt 1) None
           (tile_features 6) (tile_features 2) overlap_1x1
           (numbered [1; 2; 2; 2]%nat)
           (blank_except (numbered [1; 2; 2; 2]%nat) 0 1 0) None None
           1 2 2 0 1 0 eq_refl eq_refl eq_refl eq_refl eq_refl
           (λ H, match H with end) (λ H, match H with end)
           (λ H, match H with end) I I
           (Nat.lt_0_succ 0) (Nat.lt_succ_diag_r 1) (Nat.lt_0_succ 1) Hagree).
Defined.

Lemma sliced_sdp_slice_local_witness :
  @has_scaled_dot_product_attention Z_scalar uniform_torch = true
  ∧ shape (numbered [2; 3; 4]%nat) = [2; 3; 4]%nat
  ∧ shape (keep_batch (numbered [2; 3; 4]%nat) 1) = [2; 3; 4]%nat
  ∧ 2%nat ≠ 0%nat ∧ (4 mod 2 = 0)%nat
  ∧ @mask_ok Z_scalar None false [2; 2; 3; 3]%nat
  ∧ (1 < 2)%nat ∧ (0 < 2)%nat
  ∧ (∀ n j, (n < 3)%nat → (j < 4 / 2)%nat →
       data (numbered [2; 3; 4]%nat) [1; n; 0 * (4 / 2) + j]%nat
       = data (keep_batch (numbered [2; 3; 4]%nat) 1)
           [1; n; 0 * (4 / 2) + j]%nat)
  ∧ ∃ y y',
      @sliced_sdp Z_scalar uniform_torch (numbered [2; 3; 4]%nat)
        (numbered [2; 3; 4]%nat) (numbered [2; 3; 4]%nat) 2 None 0%Q false
      = Ok y
      ∧ @sliced_sdp Z_scalar uniform_torch
          (keep_batch (numbered [2; 3; 4]%nat) 1)
          (keep_batch (numbered [2; 3; 4]%nat) 1)
          (keep_batch (numbered [2; 3; 4]%nat) 1) 2 None 0%Q false
        = Ok y'
      ∧ shape y = [2; 3; 4]%nat ∧ shape y' = [2; 3; 4]%nat
      ∧ ∀ n j, (n < 3)%nat → (j < 4 / 2)%nat →
          data y [1; n; 0 * (4 / 2) + j]%nat
          = data y' [1; n; 0 * (4 / 2) + j]%nat.
Proof.
  assert (∀ n j, (n < 3)%nat → (j < 4 / 2)%nat →
            data (numbered [2; 3; 4]%nat) [1; n; 0 * (4 / 2) + j]%nat
            = data (keep_batch (numbered [2; 3; 4]%nat) 1)
                [1; n; 0 * (4 / 2) + j]%nat)
    as Hagree by (intros n j _ _; reflexivity).
  split_and!; [reflexivity|reflexivity|reflexivity|discriminate|reflexivity
              |exact I|lia|lia|exact Hagree|].
  apply (@sliced_sdp_slice_local Z_scalar uniform_torch
           (numbered [2; 3; 4]%nat) (numbered [2; 3; 4]%nat)
           (numbered [2; 3; 4]%nat)
           (keep_batch (numbered [2; 3; 4]%nat) 1)
           (keep_batch (numbered [2; 3; 4]%nat) 1)
           (keep_batch (numbered [2; 3; 4]%nat) 1)
           2%nat None false 2%nat 3%nat 4%nat 1%nat 0%nat);
    [reflexivity|reflexivity|reflexivity|reflexivity|reflexivity|reflexivity
    |reflexivity|discriminate|reflexivity|exact I|lia|lia|].
  intros n j Hn Hj. split_and!; exact (Hagree n j Hn Hj).
Defined.

Lemma MHA_forward_batch_local_witness :
  @MHA.__init__ Z_scalar uniform_torch 4 2 None
    (tile_features 12) (tile_features 4) = Ok mha_4_2
  ∧ 2%nat ≠ 0%nat ∧ (None : option nat) ≠ Some 0%nat ∧ 4%nat ≠ 0%nat
  ∧ shape (numbered [2; 3; 4]%nat) = [2; 3; 4]%nat
  ∧ shape (keep_batch (numbered [2; 3; 4]%nat) 1) = [2; 3; 4]%nat
  ∧ @mask_ok Z_scalar None false [2; 2; 3; 3]%nat
  ∧ (1 < 2)%nat
  ∧ (∀ n c, (n < 3)%nat → (c < 4)%nat →
       data (numbered [2; 3; 4]%nat) [1; n; c]%nat
       = data (keep_batch (numbered [2; 3; 4]%nat) 1) [1; n; c]%nat)
  ∧ ∃ y y',
      @MHA.forward Z_scalar uniform_torch mha_4_2
        (numbered [2; 3; 4]%nat) None 0%Q false = Ok y
      ∧ @MHA.forward Z_scalar uniform_torch mha_4_2
          (keep_batch (numbered [2; 3; 4]%nat) 1) None 0%Q false = Ok y'
      ∧ shape y = shape (numbered [2; 3; 4]%nat)
      ∧ shape y' = shape (keep_batch (numbered [2; 3; 4]%nat) 1)
      ∧ ∀ n c, (n < 3)%nat → data y [1; n; c]%nat = data y' [1; n; c]%nat.
Proof.
  assert (∀ n c, (n < 3)%nat → (c < 4)%nat →
            data (numbered [2; 3; 4]%nat) [1; n; c]%nat
            = data (keep_batch (numbered [2; 3; 4]%nat) 1) [1; n; c]%nat)
    as Hagree by (intros n c _ _; reflexivity).
  split_and!; [reflexivity|discriminate|discriminate|discriminate
              |reflexivity|reflexivity|exact I|lia|exact Hagree|].
  apply (@MHA_forward_batch_local Z_scalar uniform_torch 4 2 None
           (tile_features 12) (tile_features 4) mha_4_2
           (numbered [2; 3; 4]%nat) (keep_batch (numbered [2; 3; 4]%nat) 1)
           None false 2 3 1);
    [reflexivity|discriminate|discriminate|discriminate|reflexivity
    |reflexivity|exact I|lia|exact Hagree].
Defined.

Lemma CrossMHA_forward_batch_local_witness :
  @CrossMHA.__init__ Z_scalar uniform_torch 4 2 None
    (tile_features 4) (tile_features 8) (tile_features 4) = Ok cross_mha_4_2
  ∧ 2%nat ≠ 0%nat ∧ (None : option nat) ≠ Some 0%nat ∧ 4%nat ≠ 0%nat
  ∧ shape (numbered [2; 3; 4]%nat) = [2; 3; 4]%nat
  ∧ shape (filled [2; 3; 4]%nat 7) = [2; 3; 4]%nat
  ∧ shape (keep_batch (numbered [2; 3; 4]%nat) 1) = [2; 3; 4]%nat
  ∧ @mask_ok Z_scalar None false [2; 2; 3; 3]%nat
  ∧ (1 < 2)%nat
  ∧ (∀ n c, (n < 3)%nat → (c < 4)%nat →
       data (numbered [2; 3; 4]%nat) [1; n; c]%nat
       = data (keep_batch (numbered [2; 3; 4]%nat) 1) [1; n; c]%nat
       ∧ data (filled [2; 3; 4]%nat 7) [1; n; c]%nat
         = data (filled [2; 3; 4]%nat 7) [1; n; c]%nat)
  ∧ ∃ y y',
      @CrossMHA.forward Z_scalar uniform_torch cross_mha_4_2
        (numbered [2; 3; 4]%nat) (filled [2; 3; 4]%nat 7) None 0%Q false
      = Ok y
      ∧ @CrossMHA.forward Z_scalar uniform_torch cross_mha_4_2
          (keep_batch (numbered [2; 3; 4]%nat) 1) (filled [2; 3; 4]%nat 7)
          None 0%Q false = Ok y'
      ∧ shape y = shape (numbered [2; 3; 4]%nat)
      ∧ shape y' = shape (keep_batch (numbered [2; 3; 4]%nat) 1)
      ∧ ∀ n c, (n < 3)%nat → data y [1; n; c]%nat = data y' [1; n; c]%nat.
Proof.
  assert (∀ n c, (n < 3)%nat → (c < 4)%nat →
            data (numbered [2; 3; 4]%nat) [1; n; c]%nat
            = data (keep_batch (numbered [2; 3; 4]%nat) 1) [1; n; c]%nat
            ∧ data (filled [2; 3; 4]%nat 7) [1; n; c]%nat
              = data (filled [2; 3; 4]%nat 7) [1; n; c]%nat)
    as Hagree by (intros n c _ _; split; reflexivity).
  split_and!; [reflexivity|discriminate|discriminate|discriminate
              |reflexivity|reflexivity|reflexivity|exact I|lia|exact Hagree|].
  apply (@CrossMHA_forward_batch_local Z_scalar uniform_torch 4 2 None
           (tile_features 4) (tile_features 8) (tile_features 4)
           cross_mha_4_2
           (numbered [2; 3; 4]%nat) (filled [2; 3; 4]%nat 7)
           (keep_batch (numbered [2; 3; 4]%nat) 1) (filled [2; 3; 4]%nat 7)
           None false 2 3 1);
    [reflexivity|discriminate|discriminate|discriminate|reflexivity
    |reflexivity|reflexivity|reflexivity|exact I|lia|exact Hagree].
Defined.

Lemma WindowMHA2d_window_local_witness :
  @WindowMHA2d.__init__ Z_scalar uniform_torch 4 2 (WinInt 2) None
    (tile_features 12) (tile_features 4) = Ok window_mha_4_2
  ∧ shape (numbered [1; 4; 4; 4]%nat) = [1; 4; 4; 4]%nat
  ∧ shape (keep_window (numbered [1; 4; 4; 4]%nat) 0 1 0 2 2)
    = [1; 4; 4; 4]%nat
  ∧ 2%nat ≠ 0%nat ∧ (4 mod 2 = 0)%nat
  ∧ (None : option nat) ≠ Some 0%nat ∧ 4%nat ≠ 0%nat
  ∧ @window_local_norm Z_scalar None
  ∧ @mask_ok Z_scalar None false
      [(1 * (4 / 2) * (4 / 2))%nat; 2%nat; (2 * 2)%nat; (2 * 2)%nat]
  ∧ (0 < 1)%nat ∧ (1 < 4 / 2)%nat ∧ (0 < 4 / 2)%nat
  ∧ (∀ c i j, (c < 4)%nat → (i < 4)%nat → (j < 4)%nat →
       (i / 2)%nat = 1%nat → (j / 2)%nat = 0%nat →
       data (numbered [1; 4; 4; 4]%nat) [0; c; i; j]%nat
       = data (keep_window (numbered [1; 4; 4; 4]%nat) 0 1 0 2 2)
           [0; c; i; j]%nat)
  ∧ ∃ y y',
      @WindowMHA2d.forward Z_scalar uniform_torch window_mha_4_2
        (numbered [1; 4; 4; 4]%nat) None None = Ok y
      ∧ @WindowMHA2d.forward Z_scalar uniform_torch window_mha_4_2
          (keep_window (numbered [1; 4; 4; 4]%nat) 0 1 0 2 2) None None
        = Ok y'
      ∧ shape y = shape (numbered [1; 4; 4; 4]%nat)
      ∧ shape y' = shape (keep_window (numbered [1; 4; 4; 4]%nat) 0 1 0 2 2)
      ∧ ∀ c i j, (i < 4)%nat → (j < 4)%nat →
          (i / 2)%nat = 1%nat → (j / 2)%nat = 0%nat →
          data y [0; c; i; j]%nat = data y' [0; c; i; j]%nat.
Proof.
  assert (∀ c i j, (c < 4)%nat → (i < 4)%nat → (j < 4)%nat →
            (i / 2)%nat = 1%nat → (j / 2)%nat = 0%nat →
            data (numbered [1; 4; 4; 4]%nat) [0; c; i; j]%nat
            = data (keep_window (numbered [1; 4; 4; 4]%nat) 0 1 0 2 2)
                [0; c; i; j]%nat)
    as Hagree.
  { intros c i j _ _ _ Hi Hj. cbn [keep_window data].
    by rewrite decide_True. }
  split_and!; [reflexivity|reflexivity|reflexivity|discriminate|reflexivity
              |discriminate|discriminate|exact I|exact I|lia
              |cbn; lia|cbn; lia|exact Hagree|].
  apply (@WindowMHA2d_window_local Z_scalar uniform_torch 4 2 (WinInt 2) None
           (tile_features 12) (tile_features 4) window_mha_4_2
           (numbered [1; 4; 4; 4]%nat)
           (keep_window (numbered [1; 4; 4; 4]%nat) 0 1 0 2 2)
           None None 1 4 4 0 1 0);
    [reflexivity|reflexivity|reflexivity|discriminate|discriminate
    |reflexivity|reflexivity|discriminate|discriminate|discriminate
    |exact I|exact I|lia|cbn; lia|cbn; lia|exact Hagree].
Defined.

Lemma WindowCrossMHA2d_window_local_witness :
  @WindowCrossMHA2d.__init__ Z_scalar uniform_torch 4 2 (WinInt 2) None
    (tile_features 4) (tile_features 8) (tile_features 4)
  = Ok window_cross_mha_4_2
  ∧ shape (numbered [1; 4; 4; 4]%nat) = [1; 4; 4; 4]%nat
  ∧ shape (filled [1; 4; 4; 4]%nat 7) = [1; 4; 4; 4]%nat
  ∧ shape (keep_window (numbered [1; 4; 4; 4]%nat) 0 1 0 2 2)
    = [1; 4; 4; 4]%nat
  ∧ 2%nat ≠ 0%nat ∧ (4 mod 2 = 0)%nat
  ∧ (None : option nat) ≠ Some 0%nat ∧ 4%nat ≠ 0%nat
  ∧ @window_local_norm Z_scalar None
  ∧ @mask_ok Z_scalar None false
      [(1 * (4 / 2) * (4 / 2))%nat; 2%nat; (2 * 2)%nat; (2 * 2)%nat]
  ∧ (0 < 1)%nat ∧ (1 < 4 / 2)%nat ∧ (0 < 4 / 2)%nat
  ∧ (∀ c i j, (c < 4)%nat → (i < 4)%nat → (j < 4)%nat →
       (i / 2)%nat = 1%nat → (j / 2)%nat = 0%nat →
       data (filled [1; 4; 4; 4]%nat 7) [0; c; i; j]%nat
       = data (filled [1; 4; 4; 4]%nat 7) [0; c; i; j]%nat
       ∧ data (numbered [1; 4; 4; 4]%nat) [0; c; i; j]%nat
         = data (keep_window (numbered [1; 4; 4; 4]%nat) 0 1 0 2 2)
             [0; c; i; j]%nat)
  ∧ ∃ y y',
      @WindowCrossMHA2d.forward Z_scalar uniform_torch window_cross_mha_4_2
        (filled [1; 4; 4; 4]%nat 7) (numbered [1; 4; 4; 4]%nat)
        None None None = Ok y
      ∧ @WindowCrossMHA2d.forward Z_scalar uniform_torch window_cross_mha_4_2
          (filled [1; 4; 4; 4]%nat 7)
          (keep_window (numbered [1; 4; 4; 4]%nat) 0 1 0 2 2)
          None None None = Ok y'
      ∧ shape y = shape (filled [1; 4; 4; 4]%nat 7)
      ∧ shape y' = shape (filled [1; 4; 4; 4]%nat 7)
      ∧ ∀ c i j, (i < 4)%nat → (j < 4)%nat →
          (i / 2)%nat = 1%nat → (j / 2)%nat = 0%nat →
          data y [0; c; i; j]%nat = data y' [0; c; i; j]%nat.
Proof.
  assert (∀ c i j, (c < 4)%nat → (i < 4)%nat → (j < 4)%nat →
            (i / 2)%nat = 1%nat → (j / 2)%nat = 0%nat →
            data (filled [1; 4; 4; 4]%nat 7) [0; c; i; j]%nat
            = data (filled [1; 4; 4; 4]%nat 7) [0; c; i; j]%nat
            ∧ data (numbered [1; 4; 4; 4]%nat) [0; c; i; j]%nat
              = data (keep_window (numbered [1; 4; 4; 4]%nat) 0 1 0 2 2)
                  [0; c; i; j]%nat)
    as Hagree.
  { intros c i j _ _ _ Hi Hj. split; [reflexivity|].
    cbn [keep_window data]. by rewrite decide_True. }
  split_and!; [reflexivity|reflexivity|reflexivity|reflexivity|discriminate
              |reflexivity|discriminate|discriminate|exact I|exact I|lia
              |cbn; lia|cbn; lia|exact Hagree|].
  apply (@WindowCrossMHA2d_window_local Z_scalar uniform_torch 4 2 (WinInt 2)
           None (tile_features 4) (tile_features 8) (tile_features 4)
           window_cross_mha_4_2
           (filled [1; 4; 4; 4]%nat 7) (numbered [1; 4; 4; 4]%nat)
           (filled [1; 4; 4; 4]%nat 7)
           (keep_window (numbered [1; 4; 4; 4]%nat) 0 1 0 2 2)
           None None None 1 4 4 0 1 0);
    [reflexivity|reflexivity|reflexivity|reflexivity|reflexivity
    |discriminate|discriminate|reflexivity|reflexivity|discriminate
    |discriminate|discriminate|exact I|exact I|exact I|lia|cbn; lia|cbn; lia
    |exact Hagree].
Defined.

Lemma Overlap_forward_window_parity_witness :
  @OverlapWindowMHA2d.__init__ Z_scalar 4 2 (WinInt 2) None
    (tile_features 12) (tile_features 4) = Ok overlap_2x2
  ∧ @has_scaled_dot_product_attention Z_scalar uniform_torch = true
  ∧ shape (numbered [1; 4; 4; 4]%nat) = [1; 4; 4; 4]%nat
  ∧ 2%nat ≠ 0%nat ∧ (4 mod 2 = 0)%nat
  ∧ (None : option nat) ≠ Some 0%nat ∧ 4%nat ≠ 0%nat
  ∧ @norm_ok Z_scalar None
  ∧ @mask_ok Z_scalar None false
      [(1 * (4 / 2) * (4 / 2))%nat; 2%nat; (2 * 2)%nat; (2 * 2)%nat]
  ∧ ∃ y, @OverlapWindowMHA2d.forward Z_scalar uniform_torch overlap_2x2
           (numbered [1; 4; 4; 4]%nat) None None = Ok y
         ∧ shape y = shape (numbered [1; 4; 4; 4]%nat).
Proof.
  split_and!; [reflexivity|reflexivity|reflexivity|discriminate|reflexivity
              |discriminate|discriminate|exact I|exact I|].
  apply (@Overlap_forward_window_parity Z_scalar uniform_torch 4 2 (WinInt 2)
           None (tile_features 12) (tile_features 4) overlap_2x2
           (numbered [1; 4; 4; 4]%nat) None None 1 4 4);
    [reflexivity|reflexivity|reflexivity|discriminate|discriminate
    |reflexivity|reflexivity|discriminate|discriminate|discriminate
    |exact I|exact I|exact I].
Defined.

Lemma SEBlock_forward_gates_channels_witness :
  @SEBlock.__init__ Z_scalar 4 2 (tile_features 2) (tile_features 4)
  = Ok se_4_2
  ∧ (2 ≤ 4)%nat
  ∧ shape (numbered [1; 4; 2; 2]%nat) = [1; 4; 2; 2]%nat
  ∧ 2%nat ≠ 0%nat
  ∧ ∃ y (gate : nat → nat → Z),
      @SEBlock.forward Z_scalar Z_pointwise se_4_2 (numbered [1; 4; 2; 2]%nat)
      = Returns y
      ∧ @SNSEBlock.forward Z_scalar Z_pointwise se_4_2
          (numbered [1; 4; 2; 2]%nat) = Returns y
      ∧ shape y = shape (numbered [1; 4; 2; 2]%nat)
      ∧ (∀ b c i j, (b < 1)%nat → (c < 4)%nat → (i < 2)%nat → (j < 2)%nat →
           data y [b; c; i; j]
           = data (numbered [1; 4; 2; 2]%nat) [b; c; i; j] * gate b c)
      ∧ ∀ b c,
          gate b c
          = @se_gate Z_scalar Z_pointwise (tile_features 2) (tile_features 4)
              (4 / 2)
              ((λ c', @mean Z_scalar Z_pointwise
                        ((λ ij, data (numbered [1; 4; 2; 2]%nat)
                                  [b; c'; ij.1; ij.2]) <$> grid 2 2))
                 <$> seq 0 4) c.
Proof.
  split_and!; [reflexivity|lia|reflexivity|discriminate|].
  apply (@SEBlock_forward_gates_channels Z_scalar Z_pointwise 4 2
           (tile_features 2) (tile_features 4) se_4_2
           (numbered [1; 4; 2; 2]%nat) 1 2 2);
    [reflexivity|lia|reflexivity|discriminate|discriminate].
Defined.

Lemma SEBlockNHWC_matches_SEBlock_witness :
  @SEBlock.__init__ Z_scalar 4 2 (tile_features 2) (tile_features 4)
  = Ok se_4_2
  ∧ @SEBlockNHWC.__init__ Z_scalar 4 2 (tile_features 2) (tile_features 4)
    = Ok se_nhwc_4_2
  ∧ (2 ≤ 4)%nat
  ∧ shape (numbered [1; 4; 2; 2]%nat) = [1; 4; 2; 2]%nat
  ∧ 2%nat ≠ 0%nat
  ∧ ∃ xt y yt,
      permute (numbered [1; 4; 2; 2]%nat) [0; 2; 3; 1]%nat = Ok xt
      ∧ @SEBlock.forward Z_scalar Z_pointwise se_4_2
          (numbered [1; 4; 2; 2]%nat) = Returns y
      ∧ @SEBlockNHWC.forward Z_scalar Z_pointwise se_nhwc_4_2 xt = Returns yt
      ∧ shape y = [1; 4; 2; 2]%nat
      ∧ shape yt = [1; 2; 2; 4]%nat
      ∧ ∀ b c i j, (b < 1)%nat → (c < 4)%nat → (i < 2)%nat → (j < 2)%nat →
          data yt [b; i; j; c] = data y [b; c; i; j].
Proof.
  split_and!; [reflexivity|reflexivity|lia|reflexivity|discriminate|].
  apply (@SEBlockNHWC_matches_SEBlock Z_scalar Z_pointwise 4 2
           (tile_features 2) (tile_features 4) se_4_2 se_nhwc_4_2
           (numbered [1; 4; 2; 2]%nat) 1 2 2);
    [reflexivity|reflexivity|lia|reflexivity|discriminate|discriminate].
Defined.

Lemma ResBlock_forward_shape_witness :
  @res_block.ResBlock Z_scalar Z_pointwise plain_norm 2 4 2
    (res_block.mode res_block.Zeros)
    (Some (λ _ _, Ok (@res_block.ReLU Z_scalar Z_pointwise)))
    (Some (λ _ _, Ok res_block.Identity))
    (Some (λ _ _, Ok res_block.Identity))
    false (λ _, sum_kernel 4) = Ok res_block_2_4
  ∧ @res_block.factory_ok Z_scalar (λ _ _, Ok (@res_block.ReLU Z_scalar Z_pointwise)) 4
  ∧ @res_block.factory_ok Z_scalar (λ _ _, Ok res_block.Identity) 4
  ∧ shape (numbered [1; 2; 5; 5]%nat) = [1; 2; 5; 5]%nat
  ∧ 1%nat ≠ 0%nat ∧ (4 ≤ 5)%nat
  ∧ ∃ y, res_block.forward res_block_2_4 (numbered [1; 2; 5; 5]%nat)
         = Returns y
         ∧ shape y = [1; 4; res_block.block_out_size 2 false 5;
                      res_block.block_out_size 2 false 5]%nat.
Proof.
  assert (@res_block.factory_ok Z_scalar (λ _ _, Ok (@res_block.ReLU Z_scalar Z_pointwise)) 4) as Hact
    by (intros k l [= <-]; apply keeps_feature_maps_map).
  assert (@res_block.factory_ok Z_scalar (λ _ _, Ok res_block.Identity) 4)
    as Hid by (intros k l [= <-]; apply keeps_feature_maps_Identity).
  split_and!; [reflexivity|exact Hact|exact Hid|reflexivity|discriminate|lia|].
  apply (@ResBlock_forward_shape Z_scalar Z_pointwise plain_norm 2 4 2
           res_block.Zeros
           (λ _ _, Ok (@res_block.ReLU Z_scalar Z_pointwise))
           (λ _ _, Ok res_block.Identity) (λ _ _, Ok res_block.Identity)
           false (λ _, sum_kernel 4) res_block_2_4
           (numbered [1; 2; 5; 5]%nat) 1 5 5 eq_refl Hact Hid Hid eq_refl);
    [discriminate|lia|lia].
Defined.

Lemma ResBlock_unpadded_raises_witness :
  @res_block.ResBlock Z_scalar Z_pointwise plain_norm 2 2 1 res_block.none
    (Some (λ _ _, Ok (@res_block.ReLU Z_scalar Z_pointwise)))
    (Some (λ _ _, Ok res_block.Identity))
    (Some (λ _ _, Ok res_block.Identity))
    false (λ _, sum_kernel 2) = Ok res_block_unpadded
  ∧ @res_block.factory_ok Z_scalar (λ _ _, Ok (@res_block.ReLU Z_scalar Z_pointwise)) 2
  ∧ @res_block.factory_ok Z_scalar (λ _ _, Ok res_block.Identity) 2
  ∧ shape (numbered [1; 2; 6; 6]%nat) = [1; 2; 6; 6]%nat
  ∧ 1%nat ≠ 0%nat ∧ (5 ≤ 6)%nat ∧ (6 ≠ 5 ∨ 6 ≠ 5)%nat
  ∧ res_block.forward res_block_unpadded (numbered [1; 2; 6; 6]%nat)
    = Raises RuntimeError.
Proof.
  assert (@res_block.factory_ok Z_scalar (λ _ _, Ok (@res_block.ReLU Z_scalar Z_pointwise)) 2) as Hact
    by (intros k l [= <-]; apply keeps_feature_maps_map).
  assert (@res_block.factory_ok Z_scalar (λ _ _, Ok res_block.Identity) 2)
    as Hid by (intros k l [= <-]; apply keeps_feature_maps_Identity).
  assert (6 ≠ 5 ∨ 6 ≠ 5)%nat as Hne by (left; discriminate).
  split_and!; [reflexivity|exact Hact|exact Hid|reflexivity|discriminate|lia
              |exact Hne|].
  apply (@ResBlock_unpadded_raises Z_scalar Z_pointwise plain_norm 2 2
           (λ _ _, Ok (@res_block.ReLU Z_scalar Z_pointwise))
           (λ _ _, Ok res_block.Identity)
           (λ _ _, Ok res_block.Identity) false (λ _, sum_kernel 2)
           res_block_unpadded (numbered [1; 2; 6; 6]%nat) 1 6 6 eq_refl
           Hact Hid eq_refl); [discriminate|lia|lia|exact Hne].
Defined.

Lemma ResBlockSELReLU_forward_shape_witness :
  (2 = 1 ∨ 2 = 2)%nat ∧ ((if true then 8 else 1) ≤ 8)%nat
  ∧ ∃ block,
      @res_block.ResBlockSELReLU Z_scalar Z_pointwise plain_norm 2 8 2
        (res_block.mode res_block.Reflect) true true
        (λ _, sum_kernel 8) (λ _, tile_features 8) = Ok block
      ∧ ∀ x B H' W,
          shape x = [B; 2; H'; W]%nat → B ≠ 0%nat →
          (4 ≤ H')%nat → (4 ≤ W)%nat →
          ∃ y, res_block.forward block x = Returns y
               ∧ shape y = [B; 8%nat; res_block.block_out_size 2 true H';
                            res_block.block_out_size 2 true W].
Proof.
  assert (2 = 1 ∨ 2 = 2)%nat as Hs by (right; reflexivity).
  assert ((if true then 8 else 1) ≤ 8)%nat as Hse by (simpl; lia).
  split_and!; [exact Hs|exact Hse|].
  exact (@ResBlockSELReLU_forward_shape Z_scalar Z_pointwise plain_norm 2 8 2
           res_block.Reflect true true (λ _, sum_kernel 8)
           (λ _, tile_features 8) Hs Hse).
Defined.

Lemma ResGroup_forward_shape_witness :
  @res_block.ResGroup Z_scalar 2 4 1 2 None
    (λ i a b s,
       @res_block.ResBlock Z_scalar Z_pointwise plain_norm a b s
         (res_block.mode res_block.Zeros)
         (Some (λ _ _, Ok (@res_block.ReLU Z_scalar Z_pointwise)))
         (Some (λ _ _, Ok res_block.Identity))
         (Some (λ _ _, Ok res_block.Identity))
         false (λ _, sum_kernel 4))
  = Ok (res_block.Sequential [res_block_2_4])
  ∧ @res_block.factory_ok Z_scalar (λ _ _, Ok (@res_block.ReLU Z_scalar Z_pointwise)) 4
  ∧ @res_block.factory_ok Z_scalar (λ _ _, Ok res_block.Identity) 4
  ∧ shape (numbered [1; 2; 8; 8]%nat) = [1; 2; 8; 8]%nat
  ∧ 1%nat ≠ 0%nat ∧ (8 ≤ 8)%nat
  ∧ ∃ y, res_block.forward (res_block.Sequential [res_block_2_4])
           (numbered [1; 2; 8; 8]%nat) = Returns y
         ∧ shape y
           = if decide (1%nat = 0%nat)
             then shape (numbered [1; 2; 8; 8]%nat)
             else [1; 4; res_block.block_out_size 2 false 8;
                   res_block.block_out_size 2 false 8]%nat.
Proof.
  assert (@res_block.factory_ok Z_scalar (λ _ _, Ok (@res_block.ReLU Z_scalar Z_pointwise)) 4) as Hact
    by (intros k l [= <-]; apply keeps_feature_maps_map).
  assert (@res_block.factory_ok Z_scalar (λ _ _, Ok res_block.Identity) 4)
    as Hid by (intros k l [= <-]; apply keeps_feature_maps_Identity).
  split_and!; [reflexivity|exact Hact|exact Hid|reflexivity|discriminate|lia|].
  apply (@ResGroup_forward_shape Z_scalar Z_pointwise plain_norm 2 4 1 2
           res_block.Zeros
           (λ _ _, Ok (@res_block.ReLU Z_scalar Z_pointwise))
           (λ _ _, Ok res_block.Identity) (λ _ _, Ok res_block.Identity)
           false (λ _ _, sum_kernel 4)
           (res_block.Sequential [res_block_2_4])
           (numbered [1; 2; 8; 8]%nat) 1 8 8 eq_refl Hact Hid Hid eq_refl);
    [discriminate|lia|lia].
Defined.

Lemma save_cache_try_load_cache_round_trip_witness :
  ((cache.get_cache_path "/a.mp4" no_files).1
     ∉ cache.dirs (cache.get_cache_path "/a.mp4" no_files).2)
  ∧ cache.reads_back ntsc
  ∧ cache.ne (cache.max_fps plain_options) (cache.max_fps plain_options)
    = false
  ∧ cache.ne (cache.resolution plain_options)
      (cache.resolution plain_options) = false
  ∧ (cache.vf plain_options = None ∨ cache.vf plain_options = Some "")
  ∧ ∃ data st',
      @cache.save_cache toy_env "/a.mp4" [1] [2] ntsc plain_options no_files
      = (cache.Fine (), st')
      ∧ @cache.try_load_cache toy_env "/a.mp4" plain_options st'
        = (cache.Fine (Some data), st')
      ∧ @cache.holds toy_env _ data cache.Stored [1] [2] plain_options
      ∧ data !! "fps" = Some (cache.restored ntsc).
Proof.
  assert ((cache.get_cache_path "/a.mp4" no_files).1
            ∉ cache.dirs (cache.get_cache_path "/a.mp4" no_files).2) as Hp
    by (by vm_compute).
  assert (cache.reads_back ntsc) as Hint by (split; reflexivity).
  assert (cache.vf plain_options = None ∨ cache.vf plain_options = Some "")
    as Hvf by (left; reflexivity).
  split_and!; [exact Hp|exact Hint|reflexivity|reflexivity|exact Hvf|].
  exact (@save_cache_try_load_cache_round_trip toy_env "/a.mp4" [1] [2] ntsc
           plain_options no_files Hp Hint eq_refl eq_refl Hvf).
Defined.

Lemma save_cache_with_filter_never_loads_witness :
  ((cache.get_cache_path "/a.mp4" no_files).1
     ∉ cache.dirs (cache.get_cache_path "/a.mp4" no_files).2)
  ∧ cache.reads_back ntsc
  ∧ cache.vf filter_options = Some "yadif"
  ∧ "yadif" ≠ ""
  ∧ @cache.hexdigest toy_env ("yadif" +:+ cache.MD5_SALT) ≠ ""
  ∧ @cache.hexdigest toy_env (@cache.hexdigest toy_env ("yadif" +:+ cache.MD5_SALT)
                     +:+ cache.MD5_SALT)
    ≠ @cache.hexdigest toy_env ("yadif" +:+ cache.MD5_SALT)
  ∧ ∃ st',
      @cache.save_cache toy_env "/a.mp4" [1] [2] ntsc filter_options no_files
      = (cache.Fine (), st')
      ∧ @cache.try_load_cache toy_env "/a.mp4" filter_options st'
        = (cache.Fine None, st').
Proof.
  assert ((cache.get_cache_path "/a.mp4" no_files).1
            ∉ cache.dirs (cache.get_cache_path "/a.mp4" no_files).2) as Hp
    by (by vm_compute).
  assert (cache.reads_back ntsc) as Hint by (split; reflexivity).
  assert ("yadif" ≠ "") as Hs by discriminate.
  assert (@cache.hexdigest toy_env ("yadif" +:+ cache.MD5_SALT) ≠ "") as Hh
    by discriminate.
  assert (@cache.hexdigest toy_env (@cache.hexdigest toy_env ("yadif" +:+ cache.MD5_SALT)
                           +:+ cache.MD5_SALT)
          ≠ @cache.hexdigest toy_env ("yadif" +:+ cache.MD5_SALT)) as Hfix
    by discriminate.
  split_and!; [exact Hp|exact Hint|reflexivity|exact Hs|exact Hh|exact Hfix|].
  exact (@save_cache_with_filter_never_loads toy_env "/a.mp4" [1] [2] ntsc
           filter_options filter_options no_files "yadif"
           Hp Hint eq_refl eq_refl Hs Hh Hfix).
Defined.

Lemma try_load_cache_other_options_witness :
  ((cache.get_cache_path "/a.mp4" no_files).1
     ∉ cache.dirs (cache.get_cache_path "/a.mp4" no_files).2)
  ∧ cache.reads_back ntsc
  ∧ (cache.ne (cache.max_fps other_options) (cache.max_fps plain_options)
     = true
     ∨ cache.ne (cache.resolution other_options)
         (cache.resolution plain_options) = true)
  ∧ ∃ st',
      @cache.save_cache toy_env "/a.mp4" [1] [2] ntsc plain_options no_files
      = (cache.Fine (), st')
      ∧ @cache.try_load_cache toy_env "/a.mp4" other_options st'
        = (cache.Fine None, st').
Proof.
  assert ((cache.get_cache_path "/a.mp4" no_files).1
            ∉ cache.dirs (cache.get_cache_path "/a.mp4" no_files).2) as Hp
    by (by vm_compute).
  assert (cache.reads_back ntsc) as Hint by (split; reflexivity).
  assert (cache.ne (cache.max_fps other_options) (cache.max_fps plain_options)
          = true
          ∨ cache.ne (cache.resolution other_options)
              (cache.resolution plain_options) = true) as Hne
    by (left; reflexivity).
  split_and!; [exact Hp|exact Hint|exact Hne|].
  exact (@try_load_cache_other_options toy_env "/a.mp4" [1] [2] ntsc
           plain_options other_options no_files Hp Hint Hne).
Defined.

Lemma purge_cache_try_load_cache_witness :
  ((cache.get_cache_path "/a.mp4" no_files).1
     ∉ cache.dirs (cache.get_cache_path "/a.mp4" no_files).2)
  ∧ (cache.get_cache_path "/a.mp4" no_files).1 ≠ @cache.cache_dir toy_env
  ∧ ∃ st',
      @cache.purge_cache toy_env "/a.mp4" no_files = (cache.Fine (), st')
      ∧ @cache.try_load_cache toy_env "/a.mp4" plain_options st'
        = (cache.Fine None, st')
      ∧ cache.files st'
        = delete (cache.get_cache_path "/a.mp4" no_files).1
            (cache.files no_files).
Proof.
  assert ((cache.get_cache_path "/a.mp4" no_files).1
            ∉ cache.dirs (cache.get_cache_path "/a.mp4" no_files).2) as Hp
    by (by vm_compute).
  assert ((cache.get_cache_path "/a.mp4" no_files).1 ≠ @cache.cache_dir toy_env) as Hcp
    by discriminate.
  split_and!; [exact Hp|exact Hcp|].
  exact (@purge_cache_try_load_cache toy_env "/a.mp4" plain_options no_files
           Hp Hcp).
Defined.

Lemma save_cache_other_video_witness :
  (cache.get_cache_path "/a.mp4" no_files).1
    ≠ (cache.get_cache_path "/b.mp4" no_files).1
  ∧ (@cache.try_load_cache toy_env "/a.mp4" plain_options
       (@cache.save_cache toy_env "/b.mp4" [1] [2] ntsc plain_options no_files).2).1
    = (@cache.try_load_cache toy_env "/a.mp4" plain_options no_files).1.
Proof.
  assert ((cache.get_cache_path "/a.mp4" no_files).1
            ≠ (cache.get_cache_path "/b.mp4" no_files).1) as Hne
    by discriminate.
  split; [exact Hne|].
  exact (@save_cache_other_video toy_env "/a.mp4" "/b.mp4" [1] [2] ntsc
           plain_options plain_options no_files Hne).
Defined.

Lemma SEBlock_forward_small_raises_witness :
  (4 < 8)%nat ∧ shape (numbered [1; 4; 2; 2]%nat) = [1; 4; 2; 2]%nat
  ∧ ∃ self,
      @SEBlock.__init__ Z_scalar 4 8 (tile_features 0) (tile_features 4)
      = Ok self
      ∧ @SEBlock.forward Z_scalar Z_pointwise self (numbered [1; 4; 2; 2]%nat)
        = Raises RuntimeError.
Proof.
  assert (4 < 8)%nat as Hlt by lia.
  refine (conj Hlt (conj eq_refl _)).
  exact (@SEBlock_forward_small_raises Z_scalar Z_pointwise 4 8
           (tile_features 0) (tile_features 4) (numbered [1; 4; 2; 2]%nat)
           1 4 2 2 Hlt eq_refl).
Defined.
